(** * Renju rules engine (web-app/renju.js): embedding and verified properties

    The engine is embedded shallowly.  Arrays are lists, JavaScript numbers
    used as indices and counters are integers ([Z]), the values a board cell
    can hold are an enumeration, and a call that may throw returns a
    [result].  The three [attempt*] operations, [isMoveValid], [checkWin]
    and [removeLastMove] are embedded twice: once as functions on values
    (section "Public operations") and once over an explicit object store
    (module [Store]), where [R.clone] allocates and assignments, [push] and
    [pop] write through references. *)

From Stdlib Require Import ZArith List Bool Lia.
From stdpp Require Import base option list strings gmap pretty.

Local Open Scope Z_scope.

(** The embedding of [renju.js]; the functions keep their names. *)
Module Renju.

(** ** Values *)

(** The values that occur in a board or in one of the scanner's windows:
  [null], the three strings, the number [0] that [getTouchingCells] writes
  for a masked cell, and [undefined], the result of reading an array past
  its end. *)
Inductive cell : Type :=
| Null
| Black
| White
| Removed
| Zero
| Undefined.

(** [a === b] on these values. *)
Definition strictEq (a b : cell) : bool :=
match a, b with
| Null, Null | Black, Black | White, White
| Removed, Removed | Zero, Zero | Undefined, Undefined => true
| _, _ => false
end.

Definition strictNe (a b : cell) : bool := negb (strictEq a b).

(** A logged move.  [flags] records whether the object also carries the
  fields [doubleThree: false] and [doubleFour: false], which
  [attemptRemove] and [attemptPass] add and nothing reads. *)
Record move : Type := Move {
row : Z;
column : Z;
playerColour : cell;
removed : bool;
flags : bool
}.

Record gameState : Type := GameState {
board : list (list cell);
moves : list move
}.

(** [{gameState: g, valid: true}] and [{valid: false}]. *)
Inductive attemptedMove : Type :=
| Valid (g : gameState)
| Invalid.

Record checkedEndingConditions : Type := Outcome {
valid : bool;
reason : string
}.

(** ** Calls that may throw *)

Inductive error : Type :=
| TypeError
| RangeError
| Error (msg : string).

(** [OutOfFuel] is the answer of a loop that was cut after the given number
  of iterations; no JavaScript value corresponds to it. *)
Inductive result (A : Type) : Type :=
| Ok (a : A)
| Throw (e : error)
| OutOfFuel.

Arguments Ok {A} a.
Arguments Throw {A} e.
Arguments OutOfFuel {A}.

Definition bind {A B : Type} (m : result A) (f : A -> result B) : result B :=
match m with
| Ok a => f a
| Throw e => Throw e
| OutOfFuel => OutOfFuel
end.

Notation "'let*' x := m 'in' k" := (bind m (fun x => k))
(at level 10, x name, m at level 100, k at level 200).
Notation "'let*' ' p := m 'in' k" := (bind m (fun x => match x with p => k end))
(at level 10, p pattern, m at level 100, k at level 200).

(** ** JavaScript arrays *)

(** [a[i]]: [None] stands for [undefined]. *)
Definition arrayGet {A : Type} (a : list A) (i : Z) : option A :=
if 0 <=? i then a !! Z.to_nat i else None.

(** [b[r][c]]: reading a property of [undefined] is a TypeError, reading
  past the end of an existing row gives [undefined]. *)
Definition readCell (b : list (list cell)) (r c : Z) : result cell :=
match arrayGet b r with
| None => Throw TypeError
| Some line => Ok (default Undefined (arrayGet line c))
end.

(** [a[i] = v] on a row.  Inside the array the element is replaced; past the
  end the array grows, the skipped slots reading [undefined]; a negative
  [i] only adds a property named by it and leaves the elements alone. *)
Definition arraySet (a : list cell) (i : Z) (v : cell) : list cell :=
if i <? 0 then a
else if i <? Z.of_nat (length a) then <[Z.to_nat i := v]> a
else a ++ replicate (Z.to_nat i - length a) Undefined ++ [v].

(** [b[r][c] = v]. *)
Definition writeCell (b : list (list cell)) (r c : Z) (v : cell)
: result (list (list cell)) :=
match arrayGet b r with
| None => Throw TypeError
| Some line => Ok (<[Z.to_nat r := arraySet line c v]> b)
end.

(** [a.slice(from, to)]; negative bounds count from the end. *)
Definition slice {A : Type} (from to : Z) (a : list A) : list A :=
let len := Z.of_nat (length a) in
let k := if from <? 0 then Z.max (len + from) 0 else Z.min from len in
let final := if to <? 0 then Z.max (len + to) 0 else Z.min to len in
take (Z.to_nat (final - k)) (drop (Z.to_nat k) a).

(** [R.range(from, to)]. *)
Definition range (from to : Z) : list Z :=
map (fun k => from + Z.of_nat k) (seq 0 (Z.to_nat (to - from))).

(** ** Helper functions *)

(** The default parameter [input = null]: an argument that is [undefined],
  or left out, is replaced by [null]. *)
Definition defaulted (input : cell) : cell :=
match input with
| Undefined => Null
| _ => input
end.

(** [new Array(n)] accepts the lengths from 0 to 2^32 - 1 and throws a
  RangeError on every other integer. *)
Definition arrayLength (n : Z) : bool := (0 <=? n) && (n <? 2 ^ 32).

(** [new Array(width)] is evaluated first; an odd [width] is not 0, so that
  the callback of [map] runs and [new Array(height)] is evaluated too. *)
Definition createBoard (width height : Z) (input : cell)
: result (list (list cell)) :=
let input := defaulted input in
if (Z.rem width 2 =? 0) || (Z.rem height 2 =? 0)
then Throw (Error "Board dimensions must be odd numbers")
else if negb (arrayLength width) then Throw RangeError
else if negb (arrayLength height) then Throw RangeError
else Ok (replicate (Z.to_nat width) (replicate (Z.to_nat height) input)).

Definition movesMadeFromBoard (flat : list cell) : Z :=
fold_right Z.add 0 (map (fun x => if strictEq x Null then 0 else 1) flat).

Definition isNextTo (row1 column1 row2 column2 : Z) : bool :=
(Z.abs (column1 - column2) <=? 1) && (Z.abs (row1 - row2) <=? 1).

Definition getBoardColumnNumber (b : list (list cell)) : Z :=
Z.of_nat (length b).

Definition getBoardRowNumber (b : list (list cell)) : result Z :=
match b with
| [] => Throw TypeError
| line :: _ => Ok (Z.of_nat (length line))
end.

Definition half (number : Z) : Z := number / 2.

(** [board[0].map((ignore, index) => board.map((row) => row[index]).reverse())] *)
Definition rotateBoard (b : list (list cell)) : result (list (list cell)) :=
match b with
| [] => Throw TypeError
| line :: _ =>
    Ok (map (fun index => rev (map (fun r => default Undefined (r !! index)) b))
            (seq 0 (length line)))
end.

Definition getBoardSection (startingRow endingRow startingColumn endingColumn : Z)
  (b : list (list cell)) : list (list cell) :=
map (slice startingColumn (endingColumn + 1)) (slice startingRow (endingRow + 1) b).

(** The [while] loop of [checkMoveThree]; the loop state is
  [(cellAboveMiddle, cellAccrossMiddle, wasRotated, newBoard)]. *)
Fixpoint checkMoveThreeLoop (fuel : nat) (middleRow middleColumn : Z)
  (cellAboveMiddle cellAccrossMiddle : cell) (wasRotated : bool)
  (newBoard : list (list cell))
: result (cell * cell * bool * list (list cell)) :=
if strictEq cellAboveMiddle White || strictEq cellAccrossMiddle White
then Ok (cellAboveMiddle, cellAccrossMiddle, wasRotated, newBoard)
else
  match fuel with
  | O => OutOfFuel
  | S fuel' =>
      let* above := readCell newBoard middleRow (middleColumn - 1) in
      let* accross := readCell newBoard (middleRow - 1) (middleColumn - 1) in
      let* rotated := rotateBoard newBoard in
      checkMoveThreeLoop fuel' middleRow middleColumn above accross true rotated
  end.

(** [checkMoveThree] from the point where the tentative stone has been
  written into the copy of the board. *)
Definition checkMoveThreePlaced (fuel : nat) (newBoard : list (list cell))
: result bool :=
let middleColumn := half (getBoardColumnNumber newBoard) in
let* rows := getBoardRowNumber newBoard in
let middleRow := half rows in
let* above := readCell newBoard (middleRow - 1) middleColumn in
let* accross := readCell newBoard (middleRow - 1) (middleColumn - 1) in
let* '(cellAboveMiddle, cellAccrossMiddle, wasRotated, looped) :=
  checkMoveThreeLoop fuel middleRow middleColumn above accross false newBoard in
let* newBoard' :=
  (if negb wasRotated && strictEq cellAccrossMiddle White
   then rotateBoard looped else Ok looped) in
if strictEq cellAboveMiddle White then
  let validBoardSectionVertical :=
    getBoardSection (middleRow - 2) (middleRow + 2)
                    middleColumn (middleColumn + 2) newBoard' in
  Ok (movesMadeFromBoard (concat validBoardSectionVertical) =? 3)
else if strictEq cellAccrossMiddle White then
  let* corner1 := readCell newBoard' (middleRow + 2) (middleColumn - 2) in
  let* corner2 := readCell newBoard' (middleRow - 2) (middleColumn + 2) in
  let validBoardSectionDiagonal :=
    concat (getBoardSection middleRow (middleRow + 2)
                            middleColumn (middleColumn + 2) newBoard')
    ++ concat (getBoardSection (middleRow - 1) (middleRow - 1)
                               (middleColumn + 1) (middleColumn + 2) newBoard')
    ++ concat (getBoardSection (middleRow + 1) (middleRow + 2)
                               (middleColumn - 1) (middleColumn - 1) newBoard')
    ++ [corner1; corner2] in
  Ok (movesMadeFromBoard validBoardSectionDiagonal =? 3)
else Ok false.

Definition checkMoveThree (fuel : nat) (pc : cell) (r c : Z)
  (b : list (list cell)) : result bool :=
if strictEq pc White then Ok false
else
  let* newBoard := writeCell b r c pc in
  checkMoveThreePlaced fuel newBoard.

(** An element of the flattened board of [checkMoveSeven]: a cell, or the
  partially applied [R.update(column, playerColour)] that
  [R.update(row, ...)] stores in place of the whole row. *)
Inductive flatItem : Type :=
| Item (c : cell)
| Closure.

(** [R.flatten(R.update(idx, f, board))] for a function [f]: a negative
  index counts from the end and an index outside the array changes
  nothing (Ramda's [adjust]). *)
Definition flattenUpdated (idx : Z) (b : list (list cell)) : list flatItem :=
let len := Z.of_nat (length b) in
let items := map (map Item) b in
if (len <=? idx) || (idx <? - len) then concat items
else
  let i := if idx <? 0 then len + idx else idx in
  concat (<[Z.to_nat i := [Closure]]> items).

Definition isItem (v : cell) (x : flatItem) : bool :=
match x with
| Item c => strictEq c v
| Closure => false
end.

Definition checkMoveSeven (pc : cell) (r c : Z) (b : list (list cell)) : bool :=
if strictNe pc White then false
else
  let temporaryBoard := flattenUpdated r b in
  if negb (existsb (isItem Removed) temporaryBoard) then false
  else
    let temporaryBoard' := filter (fun x => negb (isItem Null x)) temporaryBoard in
    Z.of_nat (length temporaryBoard') =? 7.

(** ** The pattern scanner *)

(** The four variables that the callback of [countTouchingInARow] updates. *)
Record scan : Type := Scan {
counter : Z;
startingIndex : Z;
largestCounter : Z;
previousValue : cell
}.

Definition scanStep (pc : cell) (s : scan) (index : Z) (value : cell) : scan :=
let counter' :=
  if strictEq value pc && strictEq value (previousValue s)
  then counter s + 1 else 1 in
if largestCounter s <? counter'
then Scan counter' (index - counter' + 1) counter' value
else Scan counter' (startingIndex s) (largestCounter s) value.

Fixpoint scanFrom (pc : cell) (s : scan) (index : Z) (line : list cell) : scan :=
match line with
| [] => s
| value :: rest => scanFrom pc (scanStep pc s index value) (index + 1) rest
end.

Definition countTouchingInARow (pc : cell) (line : list cell) : list Z :=
let s := scanFrom pc (Scan 1 0 1 Zero) 0 line in
range (startingIndex s) (startingIndex s + largestCounter s).

Definition countHorizontalTouching (pc : cell) (b : list (list cell)) : list Z :=
let touchingPieces := map (countTouchingInARow pc) b in
let numberOfTouchingPieces := map (fun x => Z.of_nat (length x)) touchingPieces in
filter (fun x => 2 <= x) numberOfTouchingPieces.

Definition countVerticalTouching (pc : cell) (b : list (list cell))
: result (list Z) :=
let* rotated := rotateBoard b in
Ok (countHorizontalTouching pc rotated).

(** [if (!result[k]) { result[k] = []; } result[k].push(element)] on an
  array that may have holes ([None]). *)
Definition pushAt {A : Type} (k : nat) (element : A)
  (res : list (option (list A))) : list (option (list A)) :=
let res' := res ++ replicate (S k - length res) None in
<[k := Some (default [] (mjoin (res' !! k)) ++ [element])]> res'.

(** The inner [forEach] over the elements of one row, [j] counting up. *)
Fixpoint pushRow {A : Type} (i j : nat) (line : list A)
  (res : list (option (list A))) : list (option (list A)) :=
match line with
| [] => res
| element :: rest => pushRow i (S j) rest (pushAt (j + i) element res)
end.

(** The outer [forEach], [i] counting up over the rows handed to it. *)
Fixpoint pushRows {A : Type} (i : nat) (rows : list (list A))
  (res : list (option (list A))) : list (option (list A)) :=
match rows with
| [] => res
| line :: rest => pushRows (S i) rest (pushRow i 0 line res)
end.

Definition changeDiagonalToHorizontalUp {A : Type} (b : list (list A))
: list (option (list A)) :=
pushRows 0 b [].

(** Row [i] of the loop is [board[numRows - 1 - i]]. *)
Definition changeDiagonalToHorizontalDown {A : Type} (b : list (list A))
: list (option (list A)) :=
pushRows 0 (rev b) [].

Definition changeDiagonalToHorizontal {A : Type} (b : list (list A))
: list (option (list A)) :=
changeDiagonalToHorizontalUp b ++ changeDiagonalToHorizontalDown b.

(** [forEach] skips the holes of the array it walks. *)
Definition countDiagonalTouching (pc : cell) (b : list (list cell)) : list Z :=
let temporaryBoard := changeDiagonalToHorizontal b in
countHorizontalTouching pc (omap id temporaryBoard).

Definition totalNumberOfTouchingPieces (pc : cell) (b : list (list cell))
: result (list Z) :=
let* vertical := countVerticalTouching pc b in
Ok (vertical ++ countHorizontalTouching pc b ++ countDiagonalTouching pc b).

Definition checkIfFiveInARow (pc : cell) (b : list (list cell)) : result bool :=
let* numberOfTouchingPieces := totalNumberOfTouchingPieces pc b in
Ok (bool_decide (5 ∈ numberOfTouchingPieces)).

Definition checkOverline (pc : cell) (b : list (list cell)) : result bool :=
let* numberOfTouchingPieces := totalNumberOfTouchingPieces pc b in
Ok (existsb (fun x => 5 <? x) numberOfTouchingPieces).

(** The board framed by [padding] rows and columns of [padValue]; every
  assignment of the two nested loops falls inside the new array, the
  value read from a row shorter than [board[0]] being [undefined]. *)
Definition pad2DArray (padding : nat) (padValue : cell) (b : list (list cell))
: result (list (list cell)) :=
match b with
| [] => Throw TypeError
| line0 :: _ =>
    let width := length line0 in
    let blank := replicate (width + 2 * padding)%nat padValue in
    let side := replicate padding padValue in
    let body :=
      map (fun r => side
                    ++ map (fun j => default Undefined (r !! j)) (seq 0 width)
                    ++ side) b in
    Ok (replicate padding blank ++ body ++ replicate padding blank)
end.

Definition getCellsAround (rowIndex columnIndex : Z) (number : nat)
  (b : list (list cell)) : result (list (list cell)) :=
let startingRow := rowIndex in
let endingRow := rowIndex + 2 * Z.of_nat number in
let startingColumn := columnIndex in
let endingColumn := columnIndex + 2 * Z.of_nat number in
let* temporaryBoard := pad2DArray number Null b in
Ok (getBoardSection startingRow endingRow startingColumn endingColumn
                    temporaryBoard).

Definition getTouchingCells (b : list (list cell)) : result (list (list cell)) :=
let numRows := Z.of_nat (length b) in
let* numCols := getBoardRowNumber b in
let middleRow := numRows / 2 in
let middleCol := numCols / 2 in
let* middleValue := readCell b middleRow middleCol in
Ok (map (fun line =>
           map (fun j =>
                  let v := default Undefined (line !! j) in
                  if strictEq v middleValue then v else Zero)
               (seq 0 (Z.to_nat numCols)))
        b).

(** [xs.some(f)]: stops at the first element for which [f] answers [true]. *)
Fixpoint some {A : Type} (f : A -> result bool) (xs : list A) : result bool :=
match xs with
| [] => Ok false
| x :: rest =>
    match f x with
    | Ok true => Ok true
    | Ok false => some f rest
    | Throw e => Throw e
    | OutOfFuel => OutOfFuel
    end
end.

(** The common body of [blackMakesDoubleThree] ([number = 2], [size = 3])
  and [blackMakesDoubleFour] ([number = 3], [size = 4]). *)
Definition blackMakesDouble (number : nat) (size : Z) (b : list (list cell))
: result bool :=
some (fun '(rowIndex, line) =>
        some (fun columnIndex =>
                let* cellsAround :=
                  getCellsAround (Z.of_nat rowIndex) (Z.of_nat columnIndex)
                                 number b in
                let* touchingCells := getTouchingCells cellsAround in
                let* numberOfTouchingPieces :=
                  totalNumberOfTouchingPieces Black touchingCells in
                let kept := filter (fun x => x = size) numberOfTouchingPieces in
                Ok (2 <=? Z.of_nat (length kept)))
             (seq 0 (length line)))
     (imap (fun rowIndex line => (rowIndex, line)) b).

Definition blackMakesDoubleThree (b : list (list cell)) : result bool :=
blackMakesDouble 2 3 b.

Definition blackMakesDoubleFour (b : list (list cell)) : result bool :=
blackMakesDouble 3 4 b.

(** [moves.pop()] on the copy, then [board[lastMove.row][lastMove.column] = null]. *)
Definition removeLastMove (g : gameState) : result gameState :=
match last (moves g) with
| None => Throw TypeError
| Some lastMove =>
    let* b := writeCell (board g) (row lastMove) (column lastMove) Null in
    Ok (GameState b (removelast (moves g)))
end.

(** ** Public operations *)

Definition initiateGame (width height : Z) (input : cell) : result gameState :=
let input := defaulted input in
let* b := createBoard width height input in
Ok (GameState b []).

Definition movesMade (g : gameState) : Z := Z.of_nat (length (moves g)).

Definition nextMoveNumber (g : gameState) : Z := movesMade g + 1.

Definition colourToMove (g : gameState) : cell :=
let movesMade := movesMade g in
if (movesMade <=? 4) || (7 <=? movesMade) then
  if movesMade mod 2 =? 0 then Black else White
else
  if movesMade mod 2 =? 0 then White else Black.

Definition checkNormalMove (pc : cell) (g : gameState) : bool :=
if strictNe pc (colourToMove g) then false else true.

Definition isMoveValid (fuel : nat) (pc : cell) (r c : Z) (g : gameState)
: result bool :=
let b := board g in
let* target := readCell b r c in
if strictNe target Null && strictNe target Removed then Ok false
else
  let nextMoveNumber := nextMoveNumber g in
  let columnMiddle := half (getBoardColumnNumber b) in
  let* rows := getBoardRowNumber b in
  let rowMiddle := half rows in
  match nextMoveNumber with
  | 1 => Ok ((c =? columnMiddle) && (r =? rowMiddle) && strictEq pc Black)
  | 2 => Ok (isNextTo rowMiddle columnMiddle r c && strictEq pc White)
  | 3 => checkMoveThree fuel pc r c b
  | 4 => Ok (strictEq pc White)
  | 5 => Ok (strictEq pc Black)
  | 6 => Ok (strictEq pc Black)
  | 7 => Ok (checkMoveSeven pc r c b)
  | _ => Ok (checkNormalMove pc g)
  end.

Definition toString (v : cell) : string :=
match v with
| Null => "null"
| Black => "black"
| White => "white"
| Removed => "removed"
| Zero => "0"
| Undefined => "undefined"
end.

(** The two [&&] conditions of [checkWin]: the copy of the position is only
  made, and the last move only retracted, when the shape is on the board. *)
Definition justMade (shape : list (list cell) -> result bool) (g : gameState)
: result bool :=
let* present := shape (board g) in
if present then
  (let* retracted := removeLastMove g in
   let* before := shape (board retracted) in
   Ok (negb before)) : result bool
else Ok false.

Definition checkWinWhite (g : gameState) : result checkedEndingConditions :=
let b := board g in
let* five := checkIfFiveInARow White b in
let* more := (if five then Ok true else checkOverline White b) in
if more then Ok (Outcome true "5 or more in a row for white.")
else
  let* overline := checkOverline Black b in
  if overline then Ok (Outcome true "Black makes overline.")
  else
    let* four := justMade blackMakesDoubleFour g in
    if four then Ok (Outcome true "Black makes double four.")
    else
      let* three := justMade blackMakesDoubleThree g in
      if three then Ok (Outcome true "Black makes double three.")
      else Ok (Outcome false ("No winning moves for " +:+ toString White +:+ ".")).

Definition checkWin (pc : cell) (g : gameState) : result checkedEndingConditions :=
let b := board g in
let noWin := Outcome false ("No winning moves for " +:+ toString pc +:+ ".") in
match pc with
| Black =>
    let* five := checkIfFiveInARow Black b in
    if five then Ok (Outcome true "5 in a row for black.") else Ok noWin
| White => checkWinWhite g
| _ => Ok noWin
end.

Definition attemptPly (fuel : nat) (pc : cell) (r c : Z) (g : gameState)
: result attemptedMove :=
let* ok := isMoveValid fuel pc r c g in
if ok then
  (let moves' := moves g ++ [Move r c pc false false] in
   let* b := writeCell (board g) r c pc in
   Ok (Valid (GameState b moves'))) : result attemptedMove
else Ok Invalid.

(** [m.row === row && m.column === column] for [m = moves[i]], which may be
  [undefined]. *)
Definition isAt (m : option move) (r c : Z) : result bool :=
match m with
| None => Throw TypeError
| Some m => Ok ((row m =? r) && (column m =? c))
end.

Definition attemptRemove (r c : Z) (g : gameState) : result attemptedMove :=
let len := Z.of_nat (length (moves g)) in
let previousMove := arrayGet (moves g) (len - 1) in
let secondPreviousMove := arrayGet (moves g) (len - 2) in
if negb (movesMade g =? 6) then Ok Invalid
else
  let* first := isAt previousMove r c in
  let* hit := (if first then Ok true else isAt secondPreviousMove r c) in
  if negb hit then Ok Invalid
  else
    let moves' := moves g ++ [Move r c Black true true] in
    let* b := writeCell (board g) r c Removed in
    Ok (Valid (GameState b moves')).

Definition attemptPass (pc : cell) (g : gameState) : result attemptedMove :=
if movesMade g <? 3 then Ok Invalid
else if negb (checkNormalMove pc g) then Ok Invalid
else
  let moves' := moves g ++ [Move (-1) (-1) pc false true] in
  Ok (Valid (GameState (board g) moves')).

(** [R.all((row) => R.all((x) => x !== null, row), board)] *)
Definition isBoardFull (b : list (list cell)) : bool :=
forallb (forallb (fun x => strictNe x Null)) b.

(** What [checkDraw] returns: its last [return] gives an object that has no
  [reason]. *)
Record checkedDraw : Type := DrawOutcome {
drawn : bool;
drawReason : option string
}.

(** [m.row] for [m = moves[i]], which may be [undefined]. *)
Definition rowOf (m : option move) : result Z :=
match m with
| None => Throw TypeError
| Some m => Ok (row m)
end.

Definition checkDraw (g : gameState) : result checkedDraw :=
if movesMade g <? 3
then Ok (DrawOutcome false (Some "The game has not progressed far enough."))
else if isBoardFull (board g)
then Ok (DrawOutcome true (Some "The board is full."))
else
  let len := Z.of_nat (length (moves g)) in
  let* lastRow := rowOf (arrayGet (moves g) (len - 1)) in
  let* passes :=
    (if lastRow =? -1
     then (let* secondRow := rowOf (arrayGet (moves g) (len - 2)) in
           Ok (secondRow =? -1))
     else Ok false) in
  if passes then Ok (DrawOutcome true (Some "The last two moves were passes."))
  else Ok (DrawOutcome false None).

(** The string that [formattedMoves] pushes for the move with number
  [index]; numbers are written in decimal. *)
Definition formatMove (index : Z) (m : move) : string :=
if row m =? -1 then
  " " +:+ pretty index +:+ ": [" +:+
  toString (playerColour m) +:+ " passed" +:+
  "]"
else if removed m then
  " " +:+ pretty index +:+ ": [" +:+
  "White removed the black piece at " +:+
  pretty (row m) +:+
  ", " +:+
  pretty (column m) +:+
  "]"
else
  " " +:+ pretty index +:+ ": [" +:+
  toString (playerColour m) +:+
  " played at " +:+
  pretty (row m) +:+
  ", " +:+
  pretty (column m) +:+
  "]".

(** [moves.forEach] with [index += 1] at the head of the callback. *)
Definition formattedMoves (g : gameState) : list string :=
imap (fun index m => formatMove (Z.of_nat index + 1) m) (moves g).

End Renju.

Import Renju.

(** ** Positions, actions and games *)

(** A board of [w] rows that all have [h] cells, as [createBoard w h] makes
    it ([board.length = w], [board[0].length = h]). *)
Definition rectangular (w h : nat) (b : list (list cell)) : Prop :=
  length b = w /\ Forall (fun line => length line = h) b.

(** What a caller can ask of the engine. *)
Inductive action : Type :=
  | Ply (pc : cell) (r c : Z)
  | Remove (r c : Z)
  | Pass (pc : cell).

Definition perform (fuel : nat) (a : action) (g : gameState)
  : result attemptedMove :=
  match a with
  | Ply pc r c => attemptPly fuel pc r c g
  | Remove r c => attemptRemove r c g
  | Pass pc => attemptPass pc g
  end.

(** [reachable g0 acts g]: the engine accepted the actions [acts], in this
    order, starting from [g0], each accepted action handing over the
    position the next one is asked on; [g] is the last position. *)
Inductive reachable (g0 : gameState) : list action -> gameState -> Prop :=
  | reach_start : reachable g0 [] g0
  | reach_step (acts : list action) (g g' : gameState) (a : action) (fuel : nat) :
      reachable g0 acts g ->
      perform fuel a g = Ok (Valid g') ->
      reachable g0 (acts ++ [a]) g'.

Definition isPass (a : action) : bool :=
  match a with
  | Pass _ => true
  | _ => false
  end.

(** The effect of one logged move on a board: a pass (row [-1]) leaves it
    alone, a removal marks its cell, a placement writes its colour. *)
Definition applyMove (b : list (list cell)) (m : move)
  : result (list (list cell)) :=
  if row m =? -1 then Ok b
  else writeCell b (row m) (column m)
                 (if removed m then Removed else playerColour m).

(** The fold of a move log onto a board. *)
Fixpoint replay (log : list move) (b : list (list cell))
  : result (list (list cell)) :=
  match log with
  | [] => Ok b
  | m :: rest =>
      let* b' := applyMove b m in
      replay rest b'
  end.

(** Runs a list of actions, each of which has to be accepted. *)
Fixpoint playAll (fuel : nat) (acts : list action) (g : gameState)
  : result gameState :=
  match acts with
  | [] => Ok g
  | a :: rest =>
      let* outcome := perform fuel a g in
      match outcome with
      | Valid g' => playAll fuel rest g'
      | Invalid => Throw (Error "rejected")
      end
  end.

(** The cells of move 3 that the vertical opening admits for Black: the
    list of the specification, and the list the engine answers with. *)
Definition listedThird (r c : Z) : bool :=
  ((5 <=? r) && (r <=? 8) && ((c =? 8) || (c =? 9)))
  || ((c =? 7) && ((r =? 5) || (r =? 8) || (r =? 9))).

Definition legalThird (r c : Z) : bool :=
  ((5 <=? r) && (r <=? 9) && ((c =? 8) || (c =? 9)))
  || ((c =? 7) && ((r =? 5) || (r =? 8) || (r =? 9))).

(** All cells [(r, c)] with [0 <= r < w] and [0 <= c < h]. *)
Definition cellsOf (w h : Z) : list (Z * Z) :=
  flat_map (fun r => map (fun c => (r, c)) (range 0 h)) (range 0 w).

(** The answers of [isMoveValid] for both colours at one cell, compared
    with the expected answer for Black; White is expected to be refused. *)
Definition answersThird (fuel : nat) (g : gameState) (expected : Z -> Z -> bool)
    (cell : Z * Z) : bool :=
  let '(r, c) := cell in
  match isMoveValid fuel Black r c g, isMoveValid fuel White r c g with
  | Ok black, Ok false => Bool.eqb black (expected r c)
  | _, _ => false
  end.

(** The first three positions of a game on the standard board that opens
    with Black at (7,7) and White at (6,7). *)
Definition emptyGame : gameState :=
  GameState (replicate 15 (replicate 15 Null)) [].

Definition afterFirstMove : gameState :=
  GameState (<[7%nat := <[7%nat := Black]> (replicate 15 Null)]> (board emptyGame))
            [Move 7 7 Black false false].

Definition verticalOpening : gameState :=
  GameState (<[6%nat := <[7%nat := White]> (replicate 15 Null)]> (board afterFirstMove))
            [Move 7 7 Black false false; Move 6 7 White false false].

(** A game in which moves 4 to 6 are passes. *)
Definition passedOpening : list action :=
  [Ply Black 7 7; Ply White 6 7; Ply Black 8 7; Pass White; Pass Black; Pass Black].

(** The opening shared by the two games below: six moves, the removal of
    the sixth, after which White is to move. *)
Definition sharedOpening : list action :=
  [Ply Black 7 7; Ply White 6 7; Ply Black 8 7; Ply White 6 8;
   Ply Black 9 7; Ply Black 5 9; Remove 5 9].

(** Black completes a column and a row of four that meet at (10,7), White
    answers elsewhere and then passes. *)
Definition doubleFourThenPass : list action :=
  sharedOpening ++
  [Ply White 0 0; Ply Black 10 4; Ply White 0 2; Ply Black 10 5;
   Ply White 0 4; Ply Black 10 6; Ply White 0 6; Ply Black 10 7;
   Pass White].

(** The same game, except that White's answers complete five in row 6. *)
Definition fiveAndDoubleFourThenPass : list action :=
  sharedOpening ++
  [Ply White 6 9; Ply Black 10 4; Ply White 6 10; Ply Black 10 5;
   Ply White 6 11; Ply Black 10 6; Ply White 0 6; Ply Black 10 7;
   Pass White].

(** The position a list of actions leads to from the empty standard board
    (the empty position itself when one of them is refused or throws). *)
Definition gameOf (acts : list action) : gameState :=
  match playAll 4 acts emptyGame with
  | Ok g => g
  | _ => emptyGame
  end.

(** ** Runs of stones, stated on the board *)

(** The number of cells equal to [pc] at the head of a line, and the length
    of the longest unbroken run of [pc] anywhere in it. *)
Fixpoint leadingRun (pc : cell) (line : list cell) : nat :=
  match line with
  | [] => 0
  | v :: rest => if strictEq v pc then S (leadingRun pc rest) else 0
  end.

Fixpoint longestRun (pc : cell) (line : list cell) : nat :=
  match line with
  | [] => 0
  | _ :: rest => Nat.max (leadingRun pc line) (longestRun pc rest)
  end.

(** The content of the cell in row [r], column [c]; [None] off the board. *)
Definition cellAt (b : list (list cell)) (r c : Z) : option cell :=
  match arrayGet b r with
  | Some line => arrayGet line c
  | None => None
  end.

(** The four axes: along a row, along a column, and the two diagonals. *)
Definition axes : list (Z * Z) := [(0, 1); (1, 0); (1, 1); (1, -1)].

(** [n] stones of colour [pc] in an unbroken line: the cells
    [(r, c), (r, c) + d, ..., (r, c) + (n-1) d] all hold [pc]. *)
Definition runAt (b : list (list cell)) (pc : cell) (n : nat) (r c : Z)
    (d : Z * Z) : Prop :=
  forall t : nat, (t < n)%nat ->
    cellAt b (r + Z.of_nat t * d.1) (c + Z.of_nat t * d.2) = Some pc.

(** Some line of the board holds [n] stones of colour [pc] in a row. *)
Definition hasRun (b : list (list cell)) (pc : cell) (n : nat) : Prop :=
  exists (r c : Z) (d : Z * Z), d ∈ axes /\ runAt b pc n r c d.

(** The reading of "exactly five in an unbroken line": a run of five that
    cannot be extended at either end. *)
Definition exactlyFive (b : list (list cell)) (pc : cell) : Prop :=
  exists (r c : Z) (d : Z * Z),
    d ∈ axes /\ runAt b pc 5 r c d /\
    cellAt b (r - d.1) (c - d.2) <> Some pc /\
    cellAt b (r + 5 * d.1) (c + 5 * d.2) <> Some pc.

(** On some line of the board the longest run of [pc] has length [n]: the
    line holds [n] in a row, and nowhere on it [n + 1] in a row. *)
Definition longestOnSomeLine (b : list (list cell)) (pc : cell) (n : nat)
  : Prop :=
  exists (r c : Z) (d : Z * Z),
    d ∈ axes /\ runAt b pc n r c d /\
    forall s : Z, ~ runAt b pc (S n) (r + s * d.1) (c + s * d.2) d.

(** A straight walk over the board: [len] cells from [start] in steps of
    [step]. *)
Record segment : Type := Segment {
  start : Z * Z;
  step : Z * Z;
  len : nat
}.

Definition segmentCell (s : segment) (t : Z) : Z * Z :=
  ((start s).1 + t * (step s).1, (start s).2 + t * (step s).2).

Definition valueAt (b : list (list cell)) (x : Z * Z) : cell :=
  default Undefined (cellAt b x.1 x.2).

(** The cells a segment walks over. *)
Definition segmentLine (b : list (list cell)) (s : segment) : list cell :=
  map (fun t => valueAt b (segmentCell s (Z.of_nat t))) (seq 0 (len s)).

Definition inside (w h : nat) (x : Z * Z) : Prop :=
  0 <= x.1 < Z.of_nat w /\ 0 <= x.2 < Z.of_nat h.

(** The lines of a rectangular board as the scanner walks them: rows from
    left to right, columns from the bottom up, and the diagonals of
    [changeDiagonalToHorizontalUp] and [...Down], numbered by [k]. *)
Definition rowSegment (h i : nat) : segment :=
  Segment (Z.of_nat i, 0) (0, 1) h.

Definition columnSegment (w j : nat) : segment :=
  Segment (Z.of_nat w - 1, Z.of_nat j) (-1, 0) w.

Definition diagonalFirst (h k : nat) : nat := (k - (h - 1))%nat.

Definition diagonalLength (w h k : nat) : nat :=
  (Nat.min w (S k) - diagonalFirst h k)%nat.

Definition upSegment (w h k : nat) : segment :=
  let i := Z.of_nat (diagonalFirst h k) in
  Segment (i, Z.of_nat k - i) (1, -1) (diagonalLength w h k).

Definition downSegment (w h k : nat) : segment :=
  let i := Z.of_nat (diagonalFirst h k) in
  Segment (Z.of_nat w - 1 - i, Z.of_nat k - i) (-1, -1) (diagonalLength w h k).

(** The move list of [pushRows]: every element with the index of the line
    it is pushed to. *)
Fixpoint keyedRow {A : Type} (i j : nat) (line : list A) : list (nat * A) :=
  match line with
  | [] => []
  | element :: rest => ((j + i)%nat, element) :: keyedRow i (S j) rest
  end.

Fixpoint keyedRows {A : Type} (i : nat) (rows : list (list A))
  : list (nat * A) :=
  match rows with
  | [] => []
  | line :: rest => keyedRow i 0 line ++ keyedRows (S i) rest
  end.

Definition pushAll {A : Type} (kvs : list (nat * A))
    (res : list (option (list A))) : list (option (list A)) :=
  fold_left (fun res kv => pushAt kv.1 kv.2 res) kvs res.

(** Everything pushed to line [k], in the order of the pushes. *)
Definition pushedTo {A : Type} (k : nat) (kvs : list (nat * A)) : list A :=
  map snd (List.filter (fun kv => Nat.eqb kv.1 k) kvs).


(** A family of segments that cuts the [w] by [h] board into its lines of
    direction [d]: every segment runs along [d], one way or the other,
    lies on the board, cannot be extended at either end, and every cell of
    the board is on one of them. *)
Record lineFamily (w h : nat) (d : Z * Z) (fam : segment -> Prop) : Prop :=
  LineFamily {
    family_step : forall s, fam s -> step s = d \/ step s = (- d.1, - d.2);
    family_nonempty : forall s, fam s -> (0 < len s)%nat;
    family_inside : forall s t, fam s -> 0 <= t < Z.of_nat (len s) ->
                                inside w h (segmentCell s t);
    family_before : forall s, fam s -> ~ inside w h (segmentCell s (-1));
    family_after : forall s, fam s ->
                             ~ inside w h (segmentCell s (Z.of_nat (len s)));
    family_cover : forall x, inside w h x ->
                             exists s t, fam s /\ 0 <= t < Z.of_nat (len s)
                                         /\ segmentCell s t = x
  }.

Definition rowFamily (w h : nat) (s : segment) : Prop :=
  exists i : nat, (i < w)%nat /\ s = rowSegment h i.

Definition columnFamily (w h : nat) (s : segment) : Prop :=
  exists j : nat, (j < h)%nat /\ s = columnSegment w j.

Definition upFamily (w h : nat) (s : segment) : Prop :=
  exists k : nat, (k < w + h - 1)%nat /\ s = upSegment w h k.

Definition downFamily (w h : nat) (s : segment) : Prop :=
  exists k : nat, (k < w + h - 1)%nat /\ s = downSegment w h k.


(** The segments whose cells the scanner runs through, for a board of [w]
    rows and [h] columns. *)
Definition scannedLine (w h : nat) (s : segment) : Prop :=
  columnFamily w h s \/ rowFamily w h s \/ upFamily w h s \/ downFamily w h s.


(** A game in which Black fills row 12 from column 0 to column 4 and from
    column 6 to column 11: five in a row next to six in a row. *)
Definition fiveBesideSix : list action :=
  sharedOpening ++
  [Ply White 0 0; Ply Black 12 0; Ply White 0 2; Ply Black 12 1;
   Ply White 0 4; Ply Black 12 2; Ply White 0 6; Ply Black 12 3;
   Ply White 0 8; Ply Black 12 4; Ply White 0 10; Ply Black 12 6;
   Ply White 0 12; Ply Black 12 7; Ply White 0 14; Ply Black 12 8;
   Ply White 2 0; Ply Black 12 9; Ply White 2 2; Ply Black 12 10;
   Ply White 2 4; Ply Black 12 11].


(** ** The engine over an object store

    In this section arrays and objects live in a store and are handed around
    by reference, as in JavaScript: a position is an object that refers to
    its board (an array of references to rows) and to its move log (an array
    of references to move objects).  [R.clone] allocates a copy of
    everything it is given; an assignment and [push] change the object they
    are applied to, for every holder of a reference to it. *)
Module Store.

Abbreviation loc := positive.

Inductive object : Type :=
| Cells (values : list cell)
| Refs (items : list loc)
| Logged (m : move)
| Position (boardRef movesRef : loc).

Abbreviation store := (gmap positive object).

(** What an object is read as: an array of cell values, an array of
  references, a move, a position. *)
Definition asCells (o : object) : option (list cell) :=
match o with
| Cells values => Some values
| _ => None
end.

Definition asRefs (o : object) : option (list loc) :=
match o with
| Refs items => Some items
| _ => None
end.

Definition asLogged (o : object) : option move :=
match o with
| Logged m => Some m
| _ => None
end.

Definition asPosition (o : object) : option (loc * loc) :=
match o with
| Position boardRef movesRef => Some (boardRef, movesRef)
| _ => None
end.

(** A computation that reads and writes the store and may throw. *)
Definition M (A : Type) : Type := store -> result A * store.

Definition ret {A : Type} (a : A) : M A := fun σ => (Ok a, σ).

Definition lift {A : Type} (r : result A) : M A := fun σ => (r, σ).

Definition throw {A : Type} (e : error) : M A := fun σ => (Throw e, σ).

Definition bindM {A B : Type} (m : M A) (f : A -> M B) : M B :=
fun σ =>
  match m σ with
  | (Ok a, σ') => f a σ'
  | (Throw e, σ') => (Throw e, σ')
  | (OutOfFuel, σ') => (OutOfFuel, σ')
  end.

Notation "'do*' x := m 'in' k" := (bindM m (fun x => k))
(at level 10, x name, m at level 100, k at level 200).
Notation "'do*' ' p := m 'in' k" := (bindM m (fun x => match x with p => k end))
(at level 10, p pattern, m at level 100, k at level 200).

(** A new object, at a location the store does not use yet. *)
Definition alloc (o : object) : M loc :=
fun σ => let l := fresh (dom σ) in (Ok l, <[l := o]> σ).

(** Replaces the object at [l], for every holder of [l]. *)
Definition put (l : loc) (o : object) : M unit :=
fun σ => (Ok tt, <[l := o]> σ).

(** Reads through a reference; a reference that does not hold what the
  code reads there stands for a value without that property. *)
Definition get {A : Type} (as_ : object -> option A) (l : loc) : M A :=
fun σ =>
  match σ !! l ≫= as_ with
  | Some a => (Ok a, σ)
  | None => (Throw TypeError, σ)
  end.

Fixpoint traverse {A B : Type} (f : A -> M B) (xs : list A) : M (list B) :=
match xs with
| [] => ret []
| x :: rest =>
    do* y := f x in
    do* ys := traverse f rest in
    ret (y :: ys)
end.

(** [R.clone] of an array of objects: a new array of new objects. *)
Definition clone {A : Type} (as_ : object -> option A) (mk : A -> object)
  (array : loc) : M loc :=
do* items := get asRefs array in
do* items' := traverse (fun l => do* a := get as_ l in alloc (mk a)) items in
alloc (Refs items').

Definition cloneBoard : loc -> M loc := clone asCells Cells.

Definition cloneMoves : loc -> M loc := clone asLogged Logged.

(** The values behind an array of objects, for the functions of the engine
  that only read. *)
Definition load {A : Type} (as_ : object -> option A) (array : loc)
: M (list A) :=
do* items := get asRefs array in
traverse (get as_) items.

Definition loadBoard : loc -> M (list (list cell)) := load asCells.

Definition loadMoves : loc -> M (list move) := load asLogged.

(** [board[r][c] = v], changing the row object in place. *)
Definition writeCell (boardRef : loc) (r c : Z) (v : cell) : M unit :=
do* rows := get asRefs boardRef in
match arrayGet rows r with
| None => throw TypeError
| Some line =>
    do* values := get asCells line in
    put line (Cells (arraySet values c v))
end.

(** [moves.push(m)] for a new move object, changing the array in place. *)
Definition push (movesRef : loc) (m : move) : M unit :=
do* l := alloc (Logged m) in
do* items := get asRefs movesRef in
put movesRef (Refs (items ++ [l])).

Definition checkMoveThree (fuel : nat) (pc : cell) (r c : Z) (boardRef : loc)
: M bool :=
if strictEq pc White then ret false
else
  do* newBoard := cloneBoard boardRef in
  do* _ := writeCell newBoard r c pc in
  do* placed := loadBoard newBoard in
  lift (checkMoveThreePlaced fuel placed).

Definition isMoveValid (fuel : nat) (pc : cell) (r c : Z) (g : loc) : M bool :=
do* '(boardRef, movesRef) := get asPosition g in
do* b := loadBoard boardRef in
do* log := loadMoves movesRef in
do* target := lift (readCell b r c) in
if strictNe target Null && strictNe target Removed then ret false
else
  let nextMoveNumber := nextMoveNumber (GameState b log) in
  let columnMiddle := half (getBoardColumnNumber b) in
  do* rows := lift (getBoardRowNumber b) in
  let rowMiddle := half rows in
  match nextMoveNumber with
  | 1 => ret ((c =? columnMiddle) && (r =? rowMiddle) && strictEq pc Black)
  | 2 => ret (isNextTo rowMiddle columnMiddle r c && strictEq pc White)
  | 3 => checkMoveThree fuel pc r c boardRef
  | 4 => ret (strictEq pc White)
  | 5 => ret (strictEq pc Black)
  | 6 => ret (strictEq pc Black)
  | 7 => ret (checkMoveSeven pc r c b)
  | _ => ret (checkNormalMove pc (GameState b log))
  end.

(** [{gameState: g, valid: true}] and [{valid: false}]. *)
Inductive attempted : Type :=
| ValidAt (g : loc)
| InvalidAt.

Definition attemptPly (fuel : nat) (pc : cell) (r c : Z) (g : loc)
: M attempted :=
do* ok := isMoveValid fuel pc r c g in
if ok then
  do* '(boardRef, movesRef) := get asPosition g in
  do* board' := cloneBoard boardRef in
  do* moves' := cloneMoves movesRef in
  do* _ := push moves' (Move r c pc false false) in
  do* _ := writeCell board' r c pc in
  do* g' := alloc (Position board' moves') in
  ret (ValidAt g')
else ret InvalidAt.

Definition isAt (m : option loc) (r c : Z) : M bool :=
match m with
| None => throw TypeError
| Some l =>
    do* m := get asLogged l in
    ret ((row m =? r) && (column m =? c))
end.

Definition attemptRemove (r c : Z) (g : loc) : M attempted :=
do* '(boardRef, movesRef) := get asPosition g in
do* board' := cloneBoard boardRef in
do* moves' := cloneMoves movesRef in
do* items := get asRefs moves' in
let len := Z.of_nat (length items) in
let previousMove := arrayGet items (len - 1) in
let secondPreviousMove := arrayGet items (len - 2) in
do* log := get asRefs movesRef in
if negb (Z.of_nat (length log) =? 6) then ret InvalidAt
else
  do* first := isAt previousMove r c in
  do* hit := (if first then ret true else isAt secondPreviousMove r c) in
  if negb hit then ret InvalidAt
  else
    do* _ := push moves' (Move r c Black true true) in
    do* _ := writeCell board' r c Removed in
    do* g' := alloc (Position board' moves') in
    ret (ValidAt g').

Definition attemptPass (pc : cell) (g : loc) : M attempted :=
do* '(boardRef, movesRef) := get asPosition g in
do* log := loadMoves movesRef in
if movesMade (GameState [] log) <? 3 then ret InvalidAt
else if negb (checkNormalMove pc (GameState [] log)) then ret InvalidAt
else
  do* board' := cloneBoard boardRef in
  do* moves' := cloneMoves movesRef in
  do* _ := push moves' (Move (-1) (-1) pc false true) in
  do* g' := alloc (Position board' moves') in
  ret (ValidAt g').

Definition perform (fuel : nat) (a : action) (g : loc) : M attempted :=
match a with
| Ply pc r c => attemptPly fuel pc r c g
| Remove r c => attemptRemove r c g
| Pass pc => attemptPass pc g
end.

(** Allocates a position with the board and the log of [st], each row and
  each move an object of its own. *)
Definition hold (st : gameState) : M loc :=
do* rows := traverse (fun line => alloc (Cells line)) (board st) in
do* boardRef := alloc (Refs rows) in
do* items := traverse (fun m => alloc (Logged m)) (moves st) in
do* movesRef := alloc (Refs items) in
alloc (Position boardRef movesRef).

(** The store holds the array [items] at [array], and behind its items
  the values [xs]. *)
Definition arrayAt {A : Type} (as_ : object -> option A) (σ : store)
  (array : loc) (items : list loc) (xs : list A) : Prop :=
σ !! array = Some (Refs items) /\
Forall2 (fun l x => σ !! l ≫= as_ = Some x) items xs.

(** The values a reference stands for, if the store holds them there. *)
Definition decode {A : Type} (as_ : object -> option A) (σ : store)
  (array : loc) : option (list A) :=
items ← σ !! array ≫= asRefs;
mapM (fun l => σ !! l ≫= as_) items.

Definition decodeState (σ : store) (g : loc) : option gameState :=
'(boardRef, movesRef) ← σ !! g ≫= asPosition;
b ← decode asCells σ boardRef;
log ← decode asLogged σ movesRef;
Some (GameState b log).

(** Every object a position is made of: the position object, its two
  arrays, the rows and the move objects. *)
Definition parts (σ : store) (g : loc) : list loc :=
match σ !! g with
| Some (Position boardRef movesRef) =>
    g :: boardRef :: movesRef
      :: default [] (σ !! boardRef ≫= asRefs)
      ++ default [] (σ !! movesRef ≫= asRefs)
| _ => [g]
end.

(** Locations that the store does not use. *)
Definition unused (σ : store) (ls : list loc) : Prop :=
Forall (fun l => σ !! l = None) ls.

(** The store holds a position at [g]: its board [b] with rows [rows]
  at [boardRef], its log [log] with move objects [items] at [movesRef]. *)
Definition positionAt (σ : store) (g boardRef movesRef : loc)
  (rows items : list loc) (b : list (list cell)) (log : list move) : Prop :=
σ !! g = Some (Position boardRef movesRef) /\
arrayAt asCells σ boardRef rows b /\
arrayAt asLogged σ movesRef items log.

(** The copies an attempt works on: a board and a log that the store [σ]
  holds in objects which did not exist in [σ0], no two of them the same,
  while everything that existed in [σ0] is as it was. *)
Definition copied (σ0 σ : store) (boardRef movesRef : loc)
  (rows items : list loc) (b : list (list cell)) (log : list move) : Prop :=
σ0 ⊆ σ /\
arrayAt asCells σ boardRef rows b /\
arrayAt asLogged σ movesRef items log /\
NoDup ((boardRef :: rows) ++ (movesRef :: items)) /\
unused σ0 ((boardRef :: rows) ++ (movesRef :: items)).

(** What a call returned and the store it left, against the answer of the
  engine on values: the same error, the same refusal, or a reference to
  the position the engine on values answers with. *)
Definition agrees (on_values : result attemptedMove)
  (returned : result attempted) (σ' : store) : Prop :=
match on_values with
| Ok (Valid st') =>
    exists g', returned = Ok (ValidAt g') /\ decodeState σ' g' = Some st'
| Ok Invalid => returned = Ok InvalidAt
| Throw e => returned = Throw e
| OutOfFuel => returned = OutOfFuel
end.

(** [R.clone(gameState)]: a new position object that refers to a copy of
  the board and to a copy of the log. *)
Definition clonePosition (g : loc) : M loc :=
do* '(boardRef, movesRef) := get asPosition g in
do* board' := cloneBoard boardRef in
do* moves' := cloneMoves movesRef in
alloc (Position board' moves').

(** [moves.pop()]: takes the last reference off the array, in place, and
  returns it; [None] stands for the [undefined] of an empty array. *)
Definition pop (movesRef : loc) : M (option loc) :=
do* items := get asRefs movesRef in
match last items with
| None => ret None
| Some l =>
    do* _ := put movesRef (Refs (removelast items)) in
    ret (Some l)
end.

Definition removeLastMove (g : loc) : M loc :=
do* newGameState := clonePosition g in
do* '(boardRef, movesRef) := get asPosition newGameState in
do* lastMove := pop movesRef in
match lastMove with
| None => throw TypeError
| Some l =>
    do* m := get asLogged l in
    do* _ := writeCell boardRef (row m) (column m) Null in
    ret newGameState
end.

(** The board of a position, for the scanner, which only reads it. *)
Definition boardOf (g : loc) : M (list (list cell)) :=
do* '(boardRef, _) := get asPosition g in
loadBoard boardRef.

Definition justMade (shape : list (list cell) -> result bool) (g : loc)
: M bool :=
do* b := boardOf g in
do* present := lift (shape b) in
if present then
  do* retracted := removeLastMove g in
  do* b' := boardOf retracted in
  do* before := lift (shape b') in
  ret (negb before)
else ret false.

Definition checkWinWhite (g : loc) : M checkedEndingConditions :=
do* b := boardOf g in
do* five := lift (checkIfFiveInARow White b) in
do* more := lift (if five then Ok true else checkOverline White b) in
if more then ret (Outcome true "5 or more in a row for white.")
else
  do* overline := lift (checkOverline Black b) in
  if overline then ret (Outcome true "Black makes overline.")
  else
    do* four := justMade blackMakesDoubleFour g in
    if four then ret (Outcome true "Black makes double four.")
    else
      do* three := justMade blackMakesDoubleThree g in
      if three then ret (Outcome true "Black makes double three.")
      else ret (Outcome false ("No winning moves for " +:+ toString White +:+ ".")).

Definition checkWin (pc : cell) (g : loc) : M checkedEndingConditions :=
do* b := boardOf g in
let noWin := Outcome false ("No winning moves for " +:+ toString pc +:+ ".") in
match pc with
| Black =>
    do* five := lift (checkIfFiveInARow Black b) in
    if five then ret (Outcome true "5 in a row for black.") else ret noWin
| White => checkWinWhite g
| _ => ret noWin
end.

End Store.

(** The store after [Store.hold afterFirstMove] in an empty store: fifteen
    rows at 1 to 15, the board at 16, the first move at 17, the log at 18
    and the position at 19. *)
Definition heldOpening : gmap positive Store.object :=
  (Store.hold afterFirstMove ∅).2.


(** ** Actions and what they log *)

(** The cell an action names; a pass names none. *)
Definition target (a : action) : option (Z * Z) :=
  match a with
  | Ply _ r c | Remove r c => Some (r, c)
  | Pass _ => None
  end.

(** The move object that the accepted action pushes on the log. *)
Definition logged (a : action) : move :=
  match a with
  | Ply pc r c => Move r c pc false false
  | Remove r c => Move r c Black true true
  | Pass pc => Move (-1) (-1) pc false true
  end.

(** A placement of one of the two stones; removals and passes count too. *)
Definition twoColours (a : action) : Prop :=
  match a with
  | Ply pc _ _ => pc = Black \/ pc = White
  | _ => True
  end.

(** The line of the move list that describes an action, numbered [n]. *)
Definition describe (n : Z) (a : action) : string :=
  match a with
  | Ply pc r c =>
      " " +:+ pretty n +:+ ": [" +:+ toString pc +:+ " played at "
      +:+ pretty r +:+ ", " +:+ pretty c +:+ "]"
  | Remove r c =>
      " " +:+ pretty n +:+ ": [White removed the black piece at "
      +:+ pretty r +:+ ", " +:+ pretty c +:+ "]"
  | Pass pc =>
      " " +:+ pretty n +:+ ": [" +:+ toString pc +:+ " passed]"
  end.

(** The cell that the action names, if it names one, is one of the board of
    [w] rows and [h] columns. *)
Definition onBoard (w h : Z) (a : action) : Prop :=
  match target a with
  | Some (r, c) => 0 <= r < w /\ 0 <= c < h
  | None => True
  end.

(** The last two actions of a game are passes. *)
Definition endsWithTwoPasses (acts : list action) : bool :=
  match rev acts with
  | Pass _ :: Pass _ :: _ => true
  | _ => false
  end.


(** One of the eight cells around [(m, m)] holds [v]. *)
Definition besideCentre (m : Z) (b : list (list cell)) (v : cell) : Prop :=
  exists dr dc : Z,
    -1 <= dr <= 1 /\ -1 <= dc <= 1 /\ (dr, dc) <> (0, 0) /\
    cellAt b (m + dr) (m + dc) = Some v.

(** ** The third move on the standard board *)

(** Where a quarter turn of the 15 by 15 board takes a cell. *)
Definition turn (x : Z * Z) : Z * Z := (x.2, 14 - x.1).

(** The quarter turns after which White's reply at [(7 + dr, 7 + dc)] lies
    above the centre (a reply in the centre's row or column) or above and
    to the right of it (a reply on a diagonal). *)
Definition turnsFor (dr dc : Z) : nat :=
  match dr, dc with
  | -1, -1 | 0, -1 => 1
  | 1, -1 | 1, 0 => 2
  | 1, 1 | 0, 1 => 3
  | _, _ => 0
  end.

(** With White above the centre: rows 5 to 9 of columns 7 to 9. *)
Definition stripZone (x : Z * Z) : bool :=
  (5 <=? x.1) && (x.1 <=? 9) && (7 <=? x.2) && (x.2 <=? 9).

(** With White above and to the right of the centre: the square of rows
    and columns 7 to 9, the cells (6,8), (6,9), (8,6) and (9,6), and the two
    corners (9,5) and (5,9). *)
Definition cornerZone (x : Z * Z) : bool :=
  ((7 <=? x.1) && (x.1 <=? 9) && (7 <=? x.2) && (x.2 <=? 9))
  || ((x.1 =? 6) && ((x.2 =? 8) || (x.2 =? 9)))
  || (((x.1 =? 8) || (x.1 =? 9)) && (x.2 =? 6))
  || ((x.1 =? 9) && (x.2 =? 5))
  || ((x.1 =? 5) && (x.2 =? 9)).

(** The free cells that the zone of White's reply at [(r2, c2)] holds. *)
Definition legalThirdAfter (r2 c2 r c : Z) : bool :=
  let x := Nat.iter (turnsFor (r2 - 7) (c2 - 7)) turn (r, c) in
  negb ((r =? 7) && (c =? 7)) && negb ((r =? r2) && (c =? c2))
  && (if (r2 =? 7) || (c2 =? 7) then stripZone x else cornerZone x).

(** ** The lines of the board in the order of the scanner *)

(** The columns, the rows and the diagonals of a board of [w] rows and [h]
    columns, in the order in which [totalNumberOfTouchingPieces] goes
    through them. *)
Definition scannedSegments (w h : nat) : list segment :=
  map (columnSegment w) (seq 0 h)
  ++ map (rowSegment h) (seq 0 w)
  ++ map (upSegment w h) (seq 0 (w + h - 1))
  ++ map (downSegment w h) (seq 0 (w + h - 1)).

(** ** Double threes and double fours, stated on the board *)

(** What the segment [s] of the window of [2 * number + 1] rows and columns
    around [(r, c)] walks over; a cell off the board reads [null]. *)
Definition windowLine (b : list (list cell)) (r c : Z) (number : nat)
    (s : segment) : list cell :=
  map (fun t =>
         let x := segmentCell s (Z.of_nat t) in
         default Null (cellAt b (r - Z.of_nat number + x.1)
                                (c - Z.of_nat number + x.2)))
      (seq 0 (len s)).

(** The lines of the window around [(r, c)] on which the longest unbroken
    run of black stones inside the window has length [size]. *)
Definition linesWithRun (number size : nat) (b : list (list cell)) (r c : Z)
  : list segment :=
  filter (fun s => longestRun Black (windowLine b r c number s) = size)
         (scannedSegments (2 * number + 1) (2 * number + 1)).

(** A black stone at [(r, c)] with at least two such lines around it. *)
Definition doubleAt (number size : nat) (b : list (list cell)) (r c : Z)
  : Prop :=
  cellAt b r c = Some Black /\
  (2 <= length (linesWithRun number size b r c))%nat.


(** The six placements of the shared opening, before the removal. *)
Definition sixPlacements : list action :=
  [Ply Black 7 7; Ply White 6 7; Ply Black 8 7; Ply White 6 8;
   Ply Black 9 7; Ply Black 5 9].

(** Exactly six moves are logged and [(r, c)] is the location of the fifth
    or of the sixth of them. *)
Definition removable (r c : Z) (g : gameState) : Prop :=
  movesMade g = 6 /\
  exists m, (arrayGet (moves g) 4 = Some m \/ arrayGet (moves g) 5 = Some m)
            /\ row m = r /\ column m = c.


(** * Properties *)

(** ** Basic facts about the array model *)

Lemma strictEq_eq (a b : cell) : strictEq a b = true <-> a = b.
Proof. destruct a, b; simpl; split; intros H; congruence. Qed.

Lemma strictEq_refl (a : cell) : strictEq a a = true.
Proof. now destruct a. Qed.

Lemma arrayGet_Some {A : Type} (a : list A) (i : Z) (x : A) :
  arrayGet a i = Some x <-> 0 <= i /\ a !! Z.to_nat i = Some x.
Proof.
  unfold arrayGet. destruct (Z.leb_spec 0 i); split.
  - auto.
  - now intros [_ H'].
  - discriminate.
  - intros [H' _]. lia.
Qed.

Lemma arrayGet_None {A : Type} (a : list A) (i : Z) :
  arrayGet a i = None <-> i < 0 \/ Z.of_nat (length a) <= i.
Proof.
  unfold arrayGet. destruct (Z.leb_spec 0 i).
  - rewrite lookup_ge_None. lia.
  - split; auto.
Qed.

Lemma arrayGet_in_range {A : Type} (a : list A) (i : Z) :
  0 <= i < Z.of_nat (length a) -> exists x, arrayGet a i = Some x.
Proof.
  intros H. destruct (arrayGet a i) eqn:E; eauto.
  apply arrayGet_None in E. lia.
Qed.

(** ** The colour to move (C4) *)

(** C4.  The colour to move is a function of the number of logged moves
    [n]: outside the window [5..6] (that is for [n <= 4] or [n >= 7]) it is
    Black for even [n] and White for odd [n]; inside the window it is White
    for even [n] and Black for odd [n].  So Black moves after five moves
    (the second forced Black move) and White after six. *)
Theorem colourToMove_schedule (g : gameState) :
  let n := movesMade g in
  ((n <= 4 \/ 7 <= n) /\ Z.even n = true -> colourToMove g = Black) /\
  ((n <= 4 \/ 7 <= n) /\ Z.odd n = true -> colourToMove g = White) /\
  (5 <= n <= 6 /\ Z.even n = true -> colourToMove g = White) /\
  (5 <= n <= 6 /\ Z.odd n = true -> colourToMove g = Black) /\
  (n = 5 -> colourToMove g = Black) /\
  (n = 6 -> colourToMove g = White).
Proof.
  intros n. unfold colourToMove. fold n.
  assert (Hmod : (n mod 2 =? 0) = Z.even n).
  { rewrite Zmod_even. now destruct (Z.even n). }
  rewrite Hmod, <- Z.negb_even.
  repeat split.
  - intros [[H | H] E]; rewrite E.
    + now replace (n <=? 4) with true by lia.
    + replace (7 <=? n) with true by lia. now rewrite orb_true_r.
  - intros [[H | H] E]; apply negb_true_iff in E; rewrite E.
    + now replace (n <=? 4) with true by lia.
    + replace (7 <=? n) with true by lia. now rewrite orb_true_r.
  - intros [H E]. rewrite E.
    replace (n <=? 4) with false by lia. now replace (7 <=? n) with false by lia.
  - intros [H E]. apply negb_true_iff in E. rewrite E.
    replace (n <=? 4) with false by lia. now replace (7 <=? n) with false by lia.
  - intros ->. reflexivity.
  - intros ->. reflexivity.
Qed.

(** ** Construction (C8) *)

Lemma defaulted_twice (input : cell) :
  defaulted (defaulted input) = defaulted input.
Proof. now destruct input. Qed.

Lemma rem_even (x : Z) : 0 < x -> (Z.rem x 2 =? 0) = Z.even x.
Proof.
  intros Hx. rewrite Z.rem_mod_nonneg by lia. rewrite Zmod_even.
  now destruct (Z.even x).
Qed.

Lemma initiateGame_Ok (w h : Z) (input : cell) (g0 : gameState) :
  initiateGame w h input = Ok g0 ->
  0 <= w /\ 0 <= h /\
  g0 = GameState (replicate (Z.to_nat w) (replicate (Z.to_nat h) (defaulted input))) [].
Proof.
  unfold initiateGame, createBoard. rewrite defaulted_twice.
  destruct (_ || _); [discriminate |].
  destruct (arrayLength w) eqn:Ew; [| discriminate].
  destruct (arrayLength h) eqn:Eh; [| discriminate].
  simpl. intros [= <-]. unfold arrayLength in Ew, Eh.
  repeat split; lia.
Qed.

(** C8 (amended).  For positive dimensions, [initiateGame w h] raises the
    construction error exactly when [w] or [h] is even.  When both are odd
    and below 2^32, it returns the position whose board has [w] rows of [h]
    cells, every cell holding the initial value ([null] when the caller
    passes none, or passes [undefined]), and whose move list is empty.
    When both are odd and one of them is 2^32 or more, [new Array] refuses
    the length and the call ends with a RangeError. *)
Theorem initiateGame_odd_dimensions (w h : Z) (input : cell) :
  0 < w -> 0 < h ->
  (initiateGame w h input = Throw (Error "Board dimensions must be odd numbers")
   <-> Z.even w = true \/ Z.even h = true) /\
  (Z.odd w = true -> Z.odd h = true -> w < 2 ^ 32 -> h < 2 ^ 32 ->
   initiateGame w h input
   = Ok (GameState (replicate (Z.to_nat w)
                      (replicate (Z.to_nat h) (defaulted input))) [])) /\
  (Z.odd w = true -> Z.odd h = true -> 2 ^ 32 <= w \/ 2 ^ 32 <= h ->
   initiateGame w h input = Throw RangeError).
Proof.
  intros Hw Hh. unfold initiateGame, createBoard. rewrite defaulted_twice.
  rewrite !rem_even by assumption.
  rewrite <- (Z.negb_even w), <- (Z.negb_even h). unfold arrayLength.
  destruct (Z.even w), (Z.even h); cbn [orb negb bind];
    try (split; [split; [auto | reflexivity] | split; discriminate]).
  split; [| split].
  - split; [| intros [H | H]; discriminate].
    destruct ((0 <=? w) && (w <? 2 ^ 32)); [| discriminate].
    destruct ((0 <=? h) && (h <? 2 ^ 32)); discriminate.
  - intros _ _ Hw' Hh'.
    replace ((0 <=? w) && (w <? 2 ^ 32)) with true by lia.
    replace ((0 <=? h) && (h <? 2 ^ 32)) with true by lia. reflexivity.
  - intros _ _ Hbig.
    destruct ((0 <=? w) && (w <? 2 ^ 32)) eqn:Ew; [| reflexivity].
    replace ((0 <=? h) && (h <? 2 ^ 32)) with false by lia. reflexivity.
Qed.

Lemma initiateGame_odd_dimensions_witness :
  initiateGame 15 15 Undefined
  = Ok (GameState (replicate 15 (replicate 15 Null)) []).
Proof.
  apply (initiateGame_odd_dimensions 15 15 Undefined);
    [lia | lia | reflexivity | reflexivity | lia | lia].
Defined.

(** C8 as it was stated, for all positive dimensions, does not hold: the
    dimensions 2^32 + 1 and 1 are odd, and the call does not return a
    position but fails, with the RangeError of [new Array]. *)
Theorem initiateGame_large_odd_dimensions :
  initiateGame (2 ^ 32 + 1) 1 Null = Throw RangeError /\
  ~ (forall w h : Z, 0 < w -> 0 < h ->
       (initiateGame w h Null = Throw (Error "Board dimensions must be odd numbers")
        <-> Z.even w = true \/ Z.even h = true) /\
       (Z.odd w = true -> Z.odd h = true ->
        initiateGame w h Null
        = Ok (GameState (replicate (Z.to_nat w) (replicate (Z.to_nat h) Null)) []))).
Proof.
  assert (Hthrows : initiateGame (2 ^ 32 + 1) 1 Null = Throw RangeError)
    by reflexivity.
  split; [exact Hthrows |].
  intros H. destruct (H (2 ^ 32 + 1) 1 ltac:(lia) ltac:(lia)) as [_ Hreturns].
  rewrite Hthrows in Hreturns.
  discriminate (Hreturns eq_refl eq_refl).
Qed.

(** ** Indices outside the board (C9) *)

Lemma readCell_row_outside (b : list (list cell)) (r c : Z) :
  r < 0 \/ Z.of_nat (length b) <= r -> readCell b r c = Throw TypeError.
Proof.
  intros H. unfold readCell.
  now replace (arrayGet b r) with (@None (list cell))
    by (symmetry; now apply arrayGet_None).
Qed.

Lemma readCell_column_outside (w h : nat) (b : list (list cell)) (r c : Z) :
  rectangular w h b ->
  0 <= r < Z.of_nat w ->
  c < 0 \/ Z.of_nat h <= c ->
  readCell b r c = Ok Undefined.
Proof.
  intros [Hlen Hrows] Hr Hc. unfold readCell.
  destruct (arrayGet_in_range b r) as [line Hline]; [lia |].
  rewrite Hline. apply arrayGet_Some in Hline as [_ Hline].
  rewrite Forall_lookup in Hrows. apply Hrows in Hline.
  replace (arrayGet line c) with (@None cell); [reflexivity |].
  symmetry. apply arrayGet_None. lia.
Qed.

(** C9.  On a board of [w] rows and [h] columns, a row index outside
    [0 .. w-1] makes [isMoveValid], and with it [attemptPly], throw a
    TypeError; a row index inside that range together with a column index
    outside [0 .. h-1] makes [isMoveValid] answer [false] and [attemptPly]
    answer [{valid: false}]. *)
Theorem isMoveValid_outside_board (fuel : nat) (pc : cell) (r c : Z)
    (g : gameState) (w h : nat) :
  rectangular w h (board g) ->
  (r < 0 \/ Z.of_nat w <= r ->
   isMoveValid fuel pc r c g = Throw TypeError /\
   attemptPly fuel pc r c g = Throw TypeError) /\
  (0 <= r < Z.of_nat w -> c < 0 \/ Z.of_nat h <= c ->
   isMoveValid fuel pc r c g = Ok false /\
   attemptPly fuel pc r c g = Ok Invalid).
Proof.
  intros Hrect. split.
  - intros Hr. assert (E : isMoveValid fuel pc r c g = Throw TypeError).
    { unfold isMoveValid. rewrite readCell_row_outside; [reflexivity |].
      destruct Hrect as [-> _]. exact Hr. }
    split; [exact E |]. unfold attemptPly. now rewrite E.
  - intros Hr Hc. assert (E : isMoveValid fuel pc r c g = Ok false).
    { unfold isMoveValid.
      now rewrite (readCell_column_outside w h) by assumption. }
    split; [exact E |]. unfold attemptPly. now rewrite E.
Qed.

Lemma isMoveValid_outside_board_witness :
  (isMoveValid 4 Black 15 0 (GameState (replicate 15 (replicate 15 Null)) [])
   = Throw TypeError /\
   attemptPly 4 Black 15 0 (GameState (replicate 15 (replicate 15 Null)) [])
   = Throw TypeError) /\
  (isMoveValid 4 Black 7 (-1) (GameState (replicate 15 (replicate 15 Null)) [])
   = Ok false /\
   attemptPly 4 Black 7 (-1) (GameState (replicate 15 (replicate 15 Null)) [])
   = Ok Invalid).
Proof.
  assert (Hrect : rectangular 15 15 (replicate 15 (replicate 15 Null))).
  { split; [reflexivity |]. repeat constructor. }
  split.
  - apply (isMoveValid_outside_board 4 Black 15 0
             (GameState (replicate 15 (replicate 15 Null)) []) 15 15 Hrect).
    right. simpl. lia.
  - apply (isMoveValid_outside_board 4 Black 7 (-1)
             (GameState (replicate 15 (replicate 15 Null)) []) 15 15 Hrect).
    + simpl. lia.
    + left. lia.
Defined.

(** ** The third move of the vertical opening (C3) *)

Lemma range_spec (from to x : Z) : In x (range from to) <-> from <= x < to.
Proof.
  unfold range. rewrite in_map_iff. split.
  - intros (k & <- & Hk). apply in_seq in Hk. lia.
  - intros H. exists (Z.to_nat (x - from)). split; [lia |].
    apply in_seq. lia.
Qed.

Lemma cellsOf_spec (w h r c : Z) :
  In (r, c) (cellsOf w h) <-> 0 <= r < w /\ 0 <= c < h.
Proof.
  unfold cellsOf. rewrite in_flat_map. split.
  - intros (r' & Hr & Hc). apply in_map_iff in Hc as (c' & E & Hc).
    injection E as -> ->. apply range_spec in Hr, Hc. lia.
  - intros [Hr Hc]. exists r. split; [now apply range_spec |].
    apply in_map_iff. exists c. split; [reflexivity | now apply range_spec].
Qed.

Lemma answersThird_all (fuel : nat) (g0 g1 g2 : gameState) :
  initiateGame 15 15 Null = Ok g0 ->
  attemptPly fuel Black 7 7 g0 = Ok (Valid g1) ->
  attemptPly fuel White 6 7 g1 = Ok (Valid g2) ->
  forallb (answersThird fuel g2 legalThird) (cellsOf 15 15) = true.
Proof.
  intros H0 H1 H2.
  vm_compute in H0. injection H0 as <-.
  vm_compute in H1. injection H1 as <-.
  vm_compute in H2. injection H2 as <-.
  destruct fuel; vm_compute; reflexivity.
Qed.

(** C3 (amended).  On the 15 by 15 board, after Black's move 1 at (7,7) and
    White's move 2 at (6,7), [isMoveValid] answers [true] for Black exactly
    at rows 5 to 9 of columns 8 and 9 and at rows 5, 8 and 9 of column 7,
    and answers [false] for White at every cell. *)
Theorem third_move_vertical_opening (fuel : nat) (g0 g1 g2 : gameState) :
  initiateGame 15 15 Null = Ok g0 ->
  attemptPly fuel Black 7 7 g0 = Ok (Valid g1) ->
  attemptPly fuel White 6 7 g1 = Ok (Valid g2) ->
  forall r c : Z, 0 <= r < 15 -> 0 <= c < 15 ->
    isMoveValid fuel Black r c g2 = Ok (legalThird r c) /\
    isMoveValid fuel White r c g2 = Ok false.
Proof.
  intros H0 H1 H2 r c Hr Hc.
  pose proof (answersThird_all fuel g0 g1 g2 H0 H1 H2) as Hall.
  rewrite forallb_forall in Hall.
  specialize (Hall (r, c)). unfold answersThird in Hall.
  destruct (isMoveValid fuel Black r c g2) as [black | |];
    destruct (isMoveValid fuel White r c g2) as [[|] | |];
    try (discriminate Hall; apply cellsOf_spec; lia).
  rewrite (eqb_prop black (legalThird r c)); [split; reflexivity |].
  apply Hall, cellsOf_spec. lia.
Qed.

Lemma third_move_vertical_opening_witness :
  isMoveValid 4 Black 9 8 verticalOpening = Ok (legalThird 9 8) /\
  isMoveValid 4 White 9 8 verticalOpening = Ok false.
Proof.
  apply (third_move_vertical_opening 4 emptyGame afterFirstMove verticalOpening);
    [reflexivity | reflexivity | reflexivity | lia | lia].
Defined.

(** C3 as listed (rows 5 to 8 only in columns 8 and 9) fails: the engine
    also accepts Black at (9,8), which the list leaves out. *)
Lemma third_move_listed_cells_refuted :
  ~ (forall (fuel : nat) (g0 g1 g2 : gameState),
       initiateGame 15 15 Null = Ok g0 ->
       attemptPly fuel Black 7 7 g0 = Ok (Valid g1) ->
       attemptPly fuel White 6 7 g1 = Ok (Valid g2) ->
       forall r c : Z, 0 <= r < 15 -> 0 <= c < 15 ->
         isMoveValid fuel Black r c g2 = Ok (listedThird r c) /\
         isMoveValid fuel White r c g2 = Ok false).
Proof.
  intros H.
  destruct (H 4%nat emptyGame afterFirstMove verticalOpening
              eq_refl eq_refl eq_refl 9 8 ltac:(lia) ltac:(lia)) as [Hblack _].
  vm_compute in Hblack. discriminate Hblack.
Qed.

(** ** Removal *)

Lemma writeCell_row_outside (b : list (list cell)) (r c : Z) (v : cell) :
  r < 0 \/ Z.of_nat (length b) <= r -> writeCell b r c v = Throw TypeError.
Proof.
  intros H. unfold writeCell.
  now replace (arrayGet b r) with (@None (list cell))
    by (symmetry; now apply arrayGet_None).
Qed.

Lemma writeCell_Ok (b b' : list (list cell)) (r c : Z) (v : cell) :
  writeCell b r c v = Ok b' ->
  0 <= r < Z.of_nat (length b) /\
  exists line, b !! Z.to_nat r = Some line /\
               b' = <[Z.to_nat r := arraySet line c v]> b.
Proof.
  unfold writeCell. destruct (arrayGet b r) as [line |] eqn:E; [| discriminate].
  intros [= <-]. apply arrayGet_Some in E as [Hr E].
  split; [| eauto]. apply lookup_lt_Some in E. lia.
Qed.

(** On a target inside the rows of the board, [attemptRemove] succeeds
    exactly when six moves are logged and the target is the cell of the
    fifth or of the sixth, and then it marks the cell and appends the
    removal. *)
Lemma attemptRemove_inside_board (r c : Z) (g : gameState) :
  0 <= r < Z.of_nat (length (board g)) ->
  (forall g', attemptRemove r c g = Ok (Valid g') <->
     movesMade g = 6 /\
     (exists m, (arrayGet (moves g) 4 = Some m \/ arrayGet (moves g) 5 = Some m)
                /\ row m = r /\ column m = c) /\
     writeCell (board g) r c Removed = Ok (board g') /\
     moves g' = moves g ++ [Move r c Black true true]) /\
  (attemptRemove r c g = Ok Invalid <->
     ~ (movesMade g = 6 /\
        exists m, (arrayGet (moves g) 4 = Some m \/ arrayGet (moves g) 5 = Some m)
                  /\ row m = r /\ column m = c)).
Proof.
  intros Hr.
  destruct (arrayGet_in_range (board g) r Hr) as [line Hline].
  assert (Hw : writeCell (board g) r c Removed
               = Ok (<[Z.to_nat r := arraySet line c Removed]> (board g))).
  { unfold writeCell. now rewrite Hline. }
  unfold attemptRemove. fold (movesMade g).
  destruct (Z.eqb_spec (movesMade g) 6) as [E6 | N6]; simpl.
  2: { split; [| split; [tauto | reflexivity]].
       intros g'. split; [discriminate | tauto]. }
  rewrite E6. change (6 - 1) with 5. change (6 - 2) with 4.
  destruct (arrayGet_in_range (moves g) 5) as [m6 H6]; [unfold movesMade in E6; lia |].
  destruct (arrayGet_in_range (moves g) 4) as [m5 H5]; [unfold movesMade in E6; lia |].
  rewrite H6, H5. simpl. rewrite Hw.
  destruct ((row m6 =? r) && (column m6 =? c)) eqn:A6; simpl.
  - apply andb_true_iff in A6 as [A B]. apply Z.eqb_eq in A, B.
    split.
    + intros g'. split.
      * intros [= <-]. simpl. repeat split; eauto 10.
      * intros (_ & _ & Hb & Hm). destruct g' as [b' ms']. simpl in *.
        congruence.
    + split; [discriminate |]. intros H. exfalso. apply H. eauto 10.
  - destruct ((row m5 =? r) && (column m5 =? c)) eqn:A5; simpl.
    + apply andb_true_iff in A5 as [A B]. apply Z.eqb_eq in A, B.
      split.
      * intros g'. split.
        -- intros [= <-]. simpl. repeat split; eauto 10.
        -- intros (_ & _ & Hb & Hm). destruct g' as [b' ms']. simpl in *.
           congruence.
      * split; [discriminate |]. intros H. exfalso. apply H. eauto 10.
    + assert (Hno : ~ exists m, (arrayGet (moves g) 4 = Some m
                                 \/ arrayGet (moves g) 5 = Some m)
                                /\ row m = r /\ column m = c).
      { intros (m & [Hm | Hm] & <- & <-).
        - rewrite H5 in Hm. injection Hm as <-.
          now rewrite !Z.eqb_refl in A5.
        - rewrite H6 in Hm. injection Hm as <-.
          now rewrite !Z.eqb_refl in A6. }
      split.
      * intros g'. split; [discriminate |]. intros (_ & H & _).
        exfalso. apply Hno. rewrite H5, H6. exact H.
      * split; [| reflexivity]. intros _ [_ H].
        apply Hno. rewrite H5, H6. exact H.
Qed.

(** Off the board.  The location [(-1, -1)] that a pass is logged with is
    no cell.  With six moves logged, the fifth or sixth of which is a pass,
    [attemptRemove] called on that location neither accepts nor rejects:
    the assignment [board[-1][-1] = "removed"] throws a TypeError, as every
    access to a row outside the board does. *)
Lemma attemptRemove_pass_target_throws (g : gameState) (m : move) :
  movesMade g = 6 ->
  arrayGet (moves g) 4 = Some m \/ arrayGet (moves g) 5 = Some m ->
  row m = -1 -> column m = -1 ->
  attemptRemove (-1) (-1) g = Throw TypeError.
Proof.
  intros E6 Hm Hrow Hcol. unfold attemptRemove. fold (movesMade g).
  rewrite E6. simpl.
  destruct (arrayGet_in_range (moves g) 5) as [m6 H6]; [unfold movesMade in E6; lia |].
  destruct (arrayGet_in_range (moves g) 4) as [m5 H5]; [unfold movesMade in E6; lia |].
  change (6 - 1) with 5. change (6 - 2) with 4.
  rewrite H6, H5. unfold isAt, bind.
  assert (Hhit : (if (row m6 =? -1) && (column m6 =? -1) then Ok true
                  else Ok ((row m5 =? -1) && (column m5 =? -1))) = Ok true).
  { destruct Hm as [Hm | Hm].
    - rewrite H5 in Hm. injection Hm as ->. rewrite Hrow, Hcol. simpl.
      now destruct ((row m6 =? -1) && (column m6 =? -1)).
    - rewrite H6 in Hm. injection Hm as ->. now rewrite Hrow, Hcol. }
  destruct ((row m6 =? -1) && (column m6 =? -1)).
  - reflexivity.
  - injection Hhit as ->. reflexivity.
Qed.

Lemma attemptRemove_pass_target_throws_witness :
  exists g : gameState,
    playAll 4 passedOpening emptyGame = Ok g /\
    attemptRemove (-1) (-1) g = Throw TypeError.
Proof.
  destruct (playAll 4 passedOpening emptyGame) as [g | |] eqn:E;
    [| discriminate E | discriminate E].
  exists g. split; [reflexivity |].
  vm_compute in E. injection E as <-.
  apply (attemptRemove_pass_target_throws _ (Move (-1) (-1) Black false true));
    [reflexivity | right; reflexivity | reflexivity | reflexivity].
Defined.

(** ** The log and the board of a reachable position (C6) *)

Lemma replay_snoc (log : list move) (m : move) (b : list (list cell)) :
  replay (log ++ [m]) b = let* b' := replay log b in applyMove b' m.
Proof.
  revert b. induction log as [| m0 log IH]; intros b; simpl.
  - now destruct (applyMove b m).
  - destruct (applyMove b m0) as [b' | |]; simpl; [apply IH | reflexivity ..].
Qed.

Lemma applyMove_written (b b' : list (list cell)) (r c : Z) (pc : cell)
    (rm fl : bool) :
  writeCell b r c (if rm then Removed else pc) = Ok b' ->
  applyMove b (Move r c pc rm fl) = Ok b'.
Proof.
  intros Hw. unfold applyMove. simpl.
  apply writeCell_Ok in Hw as Hr. destruct Hr as [Hr _].
  replace (r =? -1) with false by lia. exact Hw.
Qed.

(** One accepted action appends one move to the log, and the board it hands
    over is the old board with that move applied. *)
Lemma perform_accepted (fuel : nat) (a : action) (g g' : gameState) :
  perform fuel a g = Ok (Valid g') ->
  exists m, moves g' = moves g ++ [m] /\ applyMove (board g) m = Ok (board g').
Proof.
  destruct a as [pc r c | r c | pc]; simpl.
  - unfold attemptPly.
    destruct (isMoveValid fuel pc r c g) as [[|] | |]; simpl; try discriminate.
    destruct (writeCell (board g) r c pc) as [b | |] eqn:Hw; simpl;
      try discriminate.
    intros [= <-]. exists (Move r c pc false false). split; [reflexivity |].
    now apply applyMove_written.
  - unfold attemptRemove.
    destruct (negb (movesMade g =? 6)); [discriminate |].
    destruct (isAt _ r c) as [first | |]; simpl; try discriminate.
    destruct (if first then Ok true else isAt _ r c) as [[|] | |]; simpl;
      try discriminate.
    destruct (writeCell (board g) r c Removed) as [b | |] eqn:Hw; simpl;
      try discriminate.
    intros [= <-]. exists (Move r c Black true true). split; [reflexivity |].
    now apply applyMove_written.
  - unfold attemptPass.
    destruct (movesMade g <? 3); [discriminate |].
    destruct (negb (checkNormalMove pc g)); [discriminate |].
    intros [= <-]. exists (Move (-1) (-1) pc false true). split; reflexivity.
Qed.

Lemma reachable_invariant (g0 g : gameState) (acts : list action) :
  reachable g0 acts g ->
  length (moves g) = (length (moves g0) + length acts)%nat /\
  exists log, moves g = moves g0 ++ log /\ replay log (board g0) = Ok (board g).
Proof.
  induction 1 as [| acts g g' a fuel Hreach [IHlen (log & IHlog & IHrep)] Hstep].
  - split; [simpl; lia |]. exists []. split; [now rewrite app_nil_r | reflexivity].
  - apply perform_accepted in Hstep as (m & Hm & Happ).
    split.
    + rewrite Hm, !length_app, IHlen. simpl. lia.
    + exists (log ++ [m]). split.
      * now rewrite Hm, IHlog, app_assoc.
      * now rewrite replay_snoc, IHrep.
Qed.

(** C6 (amended).  In every position reached from [initiateGame w h] by
    accepted placements, removals and passes, the log has one entry for
    every accepted action, passes included, and the board is the fold of
    the logged moves, in order, onto the empty board of [w] rows and [h]
    columns. *)
Theorem reachable_log_and_board (w h : Z) (g0 g : gameState)
    (acts : list action) :
  initiateGame w h Null = Ok g0 ->
  reachable g0 acts g ->
  length (moves g) = length acts /\
  replay (moves g) (replicate (Z.to_nat w) (replicate (Z.to_nat h) Null))
  = Ok (board g).
Proof.
  intros Hinit Hreach.
  assert (Hg0 : g0 = GameState (replicate (Z.to_nat w) (replicate (Z.to_nat h) Null)) []).
  { now apply initiateGame_Ok in Hinit as (_ & _ & ->). }
  apply reachable_invariant in Hreach as [Hlen (log & Hlog & Hrep)].
  subst g0. simpl in *. subst log. auto.
Qed.

Lemma playAll_reachable (fuel : nat) (acts' acts : list action)
    (g0 g g' : gameState) :
  reachable g0 acts g ->
  playAll fuel acts' g = Ok g' ->
  reachable g0 (acts ++ acts') g'.
Proof.
  revert acts g. induction acts' as [| a acts' IH]; intros acts g Hreach; simpl.
  - intros [= <-]. now rewrite app_nil_r.
  - destruct (perform fuel a g) as [[g1 |] | |] eqn:Hstep; simpl; try discriminate.
    intros Hrest. replace (acts ++ a :: acts') with ((acts ++ [a]) ++ acts')
      by now rewrite <- app_assoc.
    eapply IH; [| exact Hrest]. econstructor; eassumption.
Qed.

Lemma reachable_log_and_board_witness :
  exists g : gameState,
    reachable emptyGame passedOpening g /\
    length (moves g) = length passedOpening /\
    replay (moves g) (replicate 15 (replicate 15 Null)) = Ok (board g).
Proof.
  destruct (playAll 4 passedOpening emptyGame) as [g | |] eqn:E;
    [| discriminate E | discriminate E].
  assert (Hreach : reachable emptyGame passedOpening g).
  { apply (playAll_reachable 4 passedOpening [] emptyGame emptyGame g);
      [constructor | exact E]. }
  exists g. split; [exact Hreach |].
  apply (reachable_log_and_board 15 15 emptyGame g passedOpening);
    [reflexivity | exact Hreach].
Defined.

(** C6 as stated counts only the actions that are not passes; an accepted
    pass is logged too, so the count falls short after the first pass. *)
Lemma moves_length_counts_passes :
  ~ (forall (w h : Z) (g0 g : gameState) (acts : list action),
       initiateGame w h Null = Ok g0 ->
       reachable g0 acts g ->
       length (moves g) = length (List.filter (fun a => negb (isPass a)) acts) /\
       replay (moves g) (replicate (Z.to_nat w) (replicate (Z.to_nat h) Null))
       = Ok (board g)).
Proof.
  intros H.
  destruct (playAll 4 passedOpening emptyGame) as [g | |] eqn:E;
    [| discriminate E | discriminate E].
  assert (Hreach : reachable emptyGame passedOpening g).
  { apply (playAll_reachable 4 passedOpening [] emptyGame emptyGame g);
      [constructor | exact E]. }
  destruct (H 15 15 emptyGame g passedOpening eq_refl Hreach) as [Hlen _].
  vm_compute in E. injection E as <-. discriminate Hlen.
Qed.

(** ** Claiming a win after a pass (C1, C10) *)

Lemma removeLastMove_pass (g : gameState) (m : move) :
  last (moves g) = Some m -> row m = -1 -> removeLastMove g = Throw TypeError.
Proof.
  intros Hlast Hrow. unfold removeLastMove. rewrite Hlast, Hrow.
  simpl. reflexivity.
Qed.

Lemma justMade_pass (shape : list (list cell) -> result bool) (g : gameState)
    (m : move) :
  last (moves g) = Some m -> row m = -1 ->
  shape (board g) = Ok true ->
  justMade shape g = Throw TypeError.
Proof.
  intros Hlast Hrow Hshape. unfold justMade.
  now rewrite Hshape, (removeLastMove_pass g m).
Qed.

(** C10 (amended).  If the last logged move is a pass, White has neither
    five nor more in a row, Black has no overline, and the board holds a
    Black double-four, or no double-four but a double-three, then
    [checkWin] called for White throws a TypeError. *)
Theorem checkWin_white_after_pass_throws (g : gameState) (m : move) :
  last (moves g) = Some m ->
  row m = -1 -> column m = -1 ->
  checkIfFiveInARow White (board g) = Ok false ->
  checkOverline White (board g) = Ok false ->
  checkOverline Black (board g) = Ok false ->
  blackMakesDoubleFour (board g) = Ok true \/
  (blackMakesDoubleFour (board g) = Ok false /\
   blackMakesDoubleThree (board g) = Ok true) ->
  checkWin White g = Throw TypeError.
Proof.
  intros Hlast Hrow _ Hfive Hmore Hover Hshape.
  unfold checkWin, checkWinWhite. rewrite Hfive. simpl.
  rewrite Hmore. simpl. rewrite Hover. simpl.
  destruct Hshape as [Hfour | [Hfour Hthree]].
  - now rewrite (justMade_pass _ g m).
  - unfold justMade at 1. rewrite Hfour. simpl.
    now rewrite (justMade_pass _ g m).
Qed.

Lemma checkWin_white_after_pass_throws_witness :
  playAll 4 doubleFourThenPass emptyGame = Ok (gameOf doubleFourThenPass) /\
  checkWin White (gameOf doubleFourThenPass) = Throw TypeError.
Proof.
  split; [vm_compute; reflexivity |].
  apply (checkWin_white_after_pass_throws _ (Move (-1) (-1) White false true));
    [vm_compute; reflexivity ..
    | left; vm_compute; reflexivity].
Defined.

(** C10 as stated asks nothing of the earlier conditions when the board
    holds a double-four; but with five White stones in a row [checkWin]
    answers before it retracts anything. *)
Lemma checkWin_white_after_pass_may_answer :
  ~ (forall (g : gameState) (m : move),
       last (moves g) = Some m ->
       row m = -1 -> column m = -1 ->
       blackMakesDoubleFour (board g) = Ok true \/
       (blackMakesDoubleThree (board g) = Ok true /\
        blackMakesDoubleFour (board g) = Ok false /\
        checkIfFiveInARow White (board g) = Ok false /\
        checkOverline White (board g) = Ok false /\
        checkOverline Black (board g) = Ok false) ->
       checkWin White g = Throw TypeError).
Proof.
  intros H.
  assert (Hplayed : playAll 4 fiveAndDoubleFourThenPass emptyGame
                    = Ok (gameOf fiveAndDoubleFourThenPass))
    by (vm_compute; reflexivity).
  specialize (H (gameOf fiveAndDoubleFourThenPass)
                (Move (-1) (-1) White false true)).
  assert (Hwin : checkWin White (gameOf fiveAndDoubleFourThenPass)
                 = Ok (Outcome true "5 or more in a row for white."))
    by (vm_compute; reflexivity).
  rewrite Hwin in H. discriminate H.
  - vm_compute; reflexivity.
  - reflexivity.
  - reflexivity.
  - left. vm_compute; reflexivity.
Qed.

(** C1, where the engine departs from it.  In the game [doubleFourThenPass]
    Black's double-four stands on the board, White has no five and Black
    no overline, and the last logged move is White's pass.  Retracting a
    pass changes no cell, so no shape was just made and the claim asks for
    the answer "No winning moves for white."; [checkWin] throws a
    TypeError instead.  Before the pass it answered with the double-four. *)
Theorem checkWin_white_fails_after_pass :
  let before := gameOf (removelast doubleFourThenPass) in
  let after := gameOf doubleFourThenPass in
  playAll 4 (removelast doubleFourThenPass) emptyGame = Ok before /\
  checkWin White before = Ok (Outcome true "Black makes double four.") /\
  attemptPass White before = Ok (Valid after) /\
  board after = board before /\
  checkWin White after = Throw TypeError.
Proof.
  repeat split; vm_compute; reflexivity.
Qed.

(** ** The scanner reads the longest run of a line *)

Lemma strictEq_sym (a b : cell) : strictEq a b = strictEq b a.
Proof. now destruct a, b. Qed.

Lemma leadingRun_le_longestRun (pc : cell) (line : list cell) :
  (leadingRun pc line <= longestRun pc line)%nat.
Proof. destruct line; simpl; lia. Qed.

(** The scanner's running maximum, for any state it may be started in: [k]
    is the length of the run that ends just before the line. *)
Lemma scanFrom_largest (pc : cell) (line : list cell) :
  forall (s : scan) (index : Z),
    let k := if strictEq (previousValue s) pc then counter s else 0 in
    1 <= largestCounter s -> 0 <= k <= largestCounter s ->
    largestCounter (scanFrom pc s index line)
    = Z.max (largestCounter s)
            (Z.max (k + Z.of_nat (leadingRun pc line))
                   (Z.of_nat (longestRun pc line))).
Proof.
  induction line as [| v rest IH]; intros s index k H1 Hk; simpl.
  - lia.
  - pose proof (leadingRun_le_longestRun pc rest) as Hle.
    unfold scanStep. rewrite (strictEq_sym v (previousValue s)).
    destruct (strictEq v pc) eqn:Ev; simpl.
    + apply strictEq_eq in Ev. subst v. fold k.
      assert (Ek : (if strictEq (previousValue s) pc then counter s + 1 else 1) = k + 1).
      { unfold k. destruct (strictEq (previousValue s) pc); lia. }
      rewrite Ek.
      destruct (Z.ltb_spec (largestCounter s) (k + 1)).
      * rewrite IH; simpl; rewrite ?strictEq_refl; lia.
      * rewrite IH; simpl; rewrite ?strictEq_refl; lia.
    + replace (largestCounter s <? 1) with false by lia.
      rewrite IH; simpl; rewrite ?Ev; lia.
Qed.

Lemma range_length (from to : Z) : length (range from to) = Z.to_nat (to - from).
Proof. unfold range. now rewrite length_map, length_seq. Qed.

Lemma countTouchingInARow_length (pc : cell) (line : list cell) :
  pc <> Zero ->
  Z.of_nat (length (countTouchingInARow pc line))
  = Z.max 1 (Z.of_nat (longestRun pc line)).
Proof.
  intros Hpc. unfold countTouchingInARow. rewrite range_length.
  pose proof (scanFrom_largest pc line (Scan 1 0 1 Zero) 0) as H.
  pose proof (leadingRun_le_longestRun pc line) as Hle.
  destruct pc; try contradiction; simpl in H; rewrite H by lia; lia.
Qed.

Lemma countHorizontalTouching_spec (pc : cell) (b : list (list cell)) (n : Z) :
  pc <> Zero ->
  n ∈ countHorizontalTouching pc b <->
  2 <= n /\ exists line, line ∈ b /\ Z.of_nat (longestRun pc line) = n.
Proof.
  intros Hpc. unfold countHorizontalTouching.
  rewrite list_elem_of_filter, map_map.
  change (map ?f b) with (f <$> b). rewrite list_elem_of_fmap.
  split.
  - intros (Hn & line & -> & Hline). split; [exact Hn |].
    exists line. split; [exact Hline |].
    rewrite countTouchingInARow_length in * by assumption. lia.
  - intros (Hn & line & Hline & <-). split; [exact Hn |].
    exists line. split; [| exact Hline].
    rewrite countTouchingInARow_length by assumption. lia.
Qed.

Lemma leadingRun_ge (pc : cell) (line : list cell) (n : nat) :
  (n <= leadingRun pc line)%nat <->
  forall t : nat, (t < n)%nat -> line !! t = Some pc.
Proof.
  revert n. induction line as [| v rest IH]; intros n; simpl.
  - split.
    + intros Hn t Ht. lia.
    + intros H. destruct n; [lia |]. specialize (H 0%nat ltac:(lia)). discriminate.
  - destruct (strictEq v pc) eqn:Ev.
    + apply strictEq_eq in Ev. subst v. destruct n; [split; [intros; lia | lia] |].
      rewrite <- Nat.succ_le_mono, IH. split.
      * intros H [| t] Ht; [reflexivity | apply H; lia].
      * intros H t Ht. apply (H (S t)). lia.
    + split.
      * intros Hn t Ht. lia.
      * intros H. destruct n; [lia |]. specialize (H 0%nat ltac:(lia)).
        simpl in H. injection H as ->. now rewrite strictEq_refl in Ev.
Qed.

Lemma longestRun_ge (pc : cell) (line : list cell) (n : nat) :
  (0 < n)%nat ->
  (n <= longestRun pc line)%nat <->
  exists p : nat, forall t : nat, (t < n)%nat -> line !! (p + t)%nat = Some pc.
Proof.
  intros Hn. induction line as [| v rest IH].
  - simpl. split; [lia |]. intros [p H]. specialize (H 0%nat Hn).
    now rewrite lookup_nil in H.
  - change (longestRun pc (v :: rest))
      with (Nat.max (leadingRun pc (v :: rest)) (longestRun pc rest)).
    rewrite Nat.max_le_iff, IH, leadingRun_ge. split.
    + intros [H | [p H]].
      * exists 0%nat. exact H.
      * exists (S p). exact H.
    + intros [[| p] H].
      * left. exact H.
      * right. exists p. exact H.
Qed.

(** ** Segments of a rectangular board *)

Lemma axes_cases (d : Z * Z) :
  d ∈ axes -> d = (0, 1) \/ d = (1, 0) \/ d = (1, 1) \/ d = (1, -1).
Proof.
  unfold axes. rewrite !elem_of_cons, elem_of_nil. tauto.
Qed.

Lemma cellAt_inside (w h : nat) (b : list (list cell)) (r c : Z) :
  rectangular w h b ->
  (exists v, cellAt b r c = Some v) <-> inside w h (r, c).
Proof.
  intros [Hlen Hrows]. unfold cellAt, inside. simpl. split.
  - intros [v Hv]. destruct (arrayGet b r) as [line |] eqn:Er; [| discriminate].
    apply arrayGet_Some in Er as [Hr Er], Hv as [Hc Hv].
    rewrite Forall_lookup in Hrows. pose proof (Hrows _ _ Er) as Hl.
    apply lookup_lt_Some in Er, Hv. lia.
  - intros [Hr Hc]. destruct (arrayGet_in_range b r) as [line Er]; [lia |].
    rewrite Er. apply arrayGet_in_range.
    apply arrayGet_Some in Er as [_ Er].
    rewrite Forall_lookup in Hrows. rewrite (Hrows _ _ Er). exact Hc.
Qed.

Lemma cellAt_valueAt (w h : nat) (b : list (list cell)) (x : Z * Z) :
  rectangular w h b -> inside w h x ->
  cellAt b x.1 x.2 = Some (valueAt b x).
Proof.
  intros Hrect Hin. destruct x as [r c]. simpl.
  apply (cellAt_inside w h b r c Hrect) in Hin as [v Hv].
  unfold valueAt. simpl. now rewrite Hv.
Qed.

Lemma valueAt_of_cellAt (b : list (list cell)) (x : Z * Z) (v : cell) :
  cellAt b x.1 x.2 = Some v -> valueAt b x = v.
Proof. intros H. unfold valueAt. now rewrite H. Qed.

Lemma segmentLine_lookup (b : list (list cell)) (s : segment) (t : nat) :
  (t < len s)%nat ->
  segmentLine b s !! t = Some (valueAt b (segmentCell s (Z.of_nat t))).
Proof.
  intros Ht. unfold segmentLine.
  change (map ?f ?l) with (f <$> l). rewrite list_lookup_fmap.
  now rewrite (lookup_seq_lt 0 (len s) t Ht).
Qed.

Lemma segmentLine_length (b : list (list cell)) (s : segment) :
  length (segmentLine b s) = len s.
Proof. unfold segmentLine. now rewrite length_map, length_seq. Qed.

Section Family.
Variables (w h : nat) (b : list (list cell)) (pc : cell).
Hypothesis Hrect : rectangular w h b.

Lemma on_segment (d : Z * Z) (fam : segment -> Prop) (s : segment) (i : Z) :
d ∈ axes -> lineFamily w h d fam -> fam s ->
inside w h (segmentCell s i) -> 0 <= i < Z.of_nat (len s).
Proof.
intros Hd F Hs Hi.
pose proof (family_nonempty _ _ _ _ F s Hs) as Hlen.
pose proof (family_inside _ _ _ _ F s 0 Hs ltac:(lia)) as H0.
pose proof (family_before _ _ _ _ F s Hs) as Hlo.
pose proof (family_after _ _ _ _ F s Hs) as Hhi.
pose proof (family_step _ _ _ _ F s Hs) as Hstep.
destruct s as [[r c] e n]. unfold inside, segmentCell in *. simpl in *.
apply axes_cases in Hd as [-> | [-> | [-> | ->]]];
  destruct Hstep as [-> | ->]; simpl in *; lia.
Qed.

Lemma segment_run (d : Z * Z) (fam : segment -> Prop) (s : segment) (n : nat) :
d ∈ axes -> lineFamily w h d fam -> fam s -> (0 < n)%nat ->
(n <= longestRun pc (segmentLine b s))%nat <->
exists z : Z,
  runAt b pc n ((start s).1 + z * d.1) ((start s).2 + z * d.2) d.
Proof.
intros Hd F Hs Hn.
pose proof (family_step _ _ _ _ F s Hs) as Hstep.
rewrite longestRun_ge by exact Hn. split.
- intros [p Hp].
  assert (Hlen : (p + n <= len s)%nat).
  { specialize (Hp (n - 1)%nat ltac:(lia)).
    apply lookup_lt_Some in Hp. rewrite segmentLine_length in Hp. lia. }
  assert (Hcell : forall i : Z,
            Z.of_nat p <= i < Z.of_nat p + Z.of_nat n ->
            cellAt b (segmentCell s i).1 (segmentCell s i).2 = Some pc).
  { intros i Hi. specialize (Hp (Z.to_nat i - p)%nat ltac:(lia)).
    replace (p + (Z.to_nat i - p))%nat with (Z.to_nat i) in Hp by lia.
    rewrite segmentLine_lookup in Hp by lia. injection Hp as Hp.
    rewrite Z2Nat.id in Hp by lia.
    rewrite (cellAt_valueAt w h), Hp; [reflexivity | exact Hrect |].
    apply (family_inside _ _ _ _ F); [exact Hs | lia]. }
  destruct Hstep as [E | E].
  + exists (Z.of_nat p). intros t Ht.
    rewrite <- (Hcell (Z.of_nat p + Z.of_nat t)) by lia.
    unfold segmentCell. rewrite E. simpl. f_equal; ring.
  + exists (- (Z.of_nat p + Z.of_nat n - 1)). intros t Ht.
    rewrite <- (Hcell (Z.of_nat p + Z.of_nat n - 1 - Z.of_nat t)) by lia.
    unfold segmentCell. rewrite E. simpl. f_equal; ring.
- intros [z Hz].
  assert (Hon : forall t : nat, (t < n)%nat ->
            inside w h ((start s).1 + (z + Z.of_nat t) * d.1,
                        (start s).2 + (z + Z.of_nat t) * d.2)).
  { intros t Ht. apply (cellAt_inside w h b _ _ Hrect).
    exists pc. rewrite <- (Hz t Ht). f_equal; ring. }
  destruct Hstep as [E | E].
  + assert (Hidx : forall t : nat, (t < n)%nat ->
              0 <= z + Z.of_nat t < Z.of_nat (len s)).
    { intros t Ht. apply (on_segment d fam s _ Hd F Hs).
      unfold segmentCell. rewrite E. apply (Hon t Ht). }
    exists (Z.to_nat z). intros t Ht.
    pose proof (Hidx 0%nat Hn). pose proof (Hidx t Ht).
    rewrite segmentLine_lookup by lia. f_equal.
    apply valueAt_of_cellAt. rewrite <- (Hz t Ht).
    unfold segmentCell. rewrite E. simpl.
    replace (Z.of_nat (Z.to_nat z + t)) with (z + Z.of_nat t) by lia.
    f_equal; ring.
  + assert (Hidx : forall t : nat, (t < n)%nat ->
              0 <= - (z + Z.of_nat t) < Z.of_nat (len s)).
    { intros t Ht. apply (on_segment d fam s _ Hd F Hs).
      unfold segmentCell. rewrite E. simpl.
      replace ((start s).1 + - (z + Z.of_nat t) * - d.1)
        with ((start s).1 + (z + Z.of_nat t) * d.1) by ring.
      replace ((start s).2 + - (z + Z.of_nat t) * - d.2)
        with ((start s).2 + (z + Z.of_nat t) * d.2) by ring.
      apply (Hon t Ht). }
    exists (Z.to_nat (- (z + Z.of_nat (n - 1)))). intros t Ht.
    pose proof (Hidx (n - 1)%nat ltac:(lia)).
    pose proof (Hidx (n - 1 - t)%nat ltac:(lia)).
    rewrite segmentLine_lookup by lia. f_equal.
    apply valueAt_of_cellAt. rewrite <- (Hz (n - 1 - t)%nat ltac:(lia)).
    unfold segmentCell. rewrite E. simpl.
    replace (Z.of_nat (Z.to_nat (- (z + Z.of_nat (n - 1))) + t))
      with (- (z + Z.of_nat (n - 1 - t)%nat)) by lia.
    f_equal; ring.
Qed.
Lemma family_through (d : Z * Z) (fam : segment -> Prop) (r c : Z) :
lineFamily w h d fam -> inside w h (r, c) ->
exists (s : segment) (z : Z),
  fam s /\ r = (start s).1 + z * d.1 /\ c = (start s).2 + z * d.2.
Proof.
intros F Hin.
destruct (family_cover _ _ _ _ F _ Hin) as (s & t & Hs & Ht & Hcell).
unfold segmentCell in Hcell. injection Hcell as Hr Hc.
exists s. destruct (family_step _ _ _ _ F s Hs) as [E | E];
  rewrite E in Hr, Hc; simpl in Hr, Hc.
- exists t. auto.
- exists (- t). repeat split; [exact Hs | rewrite <- Hr; ring | rewrite <- Hc; ring].
Qed.

Lemma runAt_inside (n : nat) (r c : Z) (d : Z * Z) :
(0 < n)%nat -> runAt b pc n r c d -> inside w h (r, c).
Proof.
intros Hn Hrun. apply (cellAt_inside w h b r c Hrect). exists pc.
rewrite <- (Hrun 0%nat Hn). f_equal; simpl; ring.
Qed.

Lemma runAt_shift (n : nat) (r c r' c' : Z) (d : Z * Z) :
r = r' -> c = c' -> runAt b pc n r c d -> runAt b pc n r' c' d.
Proof. now intros -> ->. Qed.

(** Some line of the family holds [n] in a row iff the board holds [n] in
  a row along [d]. *)
Lemma family_run (d : Z * Z) (fam : segment -> Prop) (n : nat) :
d ∈ axes -> lineFamily w h d fam -> (0 < n)%nat ->
(exists s, fam s /\ (n <= longestRun pc (segmentLine b s))%nat) <->
exists r c : Z, runAt b pc n r c d.
Proof.
intros Hd F Hn. split.
- intros (s & Hs & Hlong).
  apply (segment_run d fam s n Hd F Hs Hn) in Hlong as [z Hz]. eauto.
- intros (r & c & Hrun).
  destruct (family_through d fam r c F (runAt_inside n r c d Hn Hrun))
    as (s & z & Hs & -> & ->).
  exists s. split; [exact Hs |].
  apply (segment_run d fam s n Hd F Hs Hn). eauto.
Qed.

(** On some line of the family the longest run has length [n] iff the
  board holds [n] in a row along [d] on a line that nowhere holds
  [n + 1] in a row. *)
Lemma family_longest (d : Z * Z) (fam : segment -> Prop) (n : nat) :
d ∈ axes -> lineFamily w h d fam -> (0 < n)%nat ->
(exists s, fam s /\ longestRun pc (segmentLine b s) = n) <->
exists r c : Z,
  runAt b pc n r c d /\
  forall z : Z, ~ runAt b pc (S n) (r + z * d.1) (c + z * d.2) d.
Proof.
intros Hd F Hn. split.
- intros (s & Hs & Hlong).
  assert (Hge : (n <= longestRun pc (segmentLine b s))%nat) by lia.
  apply (segment_run d fam s n Hd F Hs Hn) in Hge as [z0 Hz0].
  eexists _, _. split; [exact Hz0 |].
  intros z Hrun.
  assert (Hmore : (S n <= longestRun pc (segmentLine b s))%nat).
  { apply (segment_run d fam s (S n) Hd F Hs ltac:(lia)).
    exists (z0 + z). revert Hrun. apply runAt_shift; ring. }
  lia.
- intros (r & c & Hrun & Hmax).
  destruct (family_through d fam r c F (runAt_inside n r c d Hn Hrun))
    as (s & z0 & Hs & -> & ->).
  exists s. split; [exact Hs |].
  assert (Hge : (n <= longestRun pc (segmentLine b s))%nat).
  { apply (segment_run d fam s n Hd F Hs Hn). eauto. }
  destruct (Nat.le_gt_cases (S n) (longestRun pc (segmentLine b s)))
    as [Hmore | Hless]; [| lia].
  apply (segment_run d fam s (S n) Hd F Hs ltac:(lia)) in Hmore as [z1 Hz1].
  exfalso. apply (Hmax (z1 - z0)). revert Hz1. apply runAt_shift; ring.
Qed.
End Family.

(** ** The four families of lines *)

Ltac family_arith :=
  unfold inside, segmentCell, rowSegment, columnSegment, upSegment,
    downSegment, diagonalLength, diagonalFirst in *;
  cbn [fst snd start step len] in *; lia.

Lemma rowFamily_lines (w h : nat) :
  (0 < h)%nat -> lineFamily w h (0, 1) (rowFamily w h).
Proof.
  intros Hh. split.
  - intros s (i & Hi & ->). now left.
  - intros s (i & Hi & ->). exact Hh.
  - intros s t (i & Hi & ->) Ht. family_arith.
  - intros s (i & Hi & ->). family_arith.
  - intros s (i & Hi & ->). family_arith.
  - intros [r c] Hin. exists (rowSegment h (Z.to_nat r)), c.
    split; [exists (Z.to_nat r); split; [family_arith | reflexivity] |].
    split; [family_arith |].
    unfold segmentCell. simpl. f_equal; family_arith.
Qed.

Lemma columnFamily_lines (w h : nat) :
  (0 < w)%nat -> lineFamily w h (1, 0) (columnFamily w h).
Proof.
  intros Hw. split.
  - intros s (j & Hj & ->). now right.
  - intros s (j & Hj & ->). exact Hw.
  - intros s t (j & Hj & ->) Ht. family_arith.
  - intros s (j & Hj & ->). family_arith.
  - intros s (j & Hj & ->). family_arith.
  - intros [r c] Hin. exists (columnSegment w (Z.to_nat c)), (Z.of_nat w - 1 - r).
    split; [exists (Z.to_nat c); split; [family_arith | reflexivity] |].
    split; [family_arith |].
    unfold segmentCell. simpl. f_equal; family_arith.
Qed.

Lemma upFamily_lines (w h : nat) :
  (0 < w)%nat -> (0 < h)%nat -> lineFamily w h (1, -1) (upFamily w h).
Proof.
  intros Hw Hh. split.
  - intros s (k & Hk & ->). now left.
  - intros s (k & Hk & ->). family_arith.
  - intros s t (k & Hk & ->) Ht. family_arith.
  - intros s (k & Hk & ->). family_arith.
  - intros s (k & Hk & ->). family_arith.
  - intros [r c] Hin.
    exists (upSegment w h (Z.to_nat (r + c))),
           (r - Z.of_nat (diagonalFirst h (Z.to_nat (r + c)))).
    split; [exists (Z.to_nat (r + c)); split; [family_arith | reflexivity] |].
    split; [family_arith |].
    unfold segmentCell. simpl. f_equal; family_arith.
Qed.

Lemma downFamily_lines (w h : nat) :
  (0 < w)%nat -> (0 < h)%nat -> lineFamily w h (1, 1) (downFamily w h).
Proof.
  intros Hw Hh. split.
  - intros s (k & Hk & ->). now right.
  - intros s (k & Hk & ->). family_arith.
  - intros s t (k & Hk & ->) Ht. family_arith.
  - intros s (k & Hk & ->). family_arith.
  - intros s (k & Hk & ->). family_arith.
  - intros [r c] Hin.
    exists (downSegment w h (Z.to_nat (Z.of_nat w - 1 - r + c))),
           (Z.of_nat w - 1 - r
            - Z.of_nat (diagonalFirst h (Z.to_nat (Z.of_nat w - 1 - r + c)))).
    split; [eexists; split; [| reflexivity]; family_arith |].
    split; [family_arith |].
    unfold segmentCell. simpl. f_equal; family_arith.
Qed.

(** ** The lines collected by [pushRows] *)

Lemma pushRow_pushAll {A : Type} (i j : nat) (line : list A)
    (res : list (option (list A))) :
  pushRow i j line res = pushAll (keyedRow i j line) res.
Proof.
  revert j res. induction line as [| x rest IH]; intros j res; simpl.
  - reflexivity.
  - apply IH.
Qed.

Lemma pushAll_app {A : Type} (kvs1 kvs2 : list (nat * A))
    (res : list (option (list A))) :
  pushAll (kvs1 ++ kvs2) res = pushAll kvs2 (pushAll kvs1 res).
Proof. unfold pushAll. apply fold_left_app. Qed.

Lemma pushRows_pushAll {A : Type} (i : nat) (rows : list (list A))
    (res : list (option (list A))) :
  pushRows i rows res = pushAll (keyedRows i rows) res.
Proof.
  revert i res. induction rows as [| line rest IH]; intros i res; simpl.
  - reflexivity.
  - now rewrite IH, pushRow_pushAll, pushAll_app.
Qed.

(** Line [k] of a result array: [None] both for a hole and past the end. *)
Lemma pushAt_line {A : Type} (k k' : nat) (x : A) (res : list (option (list A))) :
  mjoin (pushAt k x res !! k')
  = if decide (k' = k) then Some (default [] (mjoin (res !! k)) ++ [x])
    else mjoin (res !! k').
Proof.
  unfold pushAt.
  set (res' := res ++ replicate (S k - length res) None).
  assert (Hlen : (k < length res')%nat).
  { unfold res'. rewrite length_app, length_replicate. lia. }
  assert (Hsame : forall i, mjoin (res' !! i) = mjoin (res !! i)).
  { intros i. unfold res'. destruct (Nat.lt_ge_cases i (length res)) as [Hi | Hi].
    - now rewrite lookup_app_l.
    - rewrite lookup_app_r by exact Hi.
      rewrite (lookup_ge_None_2 res i) by exact Hi.
      destruct (replicate _ _ !! _) as [o |] eqn:E; [| reflexivity].
      apply lookup_replicate in E as [-> _]. reflexivity. }
  destruct (decide (k' = k)) as [-> | Hne].
  - rewrite list_lookup_insert_eq by exact Hlen. simpl. now rewrite Hsame.
  - rewrite list_lookup_insert_ne by congruence. apply Hsame.
Qed.

Lemma pushedTo_cons {A : Type} (k k0 : nat) (x : A) (kvs : list (nat * A)) :
  pushedTo k ((k0, x) :: kvs)
  = if decide (k = k0) then x :: pushedTo k kvs else pushedTo k kvs.
Proof.
  unfold pushedTo. simpl. destruct (Nat.eqb_spec k0 k) as [-> | Hne].
  - now rewrite decide_True.
  - now rewrite decide_False by congruence.
Qed.

Lemma pushedTo_app {A : Type} (k : nat) (kvs1 kvs2 : list (nat * A)) :
  pushedTo k (kvs1 ++ kvs2) = pushedTo k kvs1 ++ pushedTo k kvs2.
Proof. unfold pushedTo. now rewrite List.filter_app, map_app. Qed.

Lemma pushAll_line {A : Type} (kvs : list (nat * A)) :
  forall (res : list (option (list A))) (k : nat),
    mjoin (pushAll kvs res !! k)
    = match pushedTo k kvs with
      | [] => mjoin (res !! k)
      | _ => Some (default [] (mjoin (res !! k)) ++ pushedTo k kvs)
      end.
Proof.
  induction kvs as [| [k0 x] kvs IH]; intros res k.
  - reflexivity.
  - change (pushAll ((k0, x) :: kvs) res) with (pushAll kvs (pushAt k0 x res)).
    rewrite IH, pushedTo_cons, pushAt_line.
    destruct (decide (k = k0)) as [-> | Hne]; simpl.
    + destruct (pushedTo k0 kvs); simpl; [reflexivity |].
      now rewrite <- app_assoc.
    + reflexivity.
Qed.

(** The lines [forEach] sees in the array built from nothing by the pushes
    [kvs]: for every index that was pushed to, what was pushed there. *)
Lemma pushAll_lines {A : Type} (kvs : list (nat * A)) (line : list A) :
  line ∈ omap id (pushAll kvs []) <->
  line <> [] /\ exists k : nat, pushedTo k kvs = line.
Proof.
  rewrite list_elem_of_omap. split.
  - intros (o & Ho & Eo). simpl in Eo. subst o.
    apply list_elem_of_lookup in Ho as [k Hk].
    assert (Hline : mjoin (pushAll kvs [] !! k) = Some line) by now rewrite Hk.
    rewrite pushAll_line, lookup_nil in Hline. simpl in Hline.
    destruct (pushedTo k kvs) as [| x l] eqn:E; [discriminate |].
    injection Hline as <-. split; [discriminate | eauto].
  - intros (Hne & k & Hk). exists (Some line). split; [| reflexivity].
    pose proof (pushAll_line kvs [] k) as Hline.
    rewrite lookup_nil, Hk in Hline. simpl in Hline.
    destruct line as [| x l]; [contradiction |].
    destruct (pushAll kvs [] !! k) as [[l' |] |] eqn:E; simpl in Hline;
      try discriminate.
    injection Hline as ->. now apply list_elem_of_lookup_2 in E.
Qed.

Lemma pushedTo_keyedRow {A : Type} (i k : nat) (line : list A) :
  forall j : nat,
    pushedTo k (keyedRow i j line)
    = if decide (j + i <= k)%nat then option_list (line !! (k - (j + i))%nat)
      else [].
Proof.
  induction line as [| x rest IH]; intros j; simpl.
  - now destruct (decide _).
  - rewrite pushedTo_cons, IH.
    destruct (decide (k = (j + i)%nat)) as [-> | Hne].
    + rewrite decide_False by lia. rewrite decide_True by lia.
      now rewrite Nat.sub_diag.
    + destruct (decide (j + i <= k)%nat) as [Hle | Hgt].
      * rewrite decide_True by lia.
        replace (k - (j + i))%nat with (S (k - (S j + i)))%nat by lia.
        reflexivity.
      * now rewrite decide_False by lia.
Qed.

Lemma keyedRows_app {A : Type} (rows1 rows2 : list (list A)) :
  forall i : nat,
    keyedRows i (rows1 ++ rows2)
    = keyedRows i rows1 ++ keyedRows (i + length rows1) rows2.
Proof.
  induction rows1 as [| line rest IH]; intros i; simpl.
  - now rewrite Nat.add_0_r.
  - rewrite IH, <- app_assoc. do 3 f_equal. lia.
Qed.

Lemma valueAt_lookup (b : list (list cell)) (i j : nat) (line : list cell)
    (v : cell) :
  b !! i = Some line -> line !! j = Some v ->
  valueAt b (Z.of_nat i, Z.of_nat j) = v.
Proof.
  intros Hi Hj. apply valueAt_of_cellAt. unfold cellAt. simpl.
  assert (Ei : arrayGet b (Z.of_nat i) = Some line).
  { apply arrayGet_Some. rewrite Nat2Z.id. split; [lia | exact Hi]. }
  rewrite Ei. apply arrayGet_Some. rewrite Nat2Z.id. split; [lia | exact Hj].
Qed.

(** What the first [m] rows of a rectangular board push to line [k]. *)
Lemma pushedTo_keyedRows_take (w h : nat) (b : list (list cell)) (k m : nat) :
  rectangular w h b -> (0 < h)%nat -> (m <= w)%nat ->
  pushedTo k (keyedRows 0 (take m b))
  = map (fun i => valueAt b (Z.of_nat i, Z.of_nat k - Z.of_nat i))
        (seq (diagonalFirst h k) (Nat.min m (S k) - diagonalFirst h k)).
Proof.
  intros [Hlen Hrows] Hpos Hm. unfold diagonalFirst. induction m as [| m IH].
  - reflexivity.
  - destruct (lookup_lt_is_Some_2 b m ltac:(lia)) as [line Hline].
    rewrite (take_S_r b m line Hline), keyedRows_app, pushedTo_app.
    rewrite IH by (try unfold first; lia). rewrite length_take, (Nat.min_l m (length b)) by (try unfold first; lia).
    cbn [keyedRows]. rewrite app_nil_r, pushedTo_keyedRow. cbn [Nat.add].
    rewrite Forall_lookup in Hrows. pose proof (Hrows _ _ Hline) as Hh.
    set (first := (k - (h - 1))%nat).
    destruct (decide (m <= k)%nat) as [Hle | Hgt].
    + destruct (line !! (k - m)%nat) as [v |] eqn:Ev.
      * change (option_list (Some v)) with [v].
        apply lookup_lt_Some in Ev as Hlt.
        replace (Nat.min (S m) (S k) - first)%nat
          with (S (Nat.min m (S k) - first))%nat by (try unfold first; lia).
        rewrite seq_S, map_app. cbn [map]. do 2 f_equal.
        replace (first + (Nat.min m (S k) - first))%nat with m by (try unfold first; lia).
        replace (Z.of_nat k - Z.of_nat m) with (Z.of_nat (k - m)) by (try unfold first; lia).
        symmetry. now apply (valueAt_lookup b m (k - m) line).
      * change (option_list (@None cell)) with (@nil cell).
        apply lookup_ge_None in Ev. rewrite app_nil_r.
        now replace (Nat.min (S m) (S k) - first)%nat
          with (Nat.min m (S k) - first)%nat by (try unfold first; lia).
    + rewrite app_nil_r.
      now replace (Nat.min (S m) (S k)) with (Nat.min m (S k)) by (try unfold first; lia).
Qed.

Lemma upSegment_line (w h : nat) (b : list (list cell)) (k : nat) :
  map (fun i => valueAt b (Z.of_nat i, Z.of_nat k - Z.of_nat i))
      (seq (diagonalFirst h k) (diagonalLength w h k))
  = segmentLine b (upSegment w h k).
Proof.
  unfold segmentLine. cbn [len upSegment].
  replace (seq (diagonalFirst h k) (diagonalLength w h k))
    with (map (Nat.add (diagonalFirst h k)) (seq 0 (diagonalLength w h k))).
  - rewrite map_map. apply map_ext. intros t.
    unfold segmentCell. cbn [start step upSegment fst snd]. f_equal. f_equal; lia.
  - change (map ?f ?l) with (f <$> l). rewrite fmap_add_seq. f_equal. lia.
Qed.

Lemma segmentLine_nil (b : list (list cell)) (s : segment) :
  segmentLine b s = [] <-> len s = 0%nat.
Proof.
  rewrite <- (segmentLine_length b s). split.
  - now intros ->.
  - apply nil_length_inv.
Qed.

Lemma up_lines (w h : nat) (b : list (list cell)) (line : list cell) :
  rectangular w h b -> (0 < w)%nat -> (0 < h)%nat ->
  line ∈ omap id (changeDiagonalToHorizontalUp b) <->
  exists s, upFamily w h s /\ line = segmentLine b s.
Proof.
  intros Hrect Hw Hh. unfold changeDiagonalToHorizontalUp.
  rewrite pushRows_pushAll, pushAll_lines.
  assert (Hall : forall k, pushedTo k (keyedRows 0 b)
                           = segmentLine b (upSegment w h k)).
  { intros k. rewrite <- (take_ge b w) at 1 by (destruct Hrect; lia).
    rewrite (pushedTo_keyedRows_take w h b k w Hrect Hh) by lia.
    replace (Nat.min w (S k) - diagonalFirst h k)%nat
      with (diagonalLength w h k) by reflexivity.
    apply upSegment_line. }
  split.
  - intros (Hne & k & Hk). rewrite Hall in Hk. subst line.
    exists (upSegment w h k). split; [| reflexivity]. exists k.
    split; [| reflexivity].
    rewrite segmentLine_nil in Hne. simpl in Hne.
    unfold diagonalLength, diagonalFirst in Hne. lia.
  - intros (s & (k & Hk & ->) & ->). split.
    + rewrite segmentLine_nil. simpl. unfold diagonalLength, diagonalFirst. lia.
    + exists k. apply Hall.
Qed.

Lemma rectangular_rev (w h : nat) (b : list (list cell)) :
  rectangular w h b -> rectangular w h (rev b).
Proof.
  intros [Hlen Hrows]. split.
  - now rewrite length_rev.
  - apply Forall_forall. intros line Hin. apply list_elem_of_In in Hin.
    rewrite <- in_rev in Hin. rewrite Forall_forall in Hrows.
    apply Hrows. now apply list_elem_of_In.
Qed.

Lemma rev_lookup {A : Type} (l : list A) (i : nat) :
  (i < length l)%nat -> rev l !! i = l !! (length l - S i)%nat.
Proof.
  intros Hi. rewrite rev_alt. change (rev_append l []) with (reverse l).
  now apply reverse_lookup.
Qed.

Lemma valueAt_rev (w h : nat) (b : list (list cell)) (r c : Z) :
  rectangular w h b -> 0 <= r < Z.of_nat w ->
  valueAt (rev b) (r, c) = valueAt b (Z.of_nat w - 1 - r, c).
Proof.
  intros [Hlen _] Hr. unfold valueAt, cellAt, arrayGet. simpl.
  destruct (Z.leb_spec 0 r); [| lia].
  destruct (Z.leb_spec 0 (Z.of_nat w - 1 - r)); [| lia].
  rewrite rev_lookup by lia.
  now replace (length b - S (Z.to_nat r))%nat
    with (Z.to_nat (Z.of_nat w - 1 - r)) by lia.
Qed.

Lemma downSegment_line (w h : nat) (b : list (list cell)) (k : nat) :
  rectangular w h b ->
  segmentLine (rev b) (upSegment w h k) = segmentLine b (downSegment w h k).
Proof.
  intros Hrect. unfold segmentLine. cbn [len upSegment downSegment].
  apply map_ext_in. intros t Ht. apply in_seq in Ht.
  unfold segmentCell. cbn [start step upSegment downSegment fst snd].
  rewrite (valueAt_rev w h) by (try exact Hrect; family_arith).
  f_equal. f_equal; lia.
Qed.

Lemma down_lines (w h : nat) (b : list (list cell)) (line : list cell) :
  rectangular w h b -> (0 < w)%nat -> (0 < h)%nat ->
  line ∈ omap id (changeDiagonalToHorizontalDown b) <->
  exists s, downFamily w h s /\ line = segmentLine b s.
Proof.
  intros Hrect Hw Hh.
  change (changeDiagonalToHorizontalDown b)
    with (changeDiagonalToHorizontalUp (rev b)).
  rewrite (up_lines w h) by (try apply rectangular_rev; assumption).
  split.
  - intros (s & (k & Hk & ->) & ->). exists (downSegment w h k).
    split; [now exists k | now apply downSegment_line].
  - intros (s & (k & Hk & ->) & ->). exists (upSegment w h k).
    split; [now exists k | symmetry; now apply downSegment_line].
Qed.

Lemma rowSegment_line (w h : nat) (b : list (list cell)) (i : nat)
    (line : list cell) :
  rectangular w h b -> b !! i = Some line ->
  segmentLine b (rowSegment h i) = line.
Proof.
  intros [Hlen Hrows] Hline. rewrite Forall_lookup in Hrows.
  pose proof (Hrows _ _ Hline) as Hh.
  apply list_eq. intros t.
  destruct (Nat.lt_ge_cases t h) as [Ht | Ht].
  - rewrite segmentLine_lookup by exact Ht.
    destruct (lookup_lt_is_Some_2 line t ltac:(lia)) as [v Hv].
    rewrite Hv. f_equal. unfold segmentCell. cbn [start step rowSegment fst snd].
    replace (0 + Z.of_nat t * 1) with (Z.of_nat t) by lia.
    replace (Z.of_nat i + Z.of_nat t * 0) with (Z.of_nat i) by lia.
    now apply (valueAt_lookup b i t line).
  - rewrite !lookup_ge_None_2; [reflexivity | lia |].
    now rewrite segmentLine_length.
Qed.

Lemma row_lines (w h : nat) (b : list (list cell)) (line : list cell) :
  rectangular w h b ->
  line ∈ b <-> exists s, rowFamily w h s /\ line = segmentLine b s.
Proof.
  intros Hrect. split.
  - intros Hin. apply list_elem_of_lookup in Hin as [i Hi].
    exists (rowSegment h i). split.
    + exists i. split; [| reflexivity].
      apply lookup_lt_Some in Hi. destruct Hrect. lia.
    + symmetry. now apply (rowSegment_line w h).
  - intros (s & (i & Hi & ->) & ->).
    destruct (lookup_lt_is_Some_2 b i) as [line Hline];
      [destruct Hrect; lia |].
    rewrite (rowSegment_line w h b i line Hrect Hline).
    now apply list_elem_of_lookup_2 in Hline.
Qed.

Lemma columnSegment_line (w h : nat) (b : list (list cell)) (j : nat) :
  rectangular w h b -> (j < h)%nat ->
  rev (map (fun r => default Undefined (r !! j)) b)
  = segmentLine b (columnSegment w j).
Proof.
  intros [Hlen Hrows] Hj. rewrite Forall_lookup in Hrows.
  apply list_eq. intros t.
  destruct (Nat.lt_ge_cases t w) as [Ht | Ht].
  - rewrite segmentLine_lookup by exact Ht.
    rewrite rev_lookup by (rewrite length_map; lia).
    rewrite length_map, Hlen.
    change (map ?f ?l) with (f <$> l). rewrite list_lookup_fmap.
    destruct (lookup_lt_is_Some_2 b (w - S t)) as [line Hline]; [lia |].
    rewrite Hline. simpl. f_equal.
    destruct (lookup_lt_is_Some_2 line j) as [v Hv];
      [rewrite (Hrows _ _ Hline); lia |].
    rewrite Hv. simpl. symmetry.
    unfold segmentCell. cbn [start step columnSegment fst snd].
    replace (Z.of_nat w - 1 + Z.of_nat t * -1) with (Z.of_nat (w - S t)) by lia.
    replace (Z.of_nat j + Z.of_nat t * 0) with (Z.of_nat j) by lia.
    now apply (valueAt_lookup b (w - S t) j line).
  - rewrite !lookup_ge_None_2; [reflexivity | |].
    + now rewrite segmentLine_length.
    + rewrite length_rev, length_map. lia.
Qed.

Lemma column_lines (w h : nat) (b : list (list cell)) :
  rectangular w h b -> (0 < w)%nat ->
  exists rotated,
    rotateBoard b = Ok rotated /\
    forall line, line ∈ rotated <->
                 exists s, columnFamily w h s /\ line = segmentLine b s.
Proof.
  intros Hrect Hw.
  assert (Hrot : rotateBoard b
                 = Ok (map (fun index =>
                              rev (map (fun r => default Undefined (r !! index)) b))
                           (seq 0 h))).
  { destruct b as [| line0 rest].
    - destruct Hrect as [Hlen _]. simpl in Hlen. lia.
    - destruct Hrect as [_ Hrows]. apply Forall_inv in Hrows.
      unfold rotateBoard. now rewrite Hrows. }
  eexists. split; [exact Hrot |]. intros line.
  change (map ?f (seq 0 h)) with (f <$> seq 0 h). rewrite list_elem_of_fmap.
  split.
  - intros (j & -> & Hj). apply list_elem_of_In, in_seq in Hj.
    exists (columnSegment w j). split; [exists j; split; [lia | reflexivity] |].
    apply (columnSegment_line w h); [exact Hrect | lia].
  - intros (s & (j & Hj & ->) & ->). exists j. split.
    + symmetry. now apply (columnSegment_line w h).
    + apply list_elem_of_In, in_seq. lia.
Qed.

(** ** The scanner on a rectangular board *)

Section Scanner.
Variables (w h : nat) (b : list (list cell)) (pc : cell).
Hypothesis Hrect : rectangular w h b.
Hypothesis Hw : (0 < w)%nat.
Hypothesis Hh : (0 < h)%nat.
Hypothesis Hpc : pc <> Zero.

(** The scanner returns, and what it returns are the lengths of the
  longest runs of the scanned lines, those below two left out. *)
Lemma totalNumberOfTouchingPieces_spec :
exists total,
  totalNumberOfTouchingPieces pc b = Ok total /\
  forall n : Z,
    n ∈ total <->
    2 <= n /\
    exists s, scannedLine w h s /\
              Z.of_nat (longestRun pc (segmentLine b s)) = n.
Proof.
destruct (column_lines w h b Hrect Hw) as (rotated & Hrot & Hcols).
unfold totalNumberOfTouchingPieces, countVerticalTouching.
rewrite Hrot. simpl. eexists. split; [reflexivity |].
intros n. unfold countDiagonalTouching, changeDiagonalToHorizontal.
rewrite !elem_of_app, !countHorizontalTouching_spec by exact Hpc.
rewrite omap_app.
setoid_rewrite elem_of_app.
setoid_rewrite Hcols.
setoid_rewrite (row_lines w h b _ Hrect).
setoid_rewrite (up_lines w h b _ Hrect Hw Hh).
setoid_rewrite (down_lines w h b _ Hrect Hw Hh).
unfold scannedLine. split.
- intros [(Hn & line & (s & Hs & ->) & E)
         | [(Hn & line & (s & Hs & ->) & E)
           | (Hn & line & [(s & Hs & ->) | (s & Hs & ->)] & E)]];
    (split; [exact Hn | exists s; tauto]).
- intros (Hn & s & [Hs | [Hs | [Hs | Hs]]] & E).
  + left. eauto 10.
  + right. left. eauto 10.
  + right. right. split; [exact Hn |]. eexists. split; [left |]; eauto.
  + right. right. split; [exact Hn |]. eexists. split; [right |]; eauto.
Qed.

(** A property of lines that every family carries to the board along
  its direction is carried over by the scanned lines as a whole. *)
Lemma scannedLine_axes (Q : segment -> Prop) (P : Z -> Z -> Z * Z -> Prop) :
(forall d fam, d ∈ axes -> lineFamily w h d fam ->
   (exists s, fam s /\ Q s) <-> exists r c, P r c d) ->
(exists s, scannedLine w h s /\ Q s) <->
exists r c d, d ∈ axes /\ P r c d.
Proof.
intros Hfam. unfold scannedLine.
pose proof (Hfam (1, 0) (columnFamily w h) ltac:(repeat constructor)
              (columnFamily_lines w h Hw)) as Hcol.
pose proof (Hfam (0, 1) (rowFamily w h) ltac:(repeat constructor)
              (rowFamily_lines w h Hh)) as Hrow.
pose proof (Hfam (1, -1) (upFamily w h) ltac:(repeat constructor)
              (upFamily_lines w h Hw Hh)) as Hup.
pose proof (Hfam (1, 1) (downFamily w h) ltac:(repeat constructor)
              (downFamily_lines w h Hw Hh)) as Hdown.
split.
- intros (s & [Hs | [Hs | [Hs | Hs]]] & HQ).
  + destruct (proj1 Hcol (ex_intro _ s (conj Hs HQ))) as (r & c & H).
    exists r, c, (1, 0). split; [repeat constructor | exact H].
  + destruct (proj1 Hrow (ex_intro _ s (conj Hs HQ))) as (r & c & H).
    exists r, c, (0, 1). split; [repeat constructor | exact H].
  + destruct (proj1 Hup (ex_intro _ s (conj Hs HQ))) as (r & c & H).
    exists r, c, (1, -1). split; [repeat constructor | exact H].
  + destruct (proj1 Hdown (ex_intro _ s (conj Hs HQ))) as (r & c & H).
    exists r, c, (1, 1). split; [repeat constructor | exact H].
- intros (r & c & d & Hd & H).
  apply axes_cases in Hd as [-> | [-> | [-> | ->]]].
  + destruct (proj2 Hrow (ex_intro _ r (ex_intro _ c H))) as (s & Hs & HQ).
    exists s. tauto.
  + destruct (proj2 Hcol (ex_intro _ r (ex_intro _ c H))) as (s & Hs & HQ).
    exists s. tauto.
  + destruct (proj2 Hdown (ex_intro _ r (ex_intro _ c H))) as (s & Hs & HQ).
    exists s. tauto.
  + destruct (proj2 Hup (ex_intro _ r (ex_intro _ c H))) as (s & Hs & HQ).
    exists s. tauto.
Qed.

Lemma scannedLine_longest (n : nat) :
(0 < n)%nat ->
(exists s, scannedLine w h s /\ longestRun pc (segmentLine b s) = n) <->
longestOnSomeLine b pc n.
Proof.
intros Hn. unfold longestOnSomeLine.
apply (scannedLine_axes
         (fun s => longestRun pc (segmentLine b s) = n)
         (fun r c d => runAt b pc n r c d /\
                       forall z : Z,
                         ~ runAt b pc (S n) (r + z * d.1) (c + z * d.2) d)).
intros d fam Hd F. now apply (family_longest w h b pc Hrect).
Qed.

Lemma scannedLine_run (n : nat) :
(0 < n)%nat ->
(exists s, scannedLine w h s /\ (n <= longestRun pc (segmentLine b s))%nat) <->
hasRun b pc n.
Proof.
intros Hn. unfold hasRun.
apply (scannedLine_axes
         (fun s => (n <= longestRun pc (segmentLine b s))%nat)
         (fun r c d => runAt b pc n r c d)).
intros d fam Hd F. now apply (family_run w h b pc Hrect).
Qed.

(** [checkIfFiveInARow] answers, and answers [true] exactly when on some
  line of the board the longest run of [pc] is five. *)
Lemma checkIfFiveInARow_spec :
exists v : bool,
  checkIfFiveInARow pc b = Ok v /\ (v = true <-> longestOnSomeLine b pc 5).
Proof.
destruct totalNumberOfTouchingPieces_spec as (total & Htotal & Hspec).
unfold checkIfFiveInARow. rewrite Htotal. simpl.
eexists. split; [reflexivity |].
rewrite bool_decide_eq_true, Hspec, <- scannedLine_longest by lia.
split.
- intros (_ & s & Hs & E). exists s. split; [exact Hs | lia].
- intros (s & Hs & E). split; [lia |]. exists s. split; [exact Hs | lia].
Qed.

(** [checkOverline] answers, and answers [true] exactly when some line of
  the board holds six of [pc] in a row. *)
Lemma checkOverline_spec :
exists v : bool,
  checkOverline pc b = Ok v /\ (v = true <-> hasRun b pc 6).
Proof.
destruct totalNumberOfTouchingPieces_spec as (total & Htotal & Hspec).
unfold checkOverline. rewrite Htotal. simpl.
eexists. split; [reflexivity |].
rewrite existsb_exists, <- scannedLine_run by lia. split.
- intros (n & Hin & Hn). apply list_elem_of_In, Hspec in Hin
    as (_ & s & Hs & E).
  exists s. split; [exact Hs | lia].
- intros (s & Hs & E).
  exists (Z.of_nat (longestRun pc (segmentLine b s))). split; [| lia].
  apply list_elem_of_In, Hspec. split; [lia |]. eauto.
Qed.

(** The first test of [checkWin] for White: five in a row or an overline. *)
Lemma fiveOrMore_spec :
exists v : bool,
  (let* five := checkIfFiveInARow pc b in
   if five then Ok true else checkOverline pc b) = Ok v /\
  (v = true <-> hasRun b pc 5).
Proof.
destruct totalNumberOfTouchingPieces_spec as (total & Htotal & Hspec).
unfold checkIfFiveInARow, checkOverline. rewrite Htotal. simpl.
exists (bool_decide (5 ∈ total) || existsb (fun x => 5 <? x) total). split.
- now destruct (bool_decide (5 ∈ total)).
- rewrite orb_true_iff, bool_decide_eq_true, existsb_exists,
    <- scannedLine_run by lia.
  split.
  + intros [Hin | (n & Hin & Hn)].
    * apply Hspec in Hin as (_ & s & Hs & E). exists s. split; [exact Hs | lia].
    * apply list_elem_of_In, Hspec in Hin as (_ & s & Hs & E).
      exists s. split; [exact Hs | lia].
  + intros (s & Hs & E).
    destruct (Nat.eq_dec (longestRun pc (segmentLine b s)) 5%nat) as [E5 | N5].
    * left. apply Hspec. split; [lia |]. exists s. split; [exact Hs | lia].
    * right. exists (Z.of_nat (longestRun pc (segmentLine b s))).
      split; [| lia]. apply list_elem_of_In, Hspec. split; [lia |]. eauto.
Qed.
End Scanner.

(** ** Black's win (C2) *)

(** C2 (amended).  On a board of [w] rows and [h] columns, [checkWin]
    called for Black returns a result; it is valid, with the five-in-a-row
    reason, exactly when on some line along one of the four axes the
    longest unbroken run of Black stones has length five.  A line that
    holds six or more in a row does not count, whatever else it holds. *)
Theorem checkWin_black_longest_five (g : gameState) (w h : nat) :
  rectangular w h (board g) -> (0 < w)%nat -> (0 < h)%nat ->
  exists v : bool,
    checkWin Black g
    = Ok (Outcome v (if v then "5 in a row for black."
                     else "No winning moves for black.")) /\
    (v = true <-> longestOnSomeLine (board g) Black 5).
Proof.
  intros Hrect Hw Hh.
  destruct (checkIfFiveInARow_spec w h (board g) Black Hrect Hw Hh)
    as (v & Hfive & Hv); [discriminate |].
  exists v. split; [| exact Hv].
  unfold checkWin. rewrite Hfive. simpl. now destruct v.
Qed.

Lemma standard_rectangular (acts : list action) :
  forallb (fun line => Nat.eqb (length line) 15) (board (gameOf acts)) = true ->
  length (board (gameOf acts)) = 15%nat ->
  rectangular 15 15 (board (gameOf acts)).
Proof.
  intros Hall Hlen. split; [exact Hlen |].
  apply Forall_forall. intros line Hin.
  rewrite forallb_forall in Hall. apply Nat.eqb_eq, Hall.
  now apply list_elem_of_In.
Qed.

Lemma checkWin_black_longest_five_witness :
  exists v : bool,
    checkWin Black (gameOf fiveBesideSix)
    = Ok (Outcome v (if v then "5 in a row for black."
                     else "No winning moves for black.")) /\
    (v = true <-> longestOnSomeLine (board (gameOf fiveBesideSix)) Black 5).
Proof.
  apply (checkWin_black_longest_five (gameOf fiveBesideSix) 15 15).
  - apply standard_rectangular; vm_compute; reflexivity.
  - lia.
  - lia.
Defined.

Lemma fiveBesideSix_exactlyFive :
  exactlyFive (board (gameOf fiveBesideSix)) Black.
Proof.
  exists 12, 0, (0, 1). split; [repeat constructor |]. split; [| split].
  - intros t Ht.
    destruct t as [| [| [| [| [| t]]]]]; try lia; vm_compute; reflexivity.
  - vm_compute. discriminate.
  - vm_compute. discriminate.
Qed.

(** C2 as stated fails on the game [fiveBesideSix], which the engine
    accepts move by move: Black has exactly five in a row at the left end
    of row 12, but the same row also holds six in a row, the scanner keeps
    only the longest run of each line, and [checkWin] answers that Black
    has no winning moves. *)
Lemma checkWin_black_misses_five_beside_six :
  ~ (forall (g : gameState) (w h : nat),
       rectangular w h (board g) -> (0 < w)%nat -> (0 < h)%nat ->
       exists v : bool,
         checkWin Black g
         = Ok (Outcome v (if v then "5 in a row for black."
                          else "No winning moves for black.")) /\
         (v = true <-> exactlyFive (board g) Black)).
Proof.
  intros H.
  assert (Hplayed : playAll 4 fiveBesideSix emptyGame = Ok (gameOf fiveBesideSix))
    by (vm_compute; reflexivity).
  destruct (H (gameOf fiveBesideSix) 15%nat 15%nat) as (v & Hwin & Hv).
  - apply standard_rectangular; vm_compute; reflexivity.
  - lia.
  - lia.
  - assert (Hcode : checkWin Black (gameOf fiveBesideSix)
                    = Ok (Outcome false "No winning moves for black."))
      by (vm_compute; reflexivity).
    rewrite Hcode in Hwin. destruct v; [discriminate Hwin |].
    pose proof (proj2 Hv fiveBesideSix_exactlyFive). discriminate.
Qed.

(** ** White's win where the last move can be retracted (C1) *)

Lemma some_total {A : Type} (f : A -> result bool) (xs : list A) :
  (forall x, x ∈ xs -> exists v, f x = Ok v) -> exists v, some f xs = Ok v.
Proof.
  induction xs as [| x rest IH]; intros Hall; simpl.
  - eauto.
  - destruct (Hall x ltac:(left)) as [[|] ->]; [eauto |].
    apply IH. intros y Hy. apply Hall. now right.
Qed.

Lemma slice_length {A : Type} (from to : Z) (a : list A) :
  0 <= from <= to -> to <= Z.of_nat (length a) ->
  length (slice from to a) = Z.to_nat (to - from).
Proof.
  intros Hfrom Hto. unfold slice.
  replace (from <? 0) with false by lia. replace (to <? 0) with false by lia.
  rewrite length_take, length_drop. lia.
Qed.

Lemma totalNumberOfTouchingPieces_total (pc : cell) (b : list (list cell)) :
  b <> [] -> exists total, totalNumberOfTouchingPieces pc b = Ok total.
Proof.
  intros Hb. destruct b as [| line rest]; [contradiction |].
  unfold totalNumberOfTouchingPieces, countVerticalTouching, rotateBoard.
  simpl. eauto.
Qed.

Lemma getTouchingCells_total (b : list (list cell)) :
  b <> [] -> exists masked, getTouchingCells b = Ok masked /\ masked <> [].
Proof.
  intros Hb. destruct b as [| line rest] eqn:Eb; [contradiction |].
  rewrite <- Eb. unfold getTouchingCells.
  assert (Hrows : getBoardRowNumber b = Ok (Z.of_nat (length line)))
    by now rewrite Eb.
  rewrite Hrows. simpl.
  destruct (arrayGet_in_range b (Z.of_nat (length b) / 2)) as [mid Hmid].
  { assert (0 < Z.of_nat (length b)) by (rewrite Eb; simpl; lia).
    split; [apply Z.div_pos; lia | apply Z.div_lt_upper_bound; lia]. }
  unfold readCell. rewrite Hmid. simpl. eexists. split; [reflexivity |].
  rewrite Eb. discriminate.
Qed.

Lemma pad2DArray_total (padding : nat) (padValue : cell) (b : list (list cell)) :
  b <> [] ->
  exists padded,
    pad2DArray padding padValue b = Ok padded /\
    length padded = (length b + 2 * padding)%nat.
Proof.
  intros Hb. destruct b as [| line rest]; [contradiction |].
  unfold pad2DArray. eexists. split; [reflexivity |].
  rewrite !length_app, !length_replicate, length_map. lia.
Qed.

Lemma getCellsAround_total (rowIndex columnIndex : Z) (number : nat)
    (b : list (list cell)) :
  0 <= rowIndex < Z.of_nat (length b) ->
  exists window,
    getCellsAround rowIndex columnIndex number b = Ok window /\ window <> [].
Proof.
  intros Hrow.
  destruct (pad2DArray_total number Null b) as (padded & Hpad & Hlen).
  { intros ->. simpl in Hrow. lia. }
  unfold getCellsAround. rewrite Hpad. simpl. eexists. split; [reflexivity |].
  unfold getBoardSection. intros Hnil. apply (f_equal length) in Hnil.
  rewrite length_map, slice_length in Hnil by lia.
  simpl in Hnil. lia.
Qed.

(** The search for a double three or a double four never throws. *)
Lemma blackMakesDouble_total (number : nat) (size : Z) (b : list (list cell)) :
  exists v, blackMakesDouble number size b = Ok v.
Proof.
  unfold blackMakesDouble. apply some_total. intros [rowIndex line] Hin.
  apply elem_of_lookup_imap in Hin as (i & line' & E & Hline).
  injection E as -> ->. apply lookup_lt_Some in Hline.
  apply some_total. intros columnIndex _.
  destruct (getCellsAround_total (Z.of_nat i) (Z.of_nat columnIndex) number b)
    as (window & -> & Hwindow); [lia |].
  simpl. destruct (getTouchingCells_total window Hwindow) as (masked & -> & Hmasked).
  simpl. destruct (totalNumberOfTouchingPieces_total Black masked Hmasked)
    as (total & ->).
  simpl. eauto.
Qed.

Lemma justMade_spec (shape : list (list cell) -> result bool)
    (g g' : gameState) :
  (forall b, exists v, shape b = Ok v) ->
  removeLastMove g = Ok g' ->
  exists v : bool,
    justMade shape g = Ok v /\
    (v = true <-> shape (board g) = Ok true /\ shape (board g') = Ok false).
Proof.
  intros Htotal Hretract. unfold justMade.
  destruct (Htotal (board g)) as [present Epresent].
  destruct (Htotal (board g')) as [before Ebefore].
  rewrite Epresent, Hretract. simpl. rewrite Ebefore.
  destruct present, before; simpl; eexists; (split; [reflexivity |]);
    split; try discriminate; try (intros [? ?]; discriminate); auto.
Qed.

(** In a position whose last logged move can be retracted, [checkWin]
    called for White answers as C1 says: with the first of the four
    conditions that holds, and else that White has no winning moves. *)
Lemma checkWin_white_spec (g g' : gameState) (w h : nat) :
  rectangular w h (board g) -> (0 < w)%nat -> (0 < h)%nat ->
  removeLastMove g = Ok g' ->
  exists five over four three : bool,
    (five = true <-> hasRun (board g) White 5) /\
    (over = true <-> hasRun (board g) Black 6) /\
    (four = true <-> blackMakesDoubleFour (board g) = Ok true /\
                     blackMakesDoubleFour (board g') = Ok false) /\
    (three = true <-> blackMakesDoubleThree (board g) = Ok true /\
                      blackMakesDoubleThree (board g') = Ok false) /\
    checkWin White g
    = Ok (if five then Outcome true "5 or more in a row for white."
          else if over then Outcome true "Black makes overline."
          else if four then Outcome true "Black makes double four."
          else if three then Outcome true "Black makes double three."
          else Outcome false "No winning moves for white.").
Proof.
  intros Hrect Hw Hh Hretract.
  destruct (fiveOrMore_spec w h (board g) White Hrect Hw Hh)
    as (five & Hfive & Efive); [discriminate |].
  destruct (checkOverline_spec w h (board g) Black Hrect Hw Hh)
    as (over & Hover & Eover); [discriminate |].
  destruct (justMade_spec blackMakesDoubleFour g g'
              (blackMakesDouble_total 3 4) Hretract) as (four & Hfour & Efour).
  destruct (justMade_spec blackMakesDoubleThree g g'
              (blackMakesDouble_total 2 3) Hretract) as (three & Hthree & Ethree).
  exists five, over, four, three. repeat (split; [assumption |]).
  unfold checkWin, checkWinWhite.
  unfold bind in Hfive. unfold bind at 1 2.
  destruct (checkIfFiveInARow White (board g)) as [[|] | |];
    try discriminate Hfive.
  - injection Hfive as <-. reflexivity.
  - rewrite Hfive. destruct five; [reflexivity |].
    simpl. rewrite Hover. simpl. destruct over; [reflexivity |].
    rewrite Hfour. simpl. destruct four; [reflexivity |].
    rewrite Hthree. simpl. now destruct three.
Qed.


(** ** The attempts leave the caller's position alone (C7) *)

Module StoreFacts.
Import Store.

Lemma alloc_unused (σ : store) : σ !! fresh (dom σ) = None.
Proof. apply not_elem_of_dom, is_fresh. Qed.

Lemma alloc_grows (σ : store) (o : object) : σ ⊆ <[fresh (dom σ) := o]> σ.
Proof. apply insert_subseteq, alloc_unused. Qed.

Lemma unused_weaken (σ0 σ : store) (ls : list loc) :
  σ0 ⊆ σ -> unused σ ls -> unused σ0 ls.
Proof.
  intros Hsub Hu. eapply Forall_impl; [exact Hu |]. intros l Hl. simpl in Hl.
  destruct (σ0 !! l) as [o |] eqn:E; [| reflexivity].
  pose proof (lookup_weaken _ _ _ _ E Hsub) as E'. congruence.
Qed.

Lemma read_grows {A : Type} (as_ : object -> option A) (σ σ' : store)
    (l : loc) (x : A) :
  σ ⊆ σ' -> σ !! l ≫= as_ = Some x -> σ' !! l ≫= as_ = Some x.
Proof.
  intros Hsub Hl. destruct (σ !! l) as [o |] eqn:E; [| discriminate].
  now rewrite (lookup_weaken _ _ _ _ E Hsub).
Qed.

Lemma arrayAt_grows {A : Type} (as_ : object -> option A) (σ σ' : store)
    (array : loc) (items : list loc) (xs : list A) :
  σ ⊆ σ' -> arrayAt as_ σ array items xs -> arrayAt as_ σ' array items xs.
Proof.
  intros Hsub [Hrefs Hitems]. split.
  - eapply lookup_weaken; eassumption.
  - eapply Forall2_impl; [exact Hitems |]. intros l x Hl. simpl in Hl.
    eapply read_grows; eassumption.
Qed.

(** A write elsewhere does not touch an array. *)
Lemma arrayAt_insert {A : Type} (as_ : object -> option A) (σ : store)
    (array : loc) (items : list loc) (xs : list A) (l : loc) (o : object) :
  l ∉ array :: items ->
  arrayAt as_ σ array items xs -> arrayAt as_ (<[l := o]> σ) array items xs.
Proof.
  intros Hl [Hrefs Hitems]. rewrite not_elem_of_cons in Hl.
  destruct Hl as [Hne Hl]. split.
  - now rewrite lookup_insert_ne.
  - apply Forall2_same_length_lookup. split; [eapply Forall2_length, Hitems |].
    intros i item x Hitem Hx. rewrite lookup_insert_ne.
    + exact (Forall2_lookup_lr _ _ _ i _ _ Hitems Hitem Hx).
    + intros ->. apply Hl. eapply list_elem_of_lookup_2, Hitem.
Qed.

Lemma arrayAt_used {A : Type} (as_ : object -> option A) (σ : store)
    (array : loc) (items : list loc) (xs : list A) :
  arrayAt as_ σ array items xs ->
  Forall (fun l => is_Some (σ !! l)) (array :: items).
Proof.
  intros [Hrefs Hitems]. constructor; [eauto |].
  apply Forall_forall. intros l Hl.
  apply list_elem_of_lookup in Hl as [i Hi].
  destruct (Forall2_lookup_l _ _ _ _ _ Hitems Hi) as (x & _ & Hx).
  simpl in Hx. destruct (σ !! l); [eauto | discriminate].
Qed.

(** What is in use and what is not have nothing in common. *)
Lemma used_unused (σ : store) (ls ls' : list loc) (l : loc) :
  Forall (fun l => is_Some (σ !! l)) ls -> unused σ ls' ->
  l ∈ ls -> l ∉ ls'.
Proof.
  intros Hused Hunused Hl Hl'.
  rewrite Forall_forall in Hused. destruct (Hused l Hl) as [o Ho].
  unfold unused in Hunused. rewrite Forall_forall in Hunused.
  rewrite (Hunused l Hl') in Ho. discriminate.
Qed.

Lemma bindM_ok {A B : Type} (m : M A) (k : A -> M B) (σ σ' : store) (a : A) :
  m σ = (Ok a, σ') -> bindM m k σ = k a σ'.
Proof. intros H. unfold bindM. now rewrite H. Qed.

Lemma bindM_throw {A B : Type} (m : M A) (k : A -> M B) (σ σ' : store)
    (e : error) :
  m σ = (Throw e, σ') -> bindM m k σ = (Throw e, σ').
Proof. intros H. unfold bindM. now rewrite H. Qed.

Lemma bindM_fuel {A B : Type} (m : M A) (k : A -> M B) (σ σ' : store) :
  m σ = (OutOfFuel, σ') -> bindM m k σ = (OutOfFuel, σ').
Proof. intros H. unfold bindM. now rewrite H. Qed.

Lemma get_ok {A : Type} (as_ : object -> option A) (l : loc) (σ : store)
    (a : A) :
  σ !! l ≫= as_ = Some a -> get as_ l σ = (Ok a, σ).
Proof. intros H. unfold get. now rewrite H. Qed.

Lemma get_run {A : Type} (as_ : object -> option A) (l : loc) (σ : store) :
  get as_ l σ
  = (match σ !! l ≫= as_ with
     | Some a => Ok a
     | None => Throw TypeError
     end, σ).
Proof. unfold get. now destruct (σ !! l ≫= as_). Qed.

Lemma traverse_get {A : Type} (as_ : object -> option A) (items : list loc)
    (σ : store) :
  traverse (get as_) items σ
  = (match mapM (fun l => σ !! l ≫= as_) items with
     | Some xs => Ok xs
     | None => Throw TypeError
     end, σ).
Proof.
  induction items as [| l rest IH]; simpl.
  - reflexivity.
  - unfold bindM. rewrite get_run.
    destruct (σ !! l ≫= as_) as [a |]; simpl; [| reflexivity].
    rewrite IH. now destruct (mapM _ rest).
Qed.

Lemma load_decode {A : Type} (as_ : object -> option A) (array : loc)
    (σ : store) :
  load as_ array σ
  = (match decode as_ σ array with
     | Some xs => Ok xs
     | None => Throw TypeError
     end, σ).
Proof.
  unfold load, decode, bindM. rewrite get_run.
  destruct (σ !! array ≫= asRefs) as [items |]; simpl; [| reflexivity].
  apply traverse_get.
Qed.

Lemma decode_arrayAt {A : Type} (as_ : object -> option A) (σ : store)
    (array : loc) (xs : list A) :
  decode as_ σ array = Some xs <-> exists items, arrayAt as_ σ array items xs.
Proof.
  unfold decode, arrayAt. split.
  - destruct (σ !! array) as [[| items | |] |]; try discriminate.
    simpl. intros H. apply mapM_Some in H. eauto.
  - intros (items & -> & H). simpl. now apply mapM_Some.
Qed.

(** Copying the objects behind a list of references: the store only
    grows, and if the objects are there, the copies are new, distinct, and
    hold the same values. *)
Lemma traverse_clone {A : Type} (as_ : object -> option A) (mk : A -> object) :
  (forall a, as_ (mk a) = Some a) ->
  forall (items : list loc) (xs : list A) (σ : store),
    Forall2 (fun l x => σ !! l ≫= as_ = Some x) items xs ->
    exists items' σ',
      traverse (fun l => do* a := get as_ l in alloc (mk a)) items σ
      = (Ok items', σ') /\
      σ ⊆ σ' /\
      Forall2 (fun l x => σ' !! l ≫= as_ = Some x) items' xs /\
      NoDup items' /\ unused σ items'.
Proof.
  intros Hmk. induction items as [| l rest IH]; intros xs σ Hxs.
  - apply Forall2_nil_inv_l in Hxs as ->.
    exists [], σ. split; [reflexivity |]. split; [reflexivity |].
    split; [constructor |]. split; constructor.
  - apply Forall2_cons_inv_l in Hxs as (a & xs' & Ha & Hxs' & ->).
    simpl in Ha. set (l1 := fresh (dom σ)). set (σ1 := <[l1 := mk a]> σ).
    assert (Hsub1 : σ ⊆ σ1) by apply alloc_grows.
    destruct (IH xs' σ1) as (items' & σ' & Hrun & Hsub & Hitems & Hnodup & Hunused).
    { eapply Forall2_impl; [exact Hxs' |]. intros l' x' Hl'. simpl in Hl'.
      eapply read_grows; eassumption. }
    assert (Hstep : (do* a := get as_ l in alloc (mk a)) σ = (Ok l1, σ1)).
    { now rewrite (bindM_ok _ _ _ _ _ (get_ok as_ l σ a Ha)). }
    cbn [traverse]. rewrite (bindM_ok _ _ _ _ _ Hstep), (bindM_ok _ _ _ _ _ Hrun).
    exists (l1 :: items'), σ'. split; [reflexivity |].
    split; [etrans; eassumption |]. split; [| split].
    + constructor; [| exact Hitems].
      apply (read_grows as_ σ1); [exact Hsub |].
      unfold σ1. rewrite lookup_insert_eq. simpl. apply Hmk.
    + constructor; [| exact Hnodup].
      intros Hin. unfold unused in Hunused. rewrite Forall_forall in Hunused.
      specialize (Hunused l1 Hin). unfold σ1 in Hunused.
      rewrite lookup_insert_eq in Hunused. discriminate.
    + constructor; [apply alloc_unused |].
      eapply unused_weaken; eassumption.
Qed.

Lemma alloc_run (o : object) (σ : store) :
  alloc o σ = (Ok (fresh (dom σ)), <[fresh (dom σ) := o]> σ).
Proof. reflexivity. Qed.

Lemma arrayAt_refs {A : Type} (as_ : object -> option A) (σ : store)
    (array : loc) (items : list loc) (xs : list A) :
  arrayAt as_ σ array items xs -> get asRefs array σ = (Ok items, σ).
Proof. intros [Hrefs _]. apply get_ok. now rewrite Hrefs. Qed.

(** [R.clone] of an array that is there: a new array of new objects with
    the same values; nothing that was there before is touched. *)
Lemma clone_spec {A : Type} (as_ : object -> option A) (mk : A -> object)
    (σ : store) (array : loc) (items : list loc) (xs : list A) :
  (forall a, as_ (mk a) = Some a) ->
  arrayAt as_ σ array items xs ->
  exists array' items' σ',
    clone as_ mk array σ = (Ok array', σ') /\
    σ ⊆ σ' /\
    arrayAt as_ σ' array' items' xs /\
    NoDup (array' :: items') /\ unused σ (array' :: items').
Proof.
  intros Hmk Harray.
  destruct (traverse_clone as_ mk Hmk items xs σ (proj2 Harray))
    as (items' & σ1 & Hrun & Hsub & Hitems & Hnodup & Hunused).
  set (array' := fresh (dom σ1)).
  exists array', items', (<[array' := Refs items']> σ1).
  assert (Hsub' : σ1 ⊆ <[array' := Refs items']> σ1) by apply alloc_grows.
  split.
  - unfold clone.
    rewrite (bindM_ok _ _ _ _ _ (arrayAt_refs as_ σ array items xs Harray)).
    rewrite (bindM_ok _ _ _ _ _ Hrun). apply alloc_run.
  - split; [etrans; eassumption |]. split; [| split].
    + split; [apply lookup_insert_eq |].
      eapply Forall2_impl; [exact Hitems |]. intros l x Hl. simpl in Hl.
      eapply read_grows; eassumption.
    + constructor; [| exact Hnodup]. intros Hin.
      apply list_elem_of_lookup in Hin as [i Hi].
      destruct (Forall2_lookup_l _ _ _ _ _ Hitems Hi) as (x & _ & Hx).
      simpl in Hx. unfold array' in Hx. now rewrite alloc_unused in Hx.
    + constructor; [| exact Hunused].
      destruct (σ !! array') as [o |] eqn:E; [| reflexivity].
      pose proof (lookup_weaken _ _ _ _ E Hsub) as E'.
      unfold array' in E'. now rewrite alloc_unused in E'.
Qed.

(** [board[r][c] = v] on a board whose rows are distinct objects: the
    answer of [writeCell] on values, and one row object replaced. *)
Lemma writeCell_spec (σ : store) (boardRef : loc) (rows : list loc)
    (b : list (list cell)) (r c : Z) (v : cell) :
  arrayAt asCells σ boardRef rows b -> NoDup (boardRef :: rows) ->
  match Renju.writeCell b r c v with
  | Ok b' =>
      exists l o,
        l ∈ rows /\
        writeCell boardRef r c v σ = (Ok tt, <[l := o]> σ) /\
        arrayAt asCells (<[l := o]> σ) boardRef rows b'
  | Throw e => writeCell boardRef r c v σ = (Throw e, σ)
  | OutOfFuel => False
  end.
Proof.
  intros Harray Hnodup. pose proof Harray as [Hrefs Hrows].
  pose proof (Forall2_length _ _ _ Hrows) as Hlen.
  unfold Renju.writeCell, writeCell.
  rewrite (bindM_ok _ _ _ _ _ (arrayAt_refs asCells σ boardRef rows b Harray)).
  destruct (arrayGet b r) as [line |] eqn:Eline.
  - apply arrayGet_Some in Eline as [Hr Eline].
    destruct (Forall2_lookup_r _ _ _ _ _ Hrows Eline) as (l & Hl & Hcells).
    simpl in Hcells.
    assert (El : arrayGet rows r = Some l) by (apply arrayGet_Some; auto).
    rewrite El. exists l, (Cells (arraySet line c v)).
    split; [eapply list_elem_of_lookup_2, Hl |]. split.
    + now rewrite (bindM_ok _ _ _ _ _ (get_ok asCells l σ line Hcells)).
    + apply NoDup_cons in Hnodup as [Hfresh Hnodup]. split.
      * rewrite lookup_insert_ne; [exact Hrefs |].
        intros ->. apply Hfresh. eapply list_elem_of_lookup_2, Hl.
      * apply Forall2_same_length_lookup. split; [now rewrite length_insert |].
        intros i l' line' Hl' Hline'.
        destruct (decide (i = Z.to_nat r)) as [-> | Hne].
        -- rewrite list_lookup_insert_eq in Hline'
             by (eapply lookup_lt_Some, Eline).
           injection Hline' as <-. rewrite Hl in Hl'. injection Hl' as <-.
           now rewrite lookup_insert_eq.
        -- rewrite list_lookup_insert_ne in Hline' by congruence.
           rewrite lookup_insert_ne.
           ++ exact (Forall2_lookup_lr _ _ _ i _ _ Hrows Hl' Hline').
           ++ intros <-. apply Hne.
              eapply NoDup_lookup; eassumption.
  - apply arrayGet_None in Eline.
    assert (El : arrayGet rows r = None) by (apply arrayGet_None; lia).
    now rewrite El.
Qed.

(** [moves.push(m)] on a log that is there: one new move object, and the
    array object replaced by the longer one. *)
Lemma push_spec (σ : store) (movesRef : loc) (items : list loc)
    (log : list move) (m : move) :
  arrayAt asLogged σ movesRef items log -> NoDup (movesRef :: items) ->
  exists l σ',
    σ !! l = None /\
    push movesRef m σ = (Ok tt, σ') /\
    σ' = <[movesRef := Refs (items ++ [l])]> (<[l := Logged m]> σ) /\
    arrayAt asLogged σ' movesRef (items ++ [l]) (log ++ [m]) /\
    NoDup (movesRef :: items ++ [l]).
Proof.
  intros Harray Hnodup. set (l := fresh (dom σ)).
  pose proof (alloc_unused σ) as Hl. fold l in Hl.
  pose proof (arrayAt_used asLogged σ movesRef items log Harray) as Hused.
  assert (Hdisjoint : l ∉ movesRef :: items).
  { intros Hin. rewrite Forall_forall in Hused.
    destruct (Hused l Hin) as [o Ho]. congruence. }
  pose proof (arrayAt_grows asLogged σ (<[l := Logged m]> σ) movesRef items log
                (alloc_grows σ (Logged m)) Harray) as Harray1.
  exists l, (<[movesRef := Refs (items ++ [l])]> (<[l := Logged m]> σ)).
  split; [exact Hl |]. split; [| split; [reflexivity |]]; [| split].
  - unfold push. rewrite (bindM_ok _ _ _ _ _ (alloc_run (Logged m) σ)).
    fold l.
    now rewrite (bindM_ok _ _ _ _ _
                   (arrayAt_refs asLogged _ movesRef items log Harray1)).
  - split; [apply lookup_insert_eq |].
    apply Forall2_app.
    + apply Forall2_same_length_lookup.
      split; [eapply Forall2_length, (proj2 Harray) |].
      intros i item x Hitem Hx. rewrite lookup_insert_ne.
      * exact (Forall2_lookup_lr _ _ _ i _ _ (proj2 Harray1) Hitem Hx).
      * intros <-. apply NoDup_cons in Hnodup as [Hfresh _].
        apply Hfresh. eapply list_elem_of_lookup_2, Hitem.
    + constructor; [| constructor].
      rewrite lookup_insert_ne.
      * now rewrite lookup_insert_eq.
      * intros ->. apply Hdisjoint. left.
  - apply NoDup_cons in Hnodup as [Hfresh Hnodup].
    rewrite not_elem_of_cons in Hdisjoint. destruct Hdisjoint as [Hne Hnotin].
    constructor.
    + rewrite elem_of_app, list_elem_of_singleton. intros [Hin | ->]; auto.
    + apply NoDup_app. split; [exact Hnodup |]. split.
      * intros x Hx. rewrite list_elem_of_singleton. intros ->. auto.
      * apply NoDup_singleton.
Qed.

Lemma unused_insert (σ0 σ : store) (l : loc) (o : object) :
  σ0 ⊆ σ -> σ0 !! l = None -> σ0 ⊆ <[l := o]> σ.
Proof. intros Hsub Hl. now apply insert_subseteq_r. Qed.

Lemma unused_elem (σ : store) (ls : list loc) (l : loc) :
  unused σ ls -> l ∈ ls -> σ !! l = None.
Proof. unfold unused. rewrite Forall_forall. auto. Qed.

(** The two [R.clone] calls of an attempt, on a position that is there. *)
Lemma clones_spec (σ0 σ : store) (boardRef movesRef : loc)
    (rows items : list loc) (b : list (list cell)) (log : list move) :
  σ0 ⊆ σ ->
  arrayAt asCells σ boardRef rows b ->
  arrayAt asLogged σ movesRef items log ->
  exists board' rows' moves' items' σ2 σ3,
    cloneBoard boardRef σ = (Ok board', σ2) /\
    cloneMoves movesRef σ2 = (Ok moves', σ3) /\
    σ ⊆ σ3 /\
    copied σ0 σ3 board' moves' rows' items' b log.
Proof.
  intros Hsub Hboard Hmoves.
  destruct (clone_spec asCells Cells σ boardRef rows b (fun _ => eq_refl) Hboard)
    as (board' & rows' & σ2 & Hrun2 & Hsub2 & Hboard2 & Hnodup2 & Hunused2).
  destruct (clone_spec asLogged Logged σ2 movesRef items log (fun _ => eq_refl)
              (arrayAt_grows _ _ _ _ _ _ Hsub2 Hmoves))
    as (moves' & items' & σ3 & Hrun3 & Hsub3 & Hmoves3 & Hnodup3 & Hunused3).
  exists board', rows', moves', items', σ2, σ3.
  split; [exact Hrun2 |]. split; [exact Hrun3 |].
  split; [etrans; eassumption |].
  split; [etrans; [exact Hsub |]; etrans; eassumption |].
  split; [eapply arrayAt_grows; eassumption |].
  split; [exact Hmoves3 |]. split.
  - apply NoDup_app. split; [exact Hnodup2 |]. split; [| exact Hnodup3].
    intros l Hl. eapply used_unused; [| exact Hunused3 | exact Hl].
    eapply arrayAt_used, Hboard2.
  - apply Forall_app. split.
    + eapply unused_weaken; eassumption.
    + eapply unused_weaken; [| exact Hunused3]. etrans; eassumption.
Qed.

Lemma copied_push (σ0 σ : store) (boardRef movesRef : loc)
    (rows items : list loc) (b : list (list cell)) (log : list move)
    (m : move) :
  copied σ0 σ boardRef movesRef rows items b log ->
  exists l σ',
    push movesRef m σ = (Ok tt, σ') /\
    copied σ0 σ' boardRef movesRef rows (items ++ [l]) b (log ++ [m]).
Proof.
  intros (Hsub & Hboard & Hmoves & Hnodup & Hunused).
  apply NoDup_app in Hnodup as (Hnodup1 & Hdisjoint & Hnodup2).
  apply Forall_app in Hunused as [Hunused1 Hunused2].
  destruct (push_spec σ movesRef items log m Hmoves Hnodup2)
    as (l & σ' & Hl & Hrun & -> & Hmoves' & Hnodup').
  pose proof (arrayAt_used asCells σ boardRef rows b Hboard) as Hused.
  assert (Hl0 : σ0 !! l = None).
  { destruct (σ0 !! l) as [o |] eqn:E; [| reflexivity].
    pose proof (lookup_weaken _ _ _ _ E Hsub). congruence. }
  assert (Hlboard : l ∉ boardRef :: rows).
  { intros Hin. rewrite Forall_forall in Hused.
    destruct (Hused l Hin) as [o Ho]. congruence. }
  exists l, (<[movesRef := Refs (items ++ [l])]> (<[l := Logged m]> σ)).
  split; [exact Hrun |]. split; [| split; [| split; [exact Hmoves' | split]]].
  - apply unused_insert; [now apply unused_insert |].
    apply (unused_elem σ0 (movesRef :: items)); [exact Hunused2 | left].
  - apply arrayAt_insert; [| now apply arrayAt_insert].
    intros Hin. apply (Hdisjoint movesRef Hin). left.
  - apply NoDup_app. split; [exact Hnodup1 |]. split; [| exact Hnodup'].
    intros x Hx. rewrite app_comm_cons, elem_of_app, list_elem_of_singleton.
    intros [Hx' | ->]; [now apply (Hdisjoint x) | now apply Hlboard].
  - apply Forall_app. split; [exact Hunused1 |].
    rewrite app_comm_cons. apply Forall_app. split; [exact Hunused2 |].
    now constructor.
Qed.

Lemma copied_writeCell (σ0 σ : store) (boardRef movesRef : loc)
    (rows items : list loc) (b : list (list cell)) (log : list move)
    (r c : Z) (v : cell) :
  copied σ0 σ boardRef movesRef rows items b log ->
  match Renju.writeCell b r c v with
  | Ok b' =>
      exists σ',
        writeCell boardRef r c v σ = (Ok tt, σ') /\
        copied σ0 σ' boardRef movesRef rows items b' log
  | Throw e => writeCell boardRef r c v σ = (Throw e, σ)
  | OutOfFuel => False
  end.
Proof.
  intros (Hsub & Hboard & Hmoves & Hnodup & Hunused).
  apply NoDup_app in Hnodup as Hparts. destruct Hparts as (Hnodup1 & Hdisjoint & _).
  pose proof (writeCell_spec σ boardRef rows b r c v Hboard Hnodup1) as Hwrite.
  destruct (Renju.writeCell b r c v) as [b' | e |]; [| exact Hwrite ..].
  destruct Hwrite as (l & o & Hl & Hrun & Hboard').
  exists (<[l := o]> σ). split; [exact Hrun |].
  split; [| split; [exact Hboard' | split; [| split; assumption]]].
  - apply unused_insert; [exact Hsub |].
    apply (unused_elem σ0 _ l Hunused). apply elem_of_app. left. now right.
  - apply arrayAt_insert; [| exact Hmoves].
    apply Hdisjoint. now right.
Qed.

Lemma copied_finish (σ0 σ : store) (boardRef movesRef : loc)
    (rows items : list loc) (b : list (list cell)) (log : list move) :
  copied σ0 σ boardRef movesRef rows items b log ->
  exists g' σ',
    alloc (Position boardRef movesRef) σ = (Ok g', σ') /\
    σ0 ⊆ σ' /\
    decodeState σ' g' = Some (GameState b log) /\
    unused σ0 (parts σ' g').
Proof.
  intros (Hsub & Hboard & Hmoves & Hnodup & Hunused).
  set (g' := fresh (dom σ)). set (σ' := <[g' := Position boardRef movesRef]> σ).
  assert (Hsub' : σ ⊆ σ') by apply alloc_grows.
  pose proof (arrayAt_grows _ _ _ _ _ _ Hsub' Hboard) as Hboard'.
  pose proof (arrayAt_grows _ _ _ _ _ _ Hsub' Hmoves) as Hmoves'.
  assert (Hg' : σ' !! g' = Some (Position boardRef movesRef))
    by apply lookup_insert_eq.
  exists g', σ'. split; [reflexivity |]. split; [etrans; eassumption |]. split.
  - unfold decodeState. rewrite Hg'. simpl.
    rewrite (proj2 (decode_arrayAt asCells σ' boardRef b))
      by (exists rows; exact Hboard').
    rewrite (proj2 (decode_arrayAt asLogged σ' movesRef log))
      by (exists items; exact Hmoves').
    reflexivity.
  - unfold parts. rewrite Hg', (proj1 Hboard'), (proj1 Hmoves'). simpl.
    constructor.
    + destruct (σ0 !! g') as [o |] eqn:E; [| reflexivity].
      pose proof (lookup_weaken _ _ _ _ E Hsub) as E'.
      unfold g' in E'. now rewrite alloc_unused in E'.
    + unfold unused in Hunused. rewrite Forall_forall in Hunused.
      apply Forall_forall. intros l Hl. apply Hunused.
      rewrite !elem_of_cons, elem_of_app in Hl.
      rewrite elem_of_app, !elem_of_cons. tauto.
Qed.

Lemma decodeState_positionAt (σ : store) (g : loc) (st : gameState) :
  decodeState σ g = Some st <->
  exists boardRef movesRef rows items,
    positionAt σ g boardRef movesRef rows items (board st) (moves st).
Proof.
  unfold decodeState, positionAt. split.
  - destruct (σ !! g) as [[| | | boardRef movesRef] |]; try discriminate.
    simpl.
    destruct (decode asCells σ boardRef) as [b |] eqn:Eb; [| discriminate].
    destruct (decode asLogged σ movesRef) as [log |] eqn:Em; [| discriminate].
    simpl. intros [= <-]. simpl.
    apply decode_arrayAt in Eb as [rows Hb], Em as [items Hm].
    exists boardRef, movesRef, rows, items. auto.
  - intros (boardRef & movesRef & rows & items & -> & Hb & Hm). simpl.
    rewrite (proj2 (decode_arrayAt asCells σ boardRef (board st)))
      by (exists rows; exact Hb).
    rewrite (proj2 (decode_arrayAt asLogged σ movesRef (moves st)))
      by (exists items; exact Hm).
    now destruct st.
Qed.

Lemma load_ok {A : Type} (as_ : object -> option A) (σ : store)
    (array : loc) (items : list loc) (xs : list A) :
  arrayAt as_ σ array items xs -> load as_ array σ = (Ok xs, σ).
Proof.
  intros Harray. rewrite load_decode.
  now rewrite (proj2 (decode_arrayAt as_ σ array xs)) by (exists items; exact Harray).
Qed.

Lemma position_ok (σ : store) (g boardRef movesRef : loc) :
  σ !! g = Some (Position boardRef movesRef) ->
  get asPosition g σ = (Ok (boardRef, movesRef), σ).
Proof. intros Hg. apply get_ok. now rewrite Hg. Qed.

(** [checkMoveThree] writes the tentative stone into a copy: same answer
    as on values, and the store only grows. *)
Lemma checkMoveThree_refines (fuel : nat) (pc : cell) (r c : Z) (σ : store)
    (boardRef : loc) (rows : list loc) (b : list (list cell)) :
  arrayAt asCells σ boardRef rows b ->
  exists σ',
    checkMoveThree fuel pc r c boardRef σ
    = (Renju.checkMoveThree fuel pc r c b, σ') /\ σ ⊆ σ'.
Proof.
  intros Hboard. unfold checkMoveThree, Renju.checkMoveThree.
  destruct (strictEq pc White); [exists σ; split; reflexivity |].
  destruct (clone_spec asCells Cells σ boardRef rows b (fun _ => eq_refl) Hboard)
    as (board' & rows' & σ1 & Hrun & Hsub & Hboard' & Hnodup & Hunused).
  unfold cloneBoard. rewrite (bindM_ok _ _ _ _ _ Hrun).
  pose proof (writeCell_spec σ1 board' rows' b r c pc Hboard' Hnodup) as Hwrite.
  destruct (Renju.writeCell b r c pc) as [b' | e |]; simpl.
  - destruct Hwrite as (l & o & Hl & Hrun' & Hplaced).
    rewrite (bindM_ok _ _ _ _ _ Hrun').
    unfold loadBoard. rewrite (bindM_ok _ _ _ _ _ (load_ok _ _ _ _ _ Hplaced)).
    eexists. split; [reflexivity |].
    apply unused_insert; [exact Hsub |].
    apply (unused_elem σ _ l Hunused). now right.
  - rewrite (bindM_throw _ _ _ _ _ Hwrite). eauto.
  - contradiction.
Qed.

Lemma isMoveValid_refines (fuel : nat) (pc : cell) (r c : Z) (σ : store)
    (g boardRef movesRef : loc) (rows items : list loc)
    (b : list (list cell)) (log : list move) :
  positionAt σ g boardRef movesRef rows items b log ->
  exists σ',
    isMoveValid fuel pc r c g σ
    = (Renju.isMoveValid fuel pc r c (GameState b log), σ') /\ σ ⊆ σ'.
Proof.
  intros (Hg & Hboard & Hmoves). unfold isMoveValid, Renju.isMoveValid.
  rewrite (bindM_ok _ _ _ _ _ (position_ok σ g boardRef movesRef Hg)).
  unfold loadBoard, loadMoves.
  rewrite (bindM_ok _ _ _ _ _ (load_ok _ _ _ _ _ Hboard)).
  rewrite (bindM_ok _ _ _ _ _ (load_ok _ _ _ _ _ Hmoves)).
  cbn [board]. unfold bindM at 1, lift at 1.
  destruct (readCell b r c) as [target | e |]; simpl;
    [| exists σ; split; reflexivity ..].
  destruct (strictNe target Null && strictNe target Removed);
    [exists σ; split; reflexivity |].
  unfold bindM at 1, lift at 1.
  destruct (getBoardRowNumber b) as [n | e |]; simpl;
    [| exists σ; split; reflexivity ..].
  destruct (nextMoveNumber (GameState b log))
    as [| [[[p | p |] | [p | p |] |] | [[p | p |] | [p | p |] |] |] | p];
    try (exists σ; split; reflexivity).
  now apply (checkMoveThree_refines fuel pc r c σ boardRef rows b).
Qed.

Ltac run H := rewrite (bindM_ok _ _ _ _ _ H).

Lemma positionAt_grows (σ σ' : store) (g boardRef movesRef : loc)
    (rows items : list loc) (b : list (list cell)) (log : list move) :
  σ ⊆ σ' ->
  positionAt σ g boardRef movesRef rows items b log ->
  positionAt σ' g boardRef movesRef rows items b log.
Proof.
  intros Hsub (Hg & Hboard & Hmoves). split; [| split].
  - eapply lookup_weaken; eassumption.
  - eapply arrayAt_grows; eassumption.
  - eapply arrayAt_grows; eassumption.
Qed.

(** What the three attempts have in common once they go ahead: the
    copies, the new move, the stone if there is one, the new position. *)
Lemma attemptPly_refines (fuel : nat) (pc : cell) (r c : Z) (σ : store)
    (g boardRef movesRef : loc) (rows items : list loc)
    (b : list (list cell)) (log : list move) :
  positionAt σ g boardRef movesRef rows items b log ->
  exists res σ',
    attemptPly fuel pc r c g σ = (res, σ') /\
    σ ⊆ σ' /\
    agrees (Renju.attemptPly fuel pc r c (GameState b log)) res σ' /\
    (forall g', res = Ok (ValidAt g') -> unused σ (parts σ' g')).
Proof.
  intros Hpos.
  destruct (isMoveValid_refines fuel pc r c σ g boardRef movesRef rows items
              b log Hpos) as (σ1 & Hvalid & Hsub1).
  unfold attemptPly, Renju.attemptPly.
  destruct (Renju.isMoveValid fuel pc r c (GameState b log)) as [[|] | e |];
    simpl.
  - run Hvalid.
    pose proof (positionAt_grows _ _ _ _ _ _ _ _ _ Hsub1 Hpos)
      as (Hg & Hboard & Hmoves).
    run (position_ok σ1 g boardRef movesRef Hg).
    destruct (clones_spec σ σ1 boardRef movesRef rows items b log
                Hsub1 Hboard Hmoves)
      as (board' & rows' & moves' & items' & σ2 & σ3 & Hrun2 & Hrun3 & _ & Hcopied).
    run Hrun2. run Hrun3.
    destruct (copied_push σ σ3 board' moves' rows' items' b log
                (Move r c pc false false) Hcopied) as (l & σ4 & Hrun4 & Hcopied4).
    run Hrun4.
    pose proof (copied_writeCell σ σ4 board' moves' rows' (items' ++ [l]) b
                  (log ++ [Move r c pc false false]) r c pc Hcopied4) as Hwrite.
    destruct (Renju.writeCell b r c pc) as [b' | e |]; simpl.
    + destruct Hwrite as (σ5 & Hrun5 & Hcopied5). run Hrun5.
      destruct (copied_finish σ σ5 board' moves' rows' (items' ++ [l]) b'
                  (log ++ [Move r c pc false false]) Hcopied5)
        as (g' & σ6 & Hrun6 & Hsub6 & Hdecode & Hparts).
      run Hrun6. exists (Ok (ValidAt g')), σ6.
      split; [reflexivity |]. split; [exact Hsub6 |]. split.
      * exists g'. auto.
      * now intros ? [= <-].
    + rewrite (bindM_throw _ _ _ _ _ Hwrite).
      exists (Throw e), σ4. split; [reflexivity |].
      split; [apply Hcopied4 |]. split; [reflexivity | discriminate].
    + contradiction.
  - run Hvalid. exists (Ok InvalidAt), σ1. repeat split; auto. discriminate.
  - rewrite (bindM_throw _ _ _ _ _ Hvalid).
    exists (Throw e), σ1. repeat split; auto. discriminate.
  - rewrite (bindM_fuel _ _ _ _ Hvalid).
    exists OutOfFuel, σ1. repeat split; auto. discriminate.
Qed.

Lemma attemptPass_refines (pc : cell) (σ : store)
    (g boardRef movesRef : loc) (rows items : list loc)
    (b : list (list cell)) (log : list move) :
  positionAt σ g boardRef movesRef rows items b log ->
  exists res σ',
    attemptPass pc g σ = (res, σ') /\
    σ ⊆ σ' /\
    agrees (Renju.attemptPass pc (GameState b log)) res σ' /\
    (forall g', res = Ok (ValidAt g') -> unused σ (parts σ' g')).
Proof.
  intros (Hg & Hboard & Hmoves).
  unfold attemptPass, Renju.attemptPass.
  run (position_ok σ g boardRef movesRef Hg).
  unfold loadMoves. run (load_ok _ _ _ _ _ Hmoves).
  change (movesMade (GameState [] log)) with (movesMade (GameState b log)).
  change (checkNormalMove pc (GameState [] log))
    with (checkNormalMove pc (GameState b log)).
  destruct (movesMade (GameState b log) <? 3).
  { exists (Ok InvalidAt), σ. repeat split; auto. discriminate. }
  destruct (negb (checkNormalMove pc (GameState b log))).
  { exists (Ok InvalidAt), σ. repeat split; auto. discriminate. }
  destruct (clones_spec σ σ boardRef movesRef rows items b log
              (reflexivity σ) Hboard Hmoves)
    as (board' & rows' & moves' & items' & σ2 & σ3 & Hrun2 & Hrun3 & _ & Hcopied).
  run Hrun2. run Hrun3.
  destruct (copied_push σ σ3 board' moves' rows' items' b log
              (Move (-1) (-1) pc false true) Hcopied) as (l & σ4 & Hrun4 & Hcopied4).
  run Hrun4.
  destruct (copied_finish σ σ4 board' moves' rows' (items' ++ [l]) b
              (log ++ [Move (-1) (-1) pc false true]) Hcopied4)
    as (g' & σ5 & Hrun5 & Hsub5 & Hdecode & Hparts).
  run Hrun5. exists (Ok (ValidAt g')), σ5.
  split; [reflexivity |]. split; [exact Hsub5 |]. split.
  - exists g'. auto.
  - now intros ? [= <-].
Qed.

Lemma isAt_refines (σ : store) (movesRef : loc) (items : list loc)
    (log : list move) (i r c : Z) :
  arrayAt asLogged σ movesRef items log ->
  isAt (arrayGet items i) r c σ = (Renju.isAt (arrayGet log i) r c, σ).
Proof.
  intros [_ Hitems]. pose proof (Forall2_length _ _ _ Hitems) as Hlen.
  destruct (arrayGet log i) as [m |] eqn:Em.
  - apply arrayGet_Some in Em as [Hi Em].
    destruct (Forall2_lookup_r _ _ _ _ _ Hitems Em) as (l & Hl & Hm).
    simpl in Hm.
    assert (El : arrayGet items i = Some l) by (apply arrayGet_Some; auto).
    rewrite El. unfold isAt. now run (get_ok asLogged l σ m Hm).
  - apply arrayGet_None in Em.
    assert (El : arrayGet items i = None) by (apply arrayGet_None; lia).
    now rewrite El.
Qed.

Lemma attemptRemove_refines (r c : Z) (σ : store)
    (g boardRef movesRef : loc) (rows items : list loc)
    (b : list (list cell)) (log : list move) :
  positionAt σ g boardRef movesRef rows items b log ->
  exists res σ',
    attemptRemove r c g σ = (res, σ') /\
    σ ⊆ σ' /\
    agrees (Renju.attemptRemove r c (GameState b log)) res σ' /\
    (forall g', res = Ok (ValidAt g') -> unused σ (parts σ' g')).
Proof.
  intros (Hg & Hboard & Hmoves).
  unfold attemptRemove, Renju.attemptRemove.
  run (position_ok σ g boardRef movesRef Hg).
  destruct (clones_spec σ σ boardRef movesRef rows items b log
              (reflexivity σ) Hboard Hmoves)
    as (board' & rows' & moves' & items' & σ2 & σ3 & Hrun2 & Hrun3 & Hsub3 & Hcopied).
  run Hrun2. run Hrun3.
  pose proof Hcopied as (Hsub & Hboard' & Hmoves' & _).
  run (arrayAt_refs asLogged σ3 moves' items' log Hmoves').
  run (arrayAt_refs asLogged σ3 movesRef items log
         (arrayAt_grows _ _ _ _ _ _ Hsub3 Hmoves)).
  cbn [moves board]. unfold movesMade. cbn [moves].
  rewrite (Forall2_length _ _ _ (proj2 Hmoves)).
  rewrite (Forall2_length _ _ _ (proj2 Hmoves')).
  destruct (negb (Z.of_nat (length log) =? 6)).
  { exists (Ok InvalidAt), σ3. repeat split; auto. discriminate. }
  rewrite (bindM_ok _ _ σ3 σ3 _ ltac:(reflexivity)) || idtac.
  set (previous := Z.of_nat (length log) - 1).
  set (second := Z.of_nat (length log) - 2).
  pose proof (isAt_refines σ3 moves' items' log previous r c Hmoves') as Hfirst.
  pose proof (isAt_refines σ3 moves' items' log second r c Hmoves') as Hsecond.
  destruct (Renju.isAt (arrayGet log previous) r c) as [first | e |]; simpl.
  2: { rewrite (bindM_throw _ _ _ _ _ Hfirst).
       exists (Throw e), σ3. repeat split; auto. discriminate. }
  2: { rewrite (bindM_fuel _ _ _ _ Hfirst).
       exists OutOfFuel, σ3. repeat split; auto. discriminate. }
  run Hfirst.
  assert (Hhit : (if first then ret true else isAt (arrayGet items' second) r c) σ3
                 = ((if first then Ok true
                     else Renju.isAt (arrayGet log second) r c), σ3)).
  { destruct first; [reflexivity | exact Hsecond]. }
  destruct (if first then Ok true else Renju.isAt (arrayGet log second) r c)
    as [hit | e |]; simpl.
  2: { rewrite (bindM_throw _ _ _ _ _ Hhit).
       exists (Throw e), σ3. repeat split; auto. discriminate. }
  2: { rewrite (bindM_fuel _ _ _ _ Hhit).
       exists OutOfFuel, σ3. repeat split; auto. discriminate. }
  run Hhit. destruct hit; simpl.
  2: { exists (Ok InvalidAt), σ3. repeat split; auto. discriminate. }
  destruct (copied_push σ σ3 board' moves' rows' items' b log
              (Move r c Black true true) Hcopied) as (l & σ4 & Hrun4 & Hcopied4).
  run Hrun4.
  pose proof (copied_writeCell σ σ4 board' moves' rows' (items' ++ [l]) b
                (log ++ [Move r c Black true true]) r c Removed Hcopied4) as Hwrite.
  destruct (Renju.writeCell b r c Removed) as [b' | e |]; simpl.
  - destruct Hwrite as (σ5 & Hrun5 & Hcopied5). run Hrun5.
    destruct (copied_finish σ σ5 board' moves' rows' (items' ++ [l]) b'
                (log ++ [Move r c Black true true]) Hcopied5)
      as (g' & σ6 & Hrun6 & Hsub6 & Hdecode & Hparts).
    run Hrun6. exists (Ok (ValidAt g')), σ6.
    split; [reflexivity |]. split; [exact Hsub6 |]. split.
    + exists g'. auto.
    + now intros ? [= <-].
  - rewrite (bindM_throw _ _ _ _ _ Hwrite).
    exists (Throw e), σ4. split; [reflexivity |].
    split; [apply Hcopied4 |]. split; [reflexivity | discriminate].
  - contradiction.
Qed.
End StoreFacts.

(** C7.  Whatever position a store holds at [g] and whatever the arguments,
    a call of [attemptPly], [attemptRemove] or [attemptPass] on [g] leaves
    every object that existed before the call as it was, so that [g] still
    stands for the same board and the same move log.  This holds however
    the call ends: with an answer, with an exception, or with the loop of
    [checkMoveThree] still turning the board when the fuel is spent.  The
    call ends as the engine on values does: an accepted attempt returns a
    reference to the new position, every object of which (the position, its
    two arrays, its rows and its move objects) was allocated by the call; a
    refused attempt returns [{valid: false}], which refers to no
    position. *)
Theorem attempts_leave_position_unchanged (fuel : nat) (a : action)
    (σ : gmap positive Store.object) (g : positive) (st : gameState) :
  Store.decodeState σ g = Some st ->
  exists res σ',
    Store.perform fuel a g σ = (res, σ') /\
    σ ⊆ σ' /\
    Store.decodeState σ' g = Some st /\
    Store.agrees (perform fuel a st) res σ' /\
    (forall g', res = Ok (Store.ValidAt g') ->
                Store.unused σ (Store.parts σ' g')).
Proof.
  intros Hheld.
  apply StoreFacts.decodeState_positionAt in Hheld
    as (boardRef & movesRef & rows & items & Hpos).
  destruct st as [b log]. cbn [board moves] in Hpos.
  assert (Hcall : exists res σ',
             Store.perform fuel a g σ = (res, σ') /\
             σ ⊆ σ' /\
             Store.agrees (perform fuel a (GameState b log)) res σ' /\
             (forall g', res = Ok (Store.ValidAt g') ->
                         Store.unused σ (Store.parts σ' g'))).
  { destruct a as [pc r c | r c | pc]; cbn [Store.perform perform].
    - eapply StoreFacts.attemptPly_refines; eassumption.
    - eapply StoreFacts.attemptRemove_refines; eassumption.
    - eapply StoreFacts.attemptPass_refines; eassumption. }
  destruct Hcall as (res & σ' & Hrun & Hsub & Hagrees & Hnew).
  exists res, σ'. repeat split; auto.
  apply StoreFacts.decodeState_positionAt.
  exists boardRef, movesRef, rows, items.
  eapply StoreFacts.positionAt_grows; eassumption.
Qed.

Lemma attempts_leave_position_unchanged_witness :
  Store.decodeState heldOpening 19%positive = Some afterFirstMove /\
  exists res σ',
    Store.perform 9 (Ply White 6 7) 19%positive heldOpening = (res, σ') /\
    heldOpening ⊆ σ' /\
    Store.decodeState σ' 19%positive = Some afterFirstMove /\
    Store.agrees (perform 9 (Ply White 6 7) afterFirstMove) res σ' /\
    (forall g', res = Ok (Store.ValidAt g') ->
                Store.unused heldOpening (Store.parts σ' g')).
Proof.
  split; [vm_compute; reflexivity |].
  apply attempts_leave_position_unchanged. vm_compute. reflexivity.
Defined.

(** ** Accepted placements, removals and passes *)

Lemma readCell_cellAt (b : list (list cell)) (r c : Z) (v : cell) :
  v <> Undefined ->
  readCell b r c = Ok v <-> cellAt b r c = Some v.
Proof.
  intros Hv. unfold readCell, cellAt.
  destruct (arrayGet b r) as [line |]; [| split; discriminate].
  destruct (arrayGet line c) as [x |]; simpl.
  - split; congruence.
  - split; [congruence | discriminate].
Qed.

Lemma isMoveValid_target (fuel : nat) (pc : cell) (r c : Z) (g : gameState) :
  isMoveValid fuel pc r c g = Ok true ->
  cellAt (board g) r c = Some Null \/ cellAt (board g) r c = Some Removed.
Proof.
  unfold isMoveValid.
  destruct (readCell (board g) r c) as [v | |] eqn:Hread; simpl; try discriminate.
  destruct v; simpl; try discriminate; intros _.
  - left. now apply readCell_cellAt.
  - right. now apply readCell_cellAt.
Qed.

Lemma isMoveValid_from_eight (fuel : nat) (pc : cell) (r c : Z) (g : gameState) :
  7 <= movesMade g ->
  isMoveValid fuel pc r c g
  = let* target := readCell (board g) r c in
    if strictNe target Null && strictNe target Removed then Ok false
    else let* _ := getBoardRowNumber (board g) in Ok (checkNormalMove pc g).
Proof.
  intros Hn. unfold isMoveValid, nextMoveNumber.
  destruct (readCell (board g) r c) as [v | |]; simpl; try reflexivity.
  destruct (strictNe v Null && strictNe v Removed); [reflexivity |].
  destruct (getBoardRowNumber (board g)); simpl; try reflexivity.
  destruct (movesMade g + 1) as [| p | p] eqn:E; try lia.
  do 3 (destruct p as [p | p |]; try lia; try reflexivity).
Qed.

Lemma readCell_rows (b : list (list cell)) (r c : Z) (v : cell) :
  readCell b r c = Ok v -> exists rows, getBoardRowNumber b = Ok rows.
Proof.
  unfold readCell, arrayGet, getBoardRowNumber.
  destruct b as [| line rest]; [| eauto].
  destruct (0 <=? r); simpl; discriminate.
Qed.

Lemma colourToMove_cases (g : gameState) :
  (movesMade g = 0 -> colourToMove g = Black) /\
  (movesMade g = 1 -> colourToMove g = White) /\
  (movesMade g = 2 -> colourToMove g = Black) /\
  (movesMade g = 3 -> colourToMove g = White) /\
  (movesMade g = 4 -> colourToMove g = Black) /\
  (movesMade g = 5 -> colourToMove g = Black) /\
  (movesMade g = 6 -> colourToMove g = White).
Proof.
  unfold colourToMove. repeat split; intros ->; reflexivity.
Qed.

Lemma checkNormalMove_true (pc : cell) (g : gameState) :
  checkNormalMove pc g = true <-> pc = colourToMove g.
Proof.
  unfold checkNormalMove, strictNe.
  destruct (strictEq pc (colourToMove g)) eqn:E; simpl.
  - apply strictEq_eq in E. tauto.
  - split; [discriminate |]. intros H. apply strictEq_eq in H. congruence.
Qed.

Lemma checkMoveSeven_white (pc : cell) (r c : Z) (b : list (list cell)) :
  checkMoveSeven pc r c b = true -> pc = White.
Proof.
  unfold checkMoveSeven, strictNe.
  destruct (strictEq pc White) eqn:E; simpl; [| discriminate].
  intros _. now apply strictEq_eq.
Qed.

(** The colour that [isMoveValid] asks for, move by move. *)
Lemma isMoveValid_colour (fuel : nat) (pc : cell) (r c : Z) (g : gameState) :
  isMoveValid fuel pc r c g = Ok true ->
  pc = colourToMove g \/ (movesMade g = 2 /\ pc <> White).
Proof.
  intros H. pose proof (colourToMove_cases g) as (C0 & C1 & C2 & C3 & C4 & C5 & C6).
  destruct (Z_le_gt_dec 7 (movesMade g)) as [Hn | Hn].
  - rewrite isMoveValid_from_eight in H by exact Hn.
    destruct (readCell (board g) r c) as [v | |]; simpl in H; try discriminate.
    destruct (strictNe v Null && strictNe v Removed); [discriminate |].
    destruct (getBoardRowNumber (board g)); simpl in H; try discriminate.
    left. apply checkNormalMove_true. congruence.
  - unfold isMoveValid, nextMoveNumber in H.
    destruct (readCell (board g) r c) as [v | |]; simpl in H; try discriminate.
    destruct (strictNe v Null && strictNe v Removed); [discriminate |].
    destruct (getBoardRowNumber (board g)); simpl in H; try discriminate.
    assert (Hlow : 0 <= movesMade g) by (unfold movesMade; lia).
    assert (Hcases : movesMade g = 0 \/ movesMade g = 1 \/ movesMade g = 2 \/
                     movesMade g = 3 \/ movesMade g = 4 \/ movesMade g = 5 \/
                     movesMade g = 6) by lia.
    destruct Hcases as [E | [E | [E | [E | [E | [E | E]]]]]];
      rewrite E in H; simpl in H.
    + left. rewrite (C0 E). injection H as H.
      apply andb_prop in H as [_ H]. now apply strictEq_eq.
    + left. rewrite (C1 E). injection H as H.
      apply andb_prop in H as [_ H]. now apply strictEq_eq.
    + right. split; [exact E |]. intros ->. discriminate.
    + left. rewrite (C3 E). injection H as H. now apply strictEq_eq.
    + left. rewrite (C4 E). injection H as H. now apply strictEq_eq.
    + left. rewrite (C5 E). injection H as H. now apply strictEq_eq.
    + left. rewrite (C6 E). injection H as H. eapply checkMoveSeven_white, H.
Qed.

Lemma attemptPly_accepted (fuel : nat) (pc : cell) (r c : Z) (g g' : gameState) :
  attemptPly fuel pc r c g = Ok (Valid g') <->
  isMoveValid fuel pc r c g = Ok true /\
  writeCell (board g) r c pc = Ok (board g') /\
  moves g' = moves g ++ [Move r c pc false false].
Proof.
  unfold attemptPly.
  destruct (isMoveValid fuel pc r c g) as [[|] | |]; simpl;
    try (split; [discriminate | intros [? _]; discriminate]).
  destruct (writeCell (board g) r c pc) as [b | |]; simpl;
    try (split; [discriminate | intros (_ & ? & _); discriminate]).
  split.
  - intros [= <-]. auto.
  - intros (_ & [= ->] & Hm). destruct g' as [b' l']. simpl in *. now subst.
Qed.

Lemma attemptPass_accepted (pc : cell) (g g' : gameState) :
  attemptPass pc g = Ok (Valid g') <->
  3 <= movesMade g /\ pc = colourToMove g /\
  g' = GameState (board g) (moves g ++ [Move (-1) (-1) pc false true]).
Proof.
  unfold attemptPass.
  destruct (movesMade g <? 3) eqn:E3.
  { split; [discriminate | lia]. }
  destruct (checkNormalMove pc g) eqn:En; simpl.
  - apply checkNormalMove_true in En. split.
    + intros [= <-]. repeat split; auto. lia.
    + intros (_ & _ & ->). reflexivity.
  - split; [discriminate |]. intros (_ & Hpc & _).
    apply checkNormalMove_true in Hpc. congruence.
Qed.

Lemma attemptRemove_accepted (r c : Z) (g g' : gameState) :
  attemptRemove r c g = Ok (Valid g') ->
  movesMade g = 6 /\
  (exists m, (arrayGet (moves g) 4 = Some m \/ arrayGet (moves g) 5 = Some m)
             /\ row m = r /\ column m = c) /\
  writeCell (board g) r c Removed = Ok (board g') /\
  moves g' = moves g ++ [Move r c Black true true].
Proof.
  intros H.
  assert (Hr : 0 <= r < Z.of_nat (length (board g))).
  { destruct (Z_lt_dec r 0) as [Hneg | Hpos];
      [| destruct (Z_le_dec (Z.of_nat (length (board g))) r) as [Hbig | Hin]];
      try lia.
    - exfalso. unfold attemptRemove in H.
      rewrite (writeCell_row_outside (board g) r c Removed) in H by lia.
      destruct (negb (movesMade g =? 6)); [discriminate |].
      destruct (isAt _ r c) as [[|] | |]; simpl in H; try discriminate.
      destruct (isAt _ r c) as [[|] | |]; simpl in H; discriminate.
    - exfalso. unfold attemptRemove in H.
      rewrite (writeCell_row_outside (board g) r c Removed) in H by lia.
      destruct (negb (movesMade g =? 6)); [discriminate |].
      destruct (isAt _ r c) as [[|] | |]; simpl in H; try discriminate.
      destruct (isAt _ r c) as [[|] | |]; simpl in H; discriminate. }
  apply (attemptRemove_inside_board r c g Hr) in H. exact H.
Qed.

(** X1.  Whatever the position, an accepted action was asked for by the
    colour whose turn it is: an accepted placement is by [colourToMove],
    except at the third move, where [checkMoveThree] only refuses White and
    so lets every other value through; an accepted pass is by
    [colourToMove] and comes after at least three moves; a removal is only
    accepted with exactly six moves logged, when White is to move. *)
Theorem accepted_by_colour_to_move (fuel : nat) (a : action) (g g' : gameState) :
  perform fuel a g = Ok (Valid g') ->
  match a with
  | Ply pc _ _ => pc = colourToMove g \/ (movesMade g = 2 /\ pc <> White)
  | Remove _ _ => movesMade g = 6 /\ colourToMove g = White
  | Pass pc => pc = colourToMove g /\ 3 <= movesMade g
  end.
Proof.
  destruct a as [pc r c | r c | pc]; simpl; intros H.
  - apply attemptPly_accepted in H as [H _].
    eapply isMoveValid_colour, H.
  - apply attemptRemove_accepted in H as [E _].
    split; [exact E |]. now apply colourToMove_cases.
  - apply attemptPass_accepted in H. tauto.
Qed.

Lemma accepted_by_colour_to_move_witness :
  Removed = colourToMove verticalOpening \/
  (movesMade verticalOpening = 2 /\ Removed <> White).
Proof.
  apply (accepted_by_colour_to_move 4 (Ply Removed 5 7) verticalOpening
           (GameState (<[5%nat := <[7%nat := Removed]> (replicate 15 Null)]>
                         (board verticalOpening))
                      (moves verticalOpening ++ [Move 5 7 Removed false false]))).
  vm_compute. reflexivity.
Defined.

(** X2.  From the fourth move on, the seventh apart, a placement is
    accepted exactly when the colour is the one to move and the cell is on
    the board and holds [null] or ["removed"]; the new position has the
    stone in that cell and the move at the end of the log. *)
Theorem placement_after_opening (fuel : nat) (pc : cell) (r c : Z)
    (g g' : gameState) :
  3 <= movesMade g -> movesMade g <> 6 ->
  attemptPly fuel pc r c g = Ok (Valid g') <->
  pc = colourToMove g /\
  (cellAt (board g) r c = Some Null \/ cellAt (board g) r c = Some Removed) /\
  writeCell (board g) r c pc = Ok (board g') /\
  moves g' = moves g ++ [Move r c pc false false].
Proof.
  intros H3 H6. rewrite attemptPly_accepted.
  assert (Hvalid : isMoveValid fuel pc r c g = Ok true <->
                   pc = colourToMove g /\
                   (cellAt (board g) r c = Some Null \/
                    cellAt (board g) r c = Some Removed)).
  { split.
    - intros H. split; [| eapply isMoveValid_target, H].
      destruct (isMoveValid_colour _ _ _ _ _ H) as [E | [E _]]; [exact E | lia].
    - intros [Hpc Hcell].
      assert (Hread : exists v, readCell (board g) r c = Ok v /\
                                strictNe v Null && strictNe v Removed = false).
      { destruct Hcell as [Hcell | Hcell];
          apply readCell_cellAt in Hcell; try discriminate; eauto. }
      destruct Hread as (v & Hread & Hempty).
      destruct (readCell_rows _ _ _ _ Hread) as [rows Hrows].
      pose proof (colourToMove_cases g) as (_ & _ & _ & C3 & C4 & C5 & _).
      destruct (Z_le_gt_dec 7 (movesMade g)) as [Hn | Hn].
      + rewrite isMoveValid_from_eight by exact Hn.
        rewrite Hread. simpl. rewrite Hempty, Hrows. simpl.
        f_equal. now apply checkNormalMove_true.
      + unfold isMoveValid, nextMoveNumber.
        rewrite Hread. simpl. rewrite Hempty, Hrows. simpl.
        assert (Hcases : movesMade g = 3 \/ movesMade g = 4 \/ movesMade g = 5)
          by lia.
        destruct Hcases as [E | [E | E]]; rewrite E; simpl; f_equal;
          apply strictEq_eq; rewrite Hpc; auto. }
  rewrite Hvalid. tauto.
Qed.

Lemma placement_after_opening_witness :
  attemptPly 4 White 0 0 (gameOf sharedOpening)
  = Ok (Valid (gameOf (sharedOpening ++ [Ply White 0 0]))) <->
  White = colourToMove (gameOf sharedOpening) /\
  (cellAt (board (gameOf sharedOpening)) 0 0 = Some Null \/
   cellAt (board (gameOf sharedOpening)) 0 0 = Some Removed) /\
  writeCell (board (gameOf sharedOpening)) 0 0 White
  = Ok (board (gameOf (sharedOpening ++ [Ply White 0 0]))) /\
  moves (gameOf (sharedOpening ++ [Ply White 0 0]))
  = moves (gameOf sharedOpening) ++ [Move 0 0 White false false].
Proof.
  apply placement_after_opening; vm_compute; discriminate.
Defined.

(** *** What a write changes *)

Lemma arraySet_inside (line : list cell) (c : Z) (v : cell) :
  0 <= c < Z.of_nat (length line) ->
  arraySet line c v = <[Z.to_nat c := v]> line.
Proof.
  intros Hc. unfold arraySet.
  replace (c <? 0) with false by lia.
  now replace (c <? Z.of_nat (length line)) with true by lia.
Qed.

Lemma arraySet_keeps (line : list cell) (c c' : Z) (v x : cell) :
  c' <> c -> arrayGet line c' = Some x -> arrayGet (arraySet line c v) c' = Some x.
Proof.
  intros Hne Hx. apply arrayGet_Some in Hx as [Hc' Hx].
  apply arrayGet_Some. split; [exact Hc' |].
  unfold arraySet. destruct (c <? 0) eqn:Eneg; [exact Hx |].
  destruct (c <? Z.of_nat (length line)) eqn:Ein.
  - rewrite list_lookup_insert_ne by lia. exact Hx.
  - now apply lookup_app_l_Some.
Qed.

Lemma cellAt_Some (b : list (list cell)) (r c : Z) (x : cell) :
  cellAt b r c = Some x <->
  exists line, 0 <= r /\ b !! Z.to_nat r = Some line /\
               0 <= c /\ line !! Z.to_nat c = Some x.
Proof.
  unfold cellAt. split.
  - destruct (arrayGet b r) as [line |] eqn:E; [| discriminate].
    apply arrayGet_Some in E as [Hr E]. intros Hx.
    apply arrayGet_Some in Hx as [Hc Hx]. eauto 6.
  - intros (line & Hr & E & Hc & Hx).
    rewrite (proj2 (arrayGet_Some b r line) (conj Hr E)).
    now apply arrayGet_Some.
Qed.

Lemma writeCell_keeps (b b' : list (list cell)) (r c r' c' : Z) (v x : cell) :
  writeCell b r c v = Ok b' ->
  (r', c') <> (r, c) ->
  cellAt b r' c' = Some x -> cellAt b' r' c' = Some x.
Proof.
  intros Hw Hne Hx. apply writeCell_Ok in Hw as (Hr & line & Hline & ->).
  apply cellAt_Some in Hx as (line' & Hr' & Hline' & Hc' & Hx).
  apply cellAt_Some.
  destruct (Z.eq_dec r' r) as [-> | Hrow].
  - exists (arraySet line c v). split; [lia |]. split.
    + apply list_lookup_insert_eq. apply lookup_lt_Some in Hline. exact Hline.
    + split; [exact Hc' |].
      assert (Hget : arrayGet (arraySet line c v) c' = Some x).
      { apply arraySet_keeps; [congruence |]. apply arrayGet_Some.
        split; [exact Hc' |]. congruence. }
      now apply arrayGet_Some in Hget.
  - exists line'. split; [exact Hr' |]. split; [| auto].
    rewrite list_lookup_insert_ne by lia. exact Hline'.
Qed.

Lemma writeCell_inside (b b' : list (list cell)) (r c : Z) (v x : cell) :
  writeCell b r c v = Ok b' ->
  cellAt b r c = Some x ->
  cellAt b' r c = Some v /\
  forall r' c', (r', c') <> (r, c) -> cellAt b' r' c' = cellAt b r' c'.
Proof.
  intros Hw Hx. apply writeCell_Ok in Hw as (Hr & line & Hline & ->).
  apply cellAt_Some in Hx as (line' & _ & Hline' & Hc & Hx).
  assert (line' = line) by congruence. subst line'.
  pose proof (lookup_lt_Some _ _ _ Hx) as Hlen.
  pose proof (lookup_lt_Some _ _ _ Hline) as Hrows.
  rewrite arraySet_inside by lia. split.
  - apply cellAt_Some. exists (<[Z.to_nat c := v]> line).
    split; [lia |]. split; [now apply list_lookup_insert_eq |].
    split; [exact Hc |]. now apply list_lookup_insert_eq.
  - intros r' c' Hne. unfold cellAt, arrayGet.
    destruct (0 <=? r') eqn:Er'; [| reflexivity].
    destruct (Z.eq_dec r' r) as [-> | Hrow].
    + rewrite list_lookup_insert_eq by exact Hrows. rewrite Hline.
      destruct (0 <=? c') eqn:Ec'; [| reflexivity].
      apply list_lookup_insert_ne. intros E. apply Hne. f_equal. lia.
    + now rewrite list_lookup_insert_ne by lia.
Qed.

Lemma writeCell_rectangular (w h : nat) (b b' : list (list cell)) (r c : Z)
    (v : cell) :
  writeCell b r c v = Ok b' ->
  rectangular w h b -> 0 <= c < Z.of_nat h -> rectangular w h b'.
Proof.
  intros Hw [Hrows Hlines] Hc.
  apply writeCell_Ok in Hw as (Hr & line & Hline & ->).
  assert (Hlen : length line = h).
  { eapply Forall_lookup_1 in Hlines; eauto. }
  split; [now rewrite length_insert |].
  apply Forall_insert; [exact Hlines |].
  rewrite arraySet_inside by lia. now rewrite length_insert.
Qed.

Lemma cellAt_rectangular (w h : nat) (b : list (list cell)) (r c : Z) (x : cell) :
  rectangular w h b -> cellAt b r c = Some x ->
  0 <= r < Z.of_nat w /\ 0 <= c < Z.of_nat h.
Proof.
  intros Hrect Hx.
  apply (cellAt_inside w h b r c Hrect). eauto.
Qed.

(** X3.  An accepted action leaves every cell alone but the one it names:
    a cell other than the target holds afterwards what it held before, and
    a pass hands back the board it was given.  A placement is only accepted
    on a cell that held [null] or ["removed"], so no stone is ever
    replaced by a placement; afterwards the cell holds the colour placed. *)
Theorem accepted_action_frame (fuel : nat) (a : action) (g g' : gameState) :
  perform fuel a g = Ok (Valid g') ->
  (forall r c x, target a <> Some (r, c) ->
                 cellAt (board g) r c = Some x -> cellAt (board g') r c = Some x) /\
  match a with
  | Ply pc r c =>
      (cellAt (board g) r c = Some Null \/ cellAt (board g) r c = Some Removed) /\
      cellAt (board g') r c = Some pc
  | Remove r c => True
  | Pass _ => board g' = board g
  end.
Proof.
  destruct a as [pc r c | r c | pc]; simpl; intros H.
  - apply attemptPly_accepted in H as (Hvalid & Hw & _).
    pose proof (isMoveValid_target _ _ _ _ _ Hvalid) as Hcell.
    split.
    + intros r' c' x Hne. eapply writeCell_keeps; [exact Hw | congruence].
    + split; [exact Hcell |].
      destruct Hcell as [Hcell | Hcell];
        now apply (writeCell_inside _ _ _ _ _ _ Hw Hcell).
  - apply attemptRemove_accepted in H as (_ & _ & Hw & _).
    split; [| exact I].
    intros r' c' x Hne. eapply writeCell_keeps; [exact Hw | congruence].
  - apply attemptPass_accepted in H as (_ & _ & ->). simpl. auto.
Qed.

Lemma accepted_action_frame_witness :
  (forall r c x, target (Ply White 6 7) <> Some (r, c) ->
                 cellAt (board afterFirstMove) r c = Some x ->
                 cellAt (board verticalOpening) r c = Some x) /\
  (cellAt (board afterFirstMove) 6 7 = Some Null \/
   cellAt (board afterFirstMove) 6 7 = Some Removed) /\
  cellAt (board verticalOpening) 6 7 = Some White.
Proof.
  apply (accepted_action_frame 4 (Ply White 6 7) afterFirstMove verticalOpening).
  vm_compute. reflexivity.
Defined.

(** *** Positions reached from a new game *)

Lemma perform_logged (fuel : nat) (a : action) (g g' : gameState) :
  perform fuel a g = Ok (Valid g') -> moves g' = moves g ++ [logged a].
Proof.
  destruct a as [pc r c | r c | pc]; simpl; intros H.
  - now apply attemptPly_accepted in H.
  - now apply attemptRemove_accepted in H.
  - apply attemptPass_accepted in H as (_ & _ & ->). reflexivity.
Qed.

Lemma logged_row (a : action) (r c : Z) :
  row (logged a) = r -> column (logged a) = c -> 0 <= r -> target a = Some (r, c).
Proof.
  destruct a as [pc r0 c0 | r0 c0 | pc]; simpl; intros; try lia; congruence.
Qed.

Lemma reachable_board_and_log (w h : Z) (input : cell) (g0 g : gameState)
    (acts : list action) :
  initiateGame w h input = Ok g0 ->
  reachable g0 acts g ->
  rectangular (Z.to_nat w) (Z.to_nat h) (board g) /\
  moves g = map logged acts /\
  Forall (onBoard w h) acts.
Proof.
  intros Hinit Hreach. apply initiateGame_Ok in Hinit as (Hw & Hh & ->).
  induction Hreach as [| acts g g' a fuel Hreach IH Hstep].
  - simpl. repeat split; auto.
    + apply length_replicate.
    + apply Forall_forall. intros line Hin.
      apply elem_of_replicate in Hin as [-> _]. apply length_replicate.
  - destruct IH as (Hrect & Hlog & Hon).
    pose proof (perform_logged _ _ _ _ Hstep) as Hmoves.
    assert (Hstays : onBoard w h a /\
                     rectangular (Z.to_nat w) (Z.to_nat h) (board g')).
    { destruct a as [pc r c | r c | pc]; simpl in Hstep.
      - apply attemptPly_accepted in Hstep as (Hvalid & Hwrite & _).
        assert (Hin : 0 <= r < w /\ 0 <= c < h).
        { destruct (isMoveValid_target _ _ _ _ _ Hvalid) as [Hcell | Hcell];
            apply (cellAt_rectangular _ _ _ _ _ _ Hrect) in Hcell; lia. }
        split; [exact Hin |].
        eapply writeCell_rectangular; [exact Hwrite | exact Hrect | lia].
      - apply attemptRemove_accepted in Hstep
          as (_ & (m & Hm & Hrow & Hcol) & Hwrite & _).
        assert (Hr : 0 <= r).
        { apply writeCell_Ok in Hwrite. lia. }
        assert (Hin : 0 <= r < w /\ 0 <= c < h).
        { assert (Hlogged : exists a0, a0 ∈ acts /\ m = logged a0).
          { rewrite Hlog in Hm.
            destruct Hm as [Hm | Hm]; apply arrayGet_Some in Hm as [_ Hm];
              apply list_lookup_fmap_Some in Hm as (a0 & -> & Ha0);
              exists a0; (split; [| reflexivity]); apply list_elem_of_lookup; eauto. }
          destruct Hlogged as (a0 & Ha0 & ->).
          rewrite Forall_forall in Hon. specialize (Hon a0 Ha0).
          unfold onBoard in Hon.
          rewrite (logged_row a0 r c Hrow Hcol Hr) in Hon. exact Hon. }
        split; [exact Hin |].
        eapply writeCell_rectangular; [exact Hwrite | exact Hrect | lia].
      - apply attemptPass_accepted in Hstep as (_ & _ & ->).
        split; [exact I | exact Hrect]. }
    destruct Hstays as [Ha Hrect'].
    split; [exact Hrect' |]. split.
    + rewrite Hmoves, Hlog, map_app. reflexivity.
    + apply Forall_app. split; [exact Hon |]. now constructor.
Qed.

(** X4.  In every position reached from [initiateGame w h] by accepted
    actions the board still has [w] rows of [h] cells, the log holds, in
    order, the move object of each accepted action, and every logged move
    is either a pass at [(-1, -1)] or names a cell of the board. *)
Theorem reachable_shape_and_log (w h : Z) (input : cell) (g0 g : gameState)
    (acts : list action) :
  initiateGame w h input = Ok g0 ->
  reachable g0 acts g ->
  rectangular (Z.to_nat w) (Z.to_nat h) (board g) /\
  moves g = map logged acts /\
  Forall (fun m => (row m = -1 /\ column m = -1) \/
                   (0 <= row m < w /\ 0 <= column m < h)) (moves g).
Proof.
  intros Hinit Hreach.
  destruct (reachable_board_and_log w h input g0 g acts Hinit Hreach)
    as (Hrect & Hlog & Hon).
  split; [exact Hrect |]. split; [exact Hlog |].
  rewrite Hlog. apply Forall_fmap.
  eapply Forall_impl; [exact Hon |].
  intros [pc r c | r c | pc]; unfold onBoard; simpl; auto.
Qed.

Lemma reachable_shape_and_log_witness :
  rectangular (Z.to_nat 15) (Z.to_nat 15) (board (gameOf passedOpening)) /\
  moves (gameOf passedOpening) = map logged passedOpening /\
  Forall (fun m => (row m = -1 /\ column m = -1) \/
                   (0 <= row m < 15 /\ 0 <= column m < 15))
         (moves (gameOf passedOpening)).
Proof.
  apply (reachable_shape_and_log 15 15 Null emptyGame).
  - reflexivity.
  - apply (playAll_reachable 4 passedOpening [] emptyGame emptyGame).
    + constructor.
    + vm_compute. reflexivity.
Defined.

(** *** The seventh move *)

Lemma flattenUpdated_items (idx : Z) (b : list (list cell)) (v : cell) :
  Item v ∈ flattenUpdated idx b -> exists r c, cellAt b r c = Some v.
Proof.
  assert (Hconcat : forall items : list (list flatItem),
             Item v ∈ concat items ->
             exists (i : nat) line, items !! i = Some line /\ Item v ∈ line).
  { intros items Hin. apply list_elem_of_In, in_concat in Hin as (line & Hline & Hv).
    apply list_elem_of_In, list_elem_of_lookup in Hline as [i Hi].
    apply list_elem_of_In in Hv. eauto. }
  assert (Hboard : forall (i : nat) line,
             map (map Item) b !! i = Some line -> Item v ∈ line ->
             exists r c, cellAt b r c = Some v).
  { intros i line Hi Hv.
    apply list_lookup_fmap_Some in Hi as (cells & -> & Hcells).
    apply list_elem_of_fmap in Hv as (x & [= <-] & Hx).
    apply list_elem_of_lookup in Hx as [j Hj].
    exists (Z.of_nat i), (Z.of_nat j). apply cellAt_Some.
    exists cells. rewrite !Nat2Z.id. repeat split; auto; lia. }
  unfold flattenUpdated.
  destruct (_ || _).
  - intros Hin. apply Hconcat in Hin as (i & line & Hi & Hv). eauto.
  - intros Hin. apply Hconcat in Hin as (i & line & Hi & Hv).
    set (k := Z.to_nat _) in Hi.
    destruct (Nat.eq_dec i k) as [-> | Hne].
    + destruct (decide (k < length (map (map Item) b))%nat) as [Hk | Hk].
      * rewrite list_lookup_insert_eq in Hi by exact Hk.
        injection Hi as <-. apply list_elem_of_singleton in Hv. discriminate.
      * rewrite list_insert_ge in Hi by lia. eauto.
    + rewrite list_lookup_insert_ne in Hi by congruence. eauto.
Qed.

Lemma checkMoveSeven_needs_removed (pc : cell) (r c : Z) (b : list (list cell)) :
  checkMoveSeven pc r c b = true -> exists r' c', cellAt b r' c' = Some Removed.
Proof.
  unfold checkMoveSeven. destruct (strictNe pc White); [discriminate |].
  destruct (existsb (isItem Removed) (flattenUpdated r b)) eqn:E;
    [| discriminate].
  intros _. apply existsb_exists in E as (x & Hx & Hrem).
  destruct x as [v |]; [| discriminate]. simpl in Hrem.
  apply strictEq_eq in Hrem as ->.
  apply (flattenUpdated_items r). now apply list_elem_of_In.
Qed.

Lemma reachable_no_removed (w h : Z) (g0 g : gameState) (acts : list action) :
  initiateGame w h Null = Ok g0 ->
  reachable g0 acts g ->
  Forall twoColours acts ->
  (length acts <= 6)%nat ->
  forall r c, cellAt (board g) r c <> Some Removed.
Proof.
  intros Hinit Hreach. apply initiateGame_Ok in Hinit as (Hw & Hh & ->).
  induction Hreach as [| acts g g' a fuel Hreach IH Hstep];
    intros Hcol Hlen r c.
  - simpl. intros Hcell. apply cellAt_Some in Hcell as (line & _ & Hline & _ & Hx).
    apply lookup_replicate in Hline as [-> _].
    apply lookup_replicate in Hx as [? _]. discriminate.
  - apply Forall_app in Hcol as [Hcol Ha]. rewrite length_app in Hlen.
    simpl in Hlen. specialize (IH Hcol ltac:(lia)).
    apply Forall_inv in Ha.
    pose proof (reachable_invariant _ _ _ Hreach) as [Hcount _]. simpl in Hcount.
    destruct a as [pc r0 c0 | r0 c0 | pc]; simpl in Hstep.
    + apply attemptPly_accepted in Hstep as (Hvalid & Hwrite & _).
      intros Hcell.
      destruct (decide ((r, c) = (r0, c0))) as [[= -> ->] | Hne].
      * destruct (isMoveValid_target _ _ _ _ _ Hvalid) as [Hold | Hold];
          [| now apply IH in Hold].
        destruct (writeCell_inside _ _ _ _ _ _ Hwrite Hold) as [Hnew _].
        simpl in Ha. destruct Ha; congruence.
      * destruct (isMoveValid_target _ _ _ _ _ Hvalid) as [Hold | Hold];
          [| now apply IH in Hold].
        destruct (writeCell_inside _ _ _ _ _ _ Hwrite Hold) as [_ Hrest].
        rewrite Hrest in Hcell by exact Hne. now apply IH in Hcell.
    + apply attemptRemove_accepted in Hstep as (E6 & _).
      unfold movesMade in E6. lia.
    + apply attemptPass_accepted in Hstep as (_ & _ & ->). apply IH.
Qed.

(** X5.  With six moves logged the engine accepts no placement: in a game
    that started from [initiateGame] and in which only black and white
    stones were placed, no cell holds ["removed"] before the removal, and
    [checkMoveSeven] asks for one.  Whatever the colour and the cell,
    [attemptPly] answers [{valid: false}] or throws; the game goes on with
    a removal or a pass. *)
Theorem no_placement_at_move_seven (w h : Z) (g0 g : gameState)
    (acts : list action) (fuel : nat) (pc : cell) (r c : Z) :
  initiateGame w h Null = Ok g0 ->
  reachable g0 acts g ->
  Forall twoColours acts ->
  length acts = 6%nat ->
  isMoveValid fuel pc r c g = Ok false \/
  isMoveValid fuel pc r c g = Throw TypeError.
Proof.
  intros Hinit Hreach Hcol Hlen.
  pose proof (reachable_no_removed w h g0 g acts Hinit Hreach Hcol
                ltac:(lia)) as Hnone.
  pose proof (reachable_invariant _ _ _ Hreach) as [Hcount _].
  apply initiateGame_Ok in Hinit as (_ & _ & ->). simpl in Hcount.
  unfold isMoveValid, nextMoveNumber, movesMade. rewrite Hcount, Hlen.
  unfold readCell.
  destruct (arrayGet (board g) r) as [line |] eqn:Hline; [| now right].
  simpl. destruct (strictNe _ Null && strictNe _ Removed); [now left |].
  destruct (getBoardRowNumber (board g)) as [rows | e |] eqn:Hrows; simpl.
  - left. f_equal. destruct (checkMoveSeven pc r c (board g)) eqn:E;
      [| reflexivity].
    apply checkMoveSeven_needs_removed in E as (r' & c' & Hcell).
    now apply Hnone in Hcell.
  - unfold getBoardRowNumber in Hrows.
    destruct (board g); [injection Hrows as <-; now right | discriminate].
  - unfold getBoardRowNumber in Hrows. destruct (board g); discriminate.
Qed.

Lemma no_placement_at_move_seven_witness :
  isMoveValid 4 White 0 0 (gameOf (removelast sharedOpening)) = Ok false \/
  isMoveValid 4 White 0 0 (gameOf (removelast sharedOpening)) = Throw TypeError.
Proof.
  apply (no_placement_at_move_seven 15 15 emptyGame
           (gameOf (removelast sharedOpening)) (removelast sharedOpening)).
  - reflexivity.
  - apply (playAll_reachable 4 (removelast sharedOpening) [] emptyGame emptyGame).
    + constructor.
    + vm_compute. reflexivity.
  - unfold sharedOpening. simpl.
    repeat (constructor; [simpl; auto |]). constructor.
  - reflexivity.
Defined.

(** *** The first two moves *)

Lemma cellAt_replicate (w h : nat) (v : cell) (r c : Z) :
  cellAt (replicate w (replicate h v)) r c
  = if (0 <=? r) && (r <? Z.of_nat w) && (0 <=? c) && (c <? Z.of_nat h)
    then Some v else None.
Proof.
  unfold cellAt, arrayGet.
  destruct (0 <=? r) eqn:Er; simpl; [| reflexivity].
  destruct (r <? Z.of_nat w) eqn:Ew; simpl.
  - rewrite (proj2 (lookup_replicate w (replicate h v) (replicate h v) (Z.to_nat r)))
      by (split; [reflexivity | lia]).
    destruct (0 <=? c) eqn:Ec; simpl; [| reflexivity].
    destruct (c <? Z.of_nat h) eqn:Eh.
    + apply lookup_replicate. split; [reflexivity | lia].
    + apply lookup_ge_None. rewrite length_replicate. lia.
  - rewrite (proj2 (lookup_ge_None (replicate w (replicate h v)) (Z.to_nat r)));
      [reflexivity |].
    rewrite length_replicate. lia.
Qed.

Lemma readCell_of_cellAt (b : list (list cell)) (r c : Z) (x : cell) :
  cellAt b r c = Some x -> readCell b r c = Ok x.
Proof.
  unfold cellAt, readCell. destruct (arrayGet b r); [| discriminate].
  now intros ->.
Qed.

Lemma readCell_Ok (b : list (list cell)) (r c : Z) (x : cell) :
  readCell b r c = Ok x ->
  cellAt b r c = Some x \/ (cellAt b r c = None /\ x = Undefined).
Proof.
  unfold cellAt, readCell. destruct (arrayGet b r); [| discriminate].
  destruct (arrayGet l c); simpl; intros [= <-]; auto.
Qed.

Lemma board_numbers (w h : nat) (b : list (list cell)) :
  rectangular w h b -> (0 < w)%nat ->
  getBoardRowNumber b = Ok (Z.of_nat h) /\ getBoardColumnNumber b = Z.of_nat w.
Proof.
  intros [Hrows Hlines] Hw. unfold getBoardRowNumber, getBoardColumnNumber.
  rewrite Hrows. split; [| reflexivity].
  destruct b as [| line rest]; [simpl in Hrows; lia |].
  apply Forall_inv in Hlines. now rewrite Hlines.
Qed.

Lemma attemptPly_valid (fuel : nat) (pc : cell) (r c : Z) (g : gameState) :
  (exists g', attemptPly fuel pc r c g = Ok (Valid g')) <->
  isMoveValid fuel pc r c g = Ok true.
Proof.
  split.
  - intros [g' H]. now apply attemptPly_accepted in H.
  - intros H. unfold attemptPly. rewrite H. simpl.
    pose proof (isMoveValid_target _ _ _ _ _ H) as Hin.
    assert (Hrow : exists line, arrayGet (board g) r = Some line).
    { unfold cellAt in Hin. destruct (arrayGet (board g) r); [eauto |].
      destruct Hin; discriminate. }
    destruct Hrow as [line Hrow]. unfold writeCell. rewrite Hrow. simpl. eauto.
Qed.

Lemma isMoveValid_first (w h : Z) (fuel : nat) (pc : cell) (r c : Z) :
  0 <= w -> 0 <= h ->
  isMoveValid fuel pc r c
    (GameState (replicate (Z.to_nat w) (replicate (Z.to_nat h) Null)) [])
  = Ok true <->
  pc = Black /\ r = h / 2 /\ c = w / 2 /\ h / 2 < w /\ w / 2 < h.
Proof.
  intros Hw Hh.
  set (b := replicate (Z.to_nat w) (replicate (Z.to_nat h) Null)).
  assert (Hcell : forall r c, cellAt b r c
            = if (0 <=? r) && (r <? w) && (0 <=? c) && (c <? h)
              then Some Null else None).
  { intros r' c'. unfold b. rewrite cellAt_replicate.
    now rewrite !Z2Nat.id by lia. }
  assert (Hnumbers : 0 < w -> getBoardRowNumber b = Ok h /\
                              getBoardColumnNumber b = w).
  { intros Hpos.
    destruct (board_numbers (Z.to_nat w) (Z.to_nat h) b) as [Hrows Hcols].
    - split; [apply length_replicate |]. apply Forall_forall.
      intros line Hin. apply elem_of_replicate in Hin as [-> _].
      apply length_replicate.
    - lia.
    - rewrite Hrows, Hcols. rewrite !Z2Nat.id by lia. auto. }
  split.
  - intros H. pose proof (isMoveValid_target _ _ _ _ _ H) as Hin.
    simpl in Hin. rewrite Hcell in Hin.
    destruct ((0 <=? r) && (r <? w) && (0 <=? c) && (c <? h)) eqn:E;
      [| destruct Hin; discriminate].
    rewrite !andb_true_iff in E.
    unfold isMoveValid in H. simpl in H.
    rewrite (readCell_of_cellAt b r c Null) in H.
    2: { rewrite Hcell. destruct E as [[[-> ->] ->] ->]. reflexivity. }
    simpl in H. destruct Hnumbers as [Hrows Hcols]; [lia |].
    rewrite Hrows, Hcols in H.
    simpl in H. unfold half in H. injection H as H.
    apply andb_prop in H as [H Hpc]. apply andb_prop in H as [Hc Hr].
    apply strictEq_eq in Hpc. split; [exact Hpc | lia].
  - intros (-> & -> & -> & Hr & Hc).
    assert (Hw1 : 0 <= w / 2) by (apply Z.div_pos; lia).
    assert (Hh1 : 0 <= h / 2) by (apply Z.div_pos; lia).
    unfold isMoveValid. simpl.
    rewrite (readCell_of_cellAt b (h / 2) (w / 2) Null).
    2: { rewrite Hcell.
         replace (0 <=? h / 2) with true by lia.
         replace (h / 2 <? w) with true by lia.
         replace (0 <=? w / 2) with true by lia.
         now replace (w / 2 <? h) with true by lia. }
    simpl. destruct Hnumbers as [Hrows Hcols]; [lia |].
    rewrite Hrows, Hcols. simpl.
    unfold half. now rewrite !Z.eqb_refl.
Qed.

(** X6.  On the board that [initiateGame w h] returns, the first placement
    is accepted exactly when it is Black's and names row [h / 2] and column
    [w / 2], provided the board has such a cell.  [isMoveValid] takes the
    middle row from the length of a row and the middle column from the
    number of rows; on a square board this is the centre, on a board with
    fewer rows than half a row's length no first move is accepted at all. *)
Theorem first_move (w h : Z) (g0 : gameState) (fuel : nat) (pc : cell)
    (r c : Z) :
  initiateGame w h Null = Ok g0 ->
  (exists g1, attemptPly fuel pc r c g0 = Ok (Valid g1)) <->
  pc = Black /\ r = h / 2 /\ c = w / 2 /\ h / 2 < w /\ w / 2 < h.
Proof.
  intros Hinit. apply initiateGame_Ok in Hinit as (Hw & Hh & ->).
  rewrite attemptPly_valid. now apply isMoveValid_first.
Qed.

Lemma first_move_witness :
  (exists g1, attemptPly 4 Black 7 7 emptyGame = Ok (Valid g1)) <->
  Black = Black /\ 7 = 15 / 2 /\ 7 = 15 / 2 /\ 15 / 2 < 15 /\ 15 / 2 < 15.
Proof.
  apply (first_move 15 15 emptyGame). reflexivity.
Defined.

Lemma rectangular_replicate (w h : nat) (v : cell) :
  rectangular w h (replicate w (replicate h v)).
Proof.
  split; [apply length_replicate |]. apply Forall_forall.
  intros line Hin. apply elem_of_replicate in Hin as [-> _].
  apply length_replicate.
Qed.

(** X7.  After the first move the second placement is accepted exactly
    when it is White's and names a free cell of the board that is at most
    one row and one column away from row [h / 2], column [w / 2], where the
    first stone lies. *)
Theorem second_move (w h : Z) (g0 g1 : gameState) (fuel1 fuel : nat)
    (pc1 pc : cell) (r1 c1 r c : Z) :
  initiateGame w h Null = Ok g0 ->
  attemptPly fuel1 pc1 r1 c1 g0 = Ok (Valid g1) ->
  (exists g2, attemptPly fuel pc r c g1 = Ok (Valid g2)) <->
  pc = White /\ (r, c) <> (h / 2, w / 2) /\
  Z.abs (r - h / 2) <= 1 /\ Z.abs (c - w / 2) <= 1 /\
  0 <= r < w /\ 0 <= c < h.
Proof.
  intros Hinit Hfirst. apply initiateGame_Ok in Hinit as (Hw & Hh & ->).
  apply attemptPly_accepted in Hfirst as (Hvalid1 & Hwrite & Hmoves).
  apply isMoveValid_first in Hvalid1 as (-> & -> & -> & Hr1 & Hc1); try lia.
  simpl in Hwrite, Hmoves.
  set (b := replicate (Z.to_nat w) (replicate (Z.to_nat h) Null)) in *.
  assert (Hw1 : 0 <= w / 2) by (apply Z.div_pos; lia).
  assert (Hh1 : 0 <= h / 2) by (apply Z.div_pos; lia).
  assert (Hcell : forall r c, cellAt b r c
            = if (0 <=? r) && (r <? w) && (0 <=? c) && (c <? h)
              then Some Null else None).
  { intros r' c'. unfold b. rewrite cellAt_replicate.
    now rewrite !Z2Nat.id by lia. }
  assert (Hcentre : cellAt b (h / 2) (w / 2) = Some Null).
  { rewrite Hcell.
    replace (0 <=? h / 2) with true by lia.
    replace (h / 2 <? w) with true by lia.
    replace (0 <=? w / 2) with true by lia.
    now replace (w / 2 <? h) with true by lia. }
  destruct (writeCell_inside _ _ _ _ _ _ Hwrite Hcentre) as [Hstone Hrest].
  assert (Hrect : rectangular (Z.to_nat w) (Z.to_nat h) (board g1)).
  { eapply writeCell_rectangular; [exact Hwrite | apply rectangular_replicate | lia]. }
  destruct (board_numbers _ _ _ Hrect ltac:(lia)) as [Hrows Hcols].
  rewrite !Z2Nat.id in Hrows, Hcols by lia.
  assert (Hmade : nextMoveNumber g1 = 2).
  { unfold nextMoveNumber, movesMade. now rewrite Hmoves. }
  rewrite attemptPly_valid. split.
  - intros H. pose proof (isMoveValid_target _ _ _ _ _ H) as Hin.
    assert (Hne : (r, c) <> (h / 2, w / 2)).
    { intros [= -> ->]. rewrite Hstone in Hin. destruct Hin; discriminate. }
    rewrite Hrest in Hin by exact Hne. rewrite Hcell in Hin.
    destruct ((0 <=? r) && (r <? w) && (0 <=? c) && (c <? h)) eqn:E;
      [| destruct Hin; discriminate].
    rewrite !andb_true_iff in E.
    unfold isMoveValid in H.
    rewrite (readCell_of_cellAt (board g1) r c Null) in H.
    2: { rewrite Hrest by exact Hne. rewrite Hcell.
         destruct E as [[[-> ->] ->] ->]. reflexivity. }
    simpl in H. rewrite Hrows, Hcols, Hmade in H. simpl in H.
    injection H as H. apply andb_prop in H as [Hnext Hpc].
    apply strictEq_eq in Hpc. unfold isNextTo, half in Hnext.
    apply andb_prop in Hnext as [Hnc Hnr].
    split; [exact Hpc |]. split; [exact Hne |]. lia.
  - intros (-> & Hne & Hnr & Hnc & Hr & Hc).
    unfold isMoveValid.
    rewrite (readCell_of_cellAt (board g1) r c Null).
    2: { rewrite Hrest by exact Hne. rewrite Hcell.
         replace (0 <=? r) with true by lia.
         replace (r <? w) with true by lia.
         replace (0 <=? c) with true by lia.
         now replace (c <? h) with true by lia. }
    simpl. rewrite Hrows, Hcols, Hmade. simpl. f_equal.
    unfold isNextTo, half. rewrite andb_true_r. apply andb_true_intro. lia.
Qed.

Lemma second_move_witness :
  (exists g2, attemptPly 4 White 6 7 afterFirstMove = Ok (Valid g2)) <->
  White = White /\ (6, 7) <> (15 / 2, 15 / 2) /\
  Z.abs (6 - 15 / 2) <= 1 /\ Z.abs (7 - 15 / 2) <= 1 /\
  0 <= 6 < 15 /\ 0 <= 7 < 15.
Proof.
  apply (second_move 15 15 emptyGame afterFirstMove 4 4 Black White 7 7 6 7);
    reflexivity.
Defined.

(** *** Draws *)

Lemma arrayGet_last {A : Type} (l : list A) (x : A) :
  arrayGet (l ++ [x]) (Z.of_nat (length (l ++ [x])) - 1) = Some x.
Proof.
  apply arrayGet_Some. rewrite length_app. simpl. split; [lia |].
  apply list_lookup_middle. lia.
Qed.

Lemma arrayGet_second_last {A : Type} (l : list A) (x y : A) :
  arrayGet (l ++ [x; y]) (Z.of_nat (length (l ++ [x; y])) - 2) = Some x.
Proof.
  apply arrayGet_Some. rewrite length_app. simpl. split; [lia |].
  apply list_lookup_middle. lia.
Qed.

Lemma two_last {A : Type} (l : list A) :
  (2 <= length l)%nat -> exists pre x y, l = pre ++ [x; y].
Proof.
  intros Hlen.
  destruct (rev l) as [| y [| x rest]] eqn:E.
  - apply (f_equal (@length A)) in E. rewrite length_rev in E. simpl in E. lia.
  - apply (f_equal (@length A)) in E. rewrite length_rev in E. simpl in E. lia.
  - exists (rev rest), x, y. apply (f_equal (@rev A)) in E.
    rewrite rev_involutive in E. rewrite E. simpl.
    now rewrite <- app_assoc.
Qed.

(** X8.  Two passes in a row end the game: on the position that two
    consecutive accepted passes lead to, [checkDraw] answers that the game
    is drawn, because the board is full if it is, and else because the last
    two moves were passes.  The two passes may be by the same colour (the
    fifth and the sixth move are both Black's). *)
Theorem two_passes_draw (pc1 pc2 : cell) (g g1 g2 : gameState) :
  attemptPass pc1 g = Ok (Valid g1) ->
  attemptPass pc2 g1 = Ok (Valid g2) ->
  checkDraw g2
  = Ok (DrawOutcome true
          (Some (if isBoardFull (board g) then "The board is full."
                 else "The last two moves were passes."))).
Proof.
  intros H1 H2.
  apply attemptPass_accepted in H1 as (H3 & _ & ->).
  apply attemptPass_accepted in H2 as (_ & _ & ->).
  unfold checkDraw, movesMade in *. cbn [board moves].
  set (m1 := Move (-1) (-1) pc1 false true).
  set (m2 := Move (-1) (-1) pc2 false true).
  assert (Hlen : length ((moves g ++ [m1]) ++ [m2]) = (length (moves g) + 2)%nat).
  { rewrite !length_app. simpl. lia. }
  replace (Z.of_nat (length ((moves g ++ [m1]) ++ [m2])) <? 3) with false by lia.
  destruct (isBoardFull (board g)); [reflexivity |].
  rewrite arrayGet_last. cbn [rowOf bind row m2].
  change (-1 =? -1) with true. cbv iota.
  rewrite <- app_assoc. cbn [app].
  rewrite arrayGet_second_last. reflexivity.
Qed.

Lemma two_passes_draw_witness :
  checkDraw (gameOf passedOpening)
  = Ok (DrawOutcome true
          (Some (if isBoardFull (board (gameOf (take 4 passedOpening)))
                 then "The board is full."
                 else "The last two moves were passes."))).
Proof.
  apply (two_passes_draw Black Black (gameOf (take 4 passedOpening))
           (gameOf (take 5 passedOpening)) (gameOf passedOpening));
    vm_compute; reflexivity.
Defined.

Lemma logged_pass (w h : Z) (a : action) :
  onBoard w h a -> (row (logged a) =? -1) = isPass a.
Proof.
  destruct a as [pc r c | r c | pc]; unfold onBoard; simpl; try reflexivity;
    intros; lia.
Qed.

(** X9.  In a position reached from [initiateGame] by the accepted actions
    [acts], [checkDraw] returns, and what it returns is fixed by the number
    of actions, by whether a cell of the board still holds [null], and by
    whether the last two actions were passes: it reads a pass off row [-1]
    of a logged move, and no accepted placement or removal logs that row. *)
Theorem checkDraw_of_actions (w h : Z) (input : cell) (g0 g : gameState)
    (acts : list action) :
  initiateGame w h input = Ok g0 ->
  reachable g0 acts g ->
  checkDraw g
  = Ok (if (length acts <? 3)%nat
        then DrawOutcome false (Some "The game has not progressed far enough.")
        else if isBoardFull (board g)
        then DrawOutcome true (Some "The board is full.")
        else if endsWithTwoPasses acts
        then DrawOutcome true (Some "The last two moves were passes.")
        else DrawOutcome false None).
Proof.
  intros Hinit Hreach.
  destruct (reachable_board_and_log w h input g0 g acts Hinit Hreach)
    as (_ & Hlog & Hon).
  unfold checkDraw, movesMade. rewrite Hlog, length_map.
  destruct (length acts <? 3)%nat eqn:E3.
  { apply Nat.ltb_lt in E3. now replace (Z.of_nat (length acts) <? 3) with true by lia. }
  apply Nat.ltb_ge in E3.
  replace (Z.of_nat (length acts) <? 3) with false by lia.
  destruct (isBoardFull (board g)); [reflexivity |].
  destruct (two_last acts ltac:(lia)) as (pre & a1 & a2 & ->).
  apply Forall_app in Hon as [_ Hon].
  pose proof (Forall_inv Hon) as Hon1.
  pose proof (Forall_inv (Forall_inv_tail Hon)) as Hon2.
  rewrite <- (length_map logged (pre ++ [a1; a2])).
  rewrite map_app. simpl map.
  rewrite arrayGet_second_last.
  replace (map logged pre ++ [logged a1; logged a2])
    with ((map logged pre ++ [logged a1]) ++ [logged a2])
    by (now rewrite <- app_assoc).
  rewrite arrayGet_last. simpl.
  rewrite (logged_pass w h a2 Hon2), (logged_pass w h a1 Hon1).
  unfold endsWithTwoPasses. rewrite rev_app_distr. simpl.
  destruct a2, a1; reflexivity.
Qed.

Lemma checkDraw_of_actions_witness :
  checkDraw (gameOf sharedOpening)
  = Ok (if (length sharedOpening <? 3)%nat
        then DrawOutcome false (Some "The game has not progressed far enough.")
        else if isBoardFull (board (gameOf sharedOpening))
        then DrawOutcome true (Some "The board is full.")
        else if endsWithTwoPasses sharedOpening
        then DrawOutcome true (Some "The last two moves were passes.")
        else DrawOutcome false None).
Proof.
  apply (checkDraw_of_actions 15 15 Null emptyGame).
  - reflexivity.
  - apply (playAll_reachable 4 sharedOpening [] emptyGame emptyGame).
    + constructor.
    + vm_compute. reflexivity.
Defined.

(** *** The move list in words *)

Lemma perform_row (fuel : nat) (a : action) (g g' : gameState) (r c : Z) :
  perform fuel a g = Ok (Valid g') -> target a = Some (r, c) -> 0 <= r.
Proof.
  destruct a as [pc r0 c0 | r0 c0 | pc]; simpl; intros H [= <- <-].
  - apply attemptPly_accepted in H as (_ & Hw & _). apply writeCell_Ok in Hw. lia.
  - apply attemptRemove_accepted in H as (_ & _ & Hw & _).
    apply writeCell_Ok in Hw. lia.
Qed.

(** X10.  Every accepted action adds one line to [formattedMoves] and
    leaves the lines before it as they were; the line carries the number of
    the move, and says who played where, that White removed a stone and
    where, or who passed.  An accepted placement or removal is never
    written up as a pass. *)
Theorem formattedMoves_accepted (fuel : nat) (a : action) (g g' : gameState) :
  perform fuel a g = Ok (Valid g') ->
  formattedMoves g' = formattedMoves g ++ [describe (movesMade g + 1) a].
Proof.
  intros H. unfold formattedMoves.
  rewrite (perform_logged _ _ _ _ H), imap_app. f_equal.
  cbn [imap]. rewrite Nat.add_0_r. fold (movesMade g). f_equal.
  unfold formatMove.
  destruct a as [pc r c | r c | pc]; cbn [logged row column removed playerColour].
  - pose proof (perform_row _ _ _ _ r c H eq_refl) as Hr.
    replace (r =? -1) with false by lia. reflexivity.
  - pose proof (perform_row _ _ _ _ r c H eq_refl) as Hr.
    replace (r =? -1) with false by lia. reflexivity.
  - reflexivity.
Qed.

Lemma formattedMoves_accepted_witness :
  formattedMoves (gameOf sharedOpening)
  = formattedMoves (gameOf (removelast sharedOpening))
    ++ [describe (movesMade (gameOf (removelast sharedOpening)) + 1) (Remove 5 9)].
Proof.
  apply (formattedMoves_accepted 4). vm_compute. reflexivity.
Defined.

(** *** Taking back the last move *)

Lemma writeCell_back (b b' : list (list cell)) (r c : Z) (v x : cell) :
  writeCell b r c v = Ok b' ->
  cellAt b r c = Some x ->
  writeCell b' r c x = Ok b.
Proof.
  intros Hw Hx. apply writeCell_Ok in Hw as (Hr & line & Hline & ->).
  apply cellAt_Some in Hx as (line' & _ & Hline' & Hc & Hx).
  assert (line' = line) by congruence. subst line'.
  pose proof (lookup_lt_Some _ _ _ Hx) as Hlen.
  pose proof (lookup_lt_Some _ _ _ Hline) as Hrows.
  unfold writeCell.
  rewrite (proj2 (arrayGet_Some (<[Z.to_nat r := arraySet line c v]> b) r
                    (arraySet line c v))).
  2: { split; [lia |]. now apply list_lookup_insert_eq. }
  f_equal. rewrite list_insert_insert_eq.
  rewrite (arraySet_inside line) by lia.
  rewrite arraySet_inside by (rewrite length_insert; lia).
  rewrite list_insert_insert_eq.
  rewrite (list_insert_id line) by exact Hx.
  now apply list_insert_id.
Qed.

(** X11.  [removeLastMove] undoes an accepted placement on an empty cell:
    it gives back the position the stone was placed on.  It does not undo a
    placement on a cell that held ["removed"]: the cell is left holding
    [null], so that the board differs from the one before the move. *)
Theorem removeLastMove_after_placement (fuel : nat) (pc : cell) (r c : Z)
    (g g' : gameState) :
  attemptPly fuel pc r c g = Ok (Valid g') ->
  (cellAt (board g) r c = Some Null -> removeLastMove g' = Ok g) /\
  (cellAt (board g) r c = Some Removed ->
   exists g'', removeLastMove g' = Ok g'' /\ moves g'' = moves g /\
               cellAt (board g'') r c = Some Null /\
               forall r' c', (r', c') <> (r, c) ->
                             cellAt (board g'') r' c' = cellAt (board g) r' c').
Proof.
  intros H. apply attemptPly_accepted in H as (_ & Hw & Hmoves).
  assert (Hlast : last (moves g') = Some (Move r c pc false false)
                  /\ removelast (moves g') = moves g).
  { rewrite Hmoves. split; [apply last_snoc | apply removelast_last]. }
  destruct Hlast as [Hlast Hrest]. split.
  - intros Hcell. unfold removeLastMove. rewrite Hlast. cbn [row column].
    rewrite (writeCell_back _ _ _ _ _ _ Hw Hcell). simpl.
    rewrite Hrest. now destruct g.
  - intros Hcell.
    destruct (writeCell_inside _ _ _ _ _ _ Hw Hcell) as [Hnew Hsame].
    assert (Hret : exists b'', writeCell (board g') r c Null = Ok b'').
    { unfold writeCell. apply writeCell_Ok in Hw as (Hr & line & Hline & ->).
      rewrite (proj2 (arrayGet_Some _ r (arraySet line c pc))); [eauto |].
      split; [lia |]. apply list_lookup_insert_eq.
      now apply lookup_lt_Some in Hline. }
    destruct Hret as [b'' Hret].
    destruct (writeCell_inside _ _ _ _ _ _ Hret Hnew) as [Hnull Hsame'].
    exists (GameState b'' (moves g)). unfold removeLastMove.
    rewrite Hlast. cbn [row column]. rewrite Hret. simpl. rewrite Hrest.
    split; [reflexivity |]. split; [reflexivity |]. split; [exact Hnull |].
    intros r' c' Hne. rewrite Hsame' by exact Hne. now apply Hsame.
Qed.

Lemma removeLastMove_after_placement_witness :
  (cellAt (board afterFirstMove) 6 7 = Some Null ->
   removeLastMove verticalOpening = Ok afterFirstMove) /\
  (cellAt (board afterFirstMove) 6 7 = Some Removed ->
   exists g'', removeLastMove verticalOpening = Ok g'' /\
               moves g'' = moves afterFirstMove /\
               cellAt (board g'') 6 7 = Some Null /\
               forall r' c', (r', c') <> (6, 7) ->
                             cellAt (board g'') r' c'
                             = cellAt (board afterFirstMove) r' c').
Proof.
  apply (removeLastMove_after_placement 4 White). vm_compute. reflexivity.
Defined.

(** ** Turning the board *)

Lemma board_ext (w h : nat) (b b' : list (list cell)) :
  rectangular w h b -> rectangular w h b' ->
  (forall i j, cellAt b i j = cellAt b' i j) -> b = b'.
Proof.
  intros [Hrows Hlines] [Hrows' Hlines'] Hcells.
  apply list_eq_same_length with w; auto.
  intros i line line' Hi Hline Hline'.
  pose proof (Forall_lookup_1 _ _ _ _ Hlines Hline) as Hlen.
  pose proof (Forall_lookup_1 _ _ _ _ Hlines' Hline') as Hlen'.
  simpl in Hlen, Hlen'.
  apply list_eq_same_length with h; auto.
  intros j x x' Hj Hx Hx'.
  specialize (Hcells (Z.of_nat i) (Z.of_nat j)).
  rewrite (proj2 (cellAt_Some b _ _ x)) in Hcells.
  2: { exists line. rewrite !Nat2Z.id. repeat split; auto; lia. }
  rewrite (proj2 (cellAt_Some b' _ _ x')) in Hcells.
  2: { exists line'. rewrite !Nat2Z.id. repeat split; auto; lia. }
  congruence.
Qed.

Lemma cellAt_outside (w h : nat) (b : list (list cell)) (r c : Z) :
  rectangular w h b -> ~ inside w h (r, c) -> cellAt b r c = None.
Proof.
  intros Hrect Hout. destruct (cellAt b r c) as [x |] eqn:E; [| reflexivity].
  exfalso. apply Hout. apply (cellAt_inside w h b r c Hrect). eauto.
Qed.

Lemma rotateBoard_cells (w h : nat) (b : list (list cell)) :
  rectangular w h b -> (0 < w)%nat ->
  exists b', rotateBoard b = Ok b' /\ rectangular h w b' /\
             forall i j, cellAt b' i j = cellAt b (Z.of_nat w - 1 - j) i.
Proof.
  intros Hrect Hw. pose proof Hrect as [Hrows Hlines].
  destruct b as [| line0 rest] eqn:Eb; [simpl in Hrows; lia |].
  rewrite <- Eb in *.
  assert (Hlen0 : length line0 = h).
  { rewrite Eb in Hlines. now apply Forall_inv in Hlines. }
  assert (Hrot : rotateBoard b
                 = Ok (map (fun index =>
                              rev (map (fun r => default Undefined (r !! index)) b))
                           (seq 0 h))).
  { rewrite Eb. unfold rotateBoard. now rewrite Hlen0. }
  eexists. split; [exact Hrot |]. split.
  - split; [now rewrite length_map, length_seq |].
    apply Forall_forall. intros line Hin.
    apply list_elem_of_fmap in Hin as (j & -> & _).
    now rewrite length_rev, length_map.
  - intros i j.
    destruct (decide (inside h w (i, j))) as [[Hi Hj] | Hout]; simpl in *.
    + assert (Hin : inside w h (Z.of_nat w - 1 - j, i)) by (split; simpl; lia).
      pose proof (cellAt_valueAt w h b _ Hrect Hin) as Hvalue.
      simpl in Hvalue. rewrite Hvalue.
      apply cellAt_Some. eexists. split; [lia |]. split.
      * rewrite list_lookup_fmap, lookup_seq_lt by lia. reflexivity.
      * split; [lia |]. simpl.
        rewrite (columnSegment_line w h b (Z.to_nat i) Hrect) by lia.
        rewrite segmentLine_lookup by (simpl; lia).
        f_equal. f_equal. unfold segmentCell. simpl. f_equal; lia.
    + rewrite (cellAt_outside w h b _ _ Hrect)
        by (intros [? ?]; apply Hout; split; simpl in *; lia).
      apply (cellAt_outside h w); [| exact Hout].
      split; [now rewrite length_map, length_seq |].
      apply Forall_forall. intros line Hin.
      apply list_elem_of_fmap in Hin as (k & -> & _).
      now rewrite length_rev, length_map.
Qed.

(** X12.  [rotateBoard] turns a board of [w] rows and [h] columns into one
    of [h] rows and [w] columns whose cell [(i, j)] is the old cell
    [(w - 1 - j, i)]: a quarter turn clockwise.  Four turns give back the
    board. *)
Theorem rotateBoard_quarter_turn (w h : nat) (b : list (list cell)) :
  rectangular w h b -> (0 < w)%nat -> (0 < h)%nat ->
  (exists b', rotateBoard b = Ok b' /\ rectangular h w b' /\
              forall i j, cellAt b' i j = cellAt b (Z.of_nat w - 1 - j) i) /\
  (let* b1 := rotateBoard b in
   let* b2 := rotateBoard b1 in
   let* b3 := rotateBoard b2 in
   rotateBoard b3) = Ok b.
Proof.
  intros Hrect Hw Hh. split; [now apply rotateBoard_cells |].
  destruct (rotateBoard_cells w h b Hrect Hw) as (b1 & E1 & R1 & C1).
  destruct (rotateBoard_cells h w b1 R1 Hh) as (b2 & E2 & R2 & C2).
  destruct (rotateBoard_cells w h b2 R2 Hw) as (b3 & E3 & R3 & C3).
  destruct (rotateBoard_cells h w b3 R3 Hh) as (b4 & E4 & R4 & C4).
  rewrite E1. simpl. rewrite E2. simpl. rewrite E3. simpl. rewrite E4.
  f_equal. apply (board_ext w h); auto.
  intros i j. rewrite C4, C3, C2, C1. f_equal; lia.
Qed.

Lemma rotateBoard_quarter_turn_witness :
  (exists b', rotateBoard (board verticalOpening) = Ok b' /\
              rectangular 15 15 b' /\
              forall i j, cellAt b' i j
                          = cellAt (board verticalOpening) (Z.of_nat 15 - 1 - j) i) /\
  (let* b1 := rotateBoard (board verticalOpening) in
   let* b2 := rotateBoard b1 in
   let* b3 := rotateBoard b2 in
   rotateBoard b3) = Ok (board verticalOpening).
Proof.
  apply (rotateBoard_quarter_turn 15 15); [| lia | lia].
  split; [reflexivity |]. apply Forall_forall. intros line Hin.
  apply list_elem_of_In in Hin. simpl in Hin.
  repeat (destruct Hin as [<- | Hin]; [reflexivity |]). contradiction.
Defined.

(** ** White's claims that need no retraction *)

(** X13.  Asked for White, [checkWin] answers "5 or more in a row for
    white." exactly when five white stones lie in an unbroken line along a
    row, a column or a diagonal (a longer run contains one), and "Black
    makes overline." exactly when White has no such five and six black
    stones lie in an unbroken line.  Both answers are given before the last
    move is retracted, whatever that move was. *)
Theorem checkWin_white_runs (g : gameState) (w h : nat) :
  rectangular w h (board g) -> (0 < w)%nat -> (0 < h)%nat ->
  (checkWin White g = Ok (Outcome true "5 or more in a row for white.")
   <-> hasRun (board g) White 5) /\
  (checkWin White g = Ok (Outcome true "Black makes overline.")
   <-> ~ hasRun (board g) White 5 /\ hasRun (board g) Black 6).
Proof.
  intros Hrect Hw Hh.
  destruct (fiveOrMore_spec w h (board g) White Hrect Hw Hh)
    as (five & Hfive & Efive); [discriminate |].
  destruct (checkOverline_spec w h (board g) Black Hrect Hw Hh)
    as (over & Hover & Eover); [discriminate |].
  assert (Hwin : exists rest,
             checkWin White g
             = (if five then Ok (Outcome true "5 or more in a row for white.")
                else if over then Ok (Outcome true "Black makes overline.")
                else rest) /\
             rest <> Ok (Outcome true "5 or more in a row for white.") /\
             rest <> Ok (Outcome true "Black makes overline.")).
  { eexists. split.
    - unfold checkWin, checkWinWhite.
      unfold bind in Hfive. unfold bind at 1 2.
      destruct (checkIfFiveInARow White (board g)) as [[|] | |];
        try discriminate Hfive.
      + injection Hfive as <-. reflexivity.
      + rewrite Hfive. destruct five; [reflexivity |].
        simpl. rewrite Hover. simpl. destruct over; reflexivity.
    - destruct (justMade blackMakesDoubleFour g) as [[|] | |]; simpl;
        try (split; discriminate).
      destruct (justMade blackMakesDoubleThree g) as [[|] | |]; simpl;
        split; discriminate. }
  destruct Hwin as (rest & -> & Hrest1 & Hrest2).
  rewrite <- Efive, <- Eover.
  destruct five, over; split; split; try tauto; try discriminate;
    try (intros [? ?]; congruence); try (intros ?; congruence);
    try (intros _; split; [discriminate | reflexivity]).
Qed.

Lemma checkWin_white_runs_witness :
  (checkWin White (gameOf fiveAndDoubleFourThenPass)
   = Ok (Outcome true "5 or more in a row for white.")
   <-> hasRun (board (gameOf fiveAndDoubleFourThenPass)) White 5) /\
  (checkWin White (gameOf fiveAndDoubleFourThenPass)
   = Ok (Outcome true "Black makes overline.")
   <-> ~ hasRun (board (gameOf fiveAndDoubleFourThenPass)) White 5 /\
       hasRun (board (gameOf fiveAndDoubleFourThenPass)) Black 6).
Proof.
  apply (checkWin_white_runs _ 15 15); [| lia | lia].
  apply standard_rectangular; vm_compute; reflexivity.
Defined.

(** ** The loop of [checkMoveThree] *)

Lemma readCell_valueAt (w h : nat) (b : list (list cell)) (r c : Z) :
  rectangular w h b -> 0 <= r < Z.of_nat w ->
  readCell b r c = Ok (valueAt b (r, c)).
Proof.
  intros [Hrows _] Hr. unfold readCell, valueAt, cellAt. simpl.
  destruct (arrayGet_in_range b r) as [line Hline]; [lia |].
  now rewrite Hline.
Qed.

Section SquareBoard.

Variable m : nat.
Hypothesis m_pos : (0 < m)%nat.

Let n : nat := (2 * m + 1)%nat.
Let mid : Z := Z.of_nat m.

Lemma square_middle (b : list (list cell)) :
  rectangular n n b ->
  half (getBoardColumnNumber b) = mid /\
  getBoardRowNumber b = Ok (Z.of_nat n) /\ half (Z.of_nat n) = mid.
Proof.
  intros Hrect.
  destruct (board_numbers n n b Hrect ltac:(unfold n; lia)) as [Hrows Hcols].
  rewrite Hcols, Hrows. unfold half, mid, n.
  repeat split; Z.to_euclidean_division_equations; lia.
Qed.

Lemma rotated_square (b : list (list cell)) :
  rectangular n n b ->
  exists b', rotateBoard b = Ok b' /\ rectangular n n b' /\
             (forall i j, valueAt b' (i, j) = valueAt b (2 * mid - j, i)) /\
             (forall v, besideCentre mid b' v -> besideCentre mid b v).
Proof.
  intros Hrect.
  destruct (rotateBoard_cells n n b Hrect ltac:(unfold n; lia))
    as (b' & Hrot & Hrect' & Hcells).
  assert (Hcells' : forall i j, cellAt b' i j = cellAt b (2 * mid - j) i).
  { intros i j. rewrite Hcells. f_equal. unfold n, mid. lia. }
  exists b'. repeat split; auto.
  - apply Hrect'.
  - apply Hrect'.
  - intros i j. unfold valueAt. simpl. now rewrite Hcells'.
  - intros v (dr & dc & Hdr & Hdc & Hne & Hv).
    exists (- dc), dr. repeat split; try lia.
    + intros [= ? ?]. apply Hne. f_equal; lia.
    + rewrite Hcells' in Hv. rewrite <- Hv. f_equal; lia.
Qed.

Lemma loop_step (fuel : nat) (a x : cell) (wr : bool) (b : list (list cell)) :
  rectangular n n b ->
  strictEq a White || strictEq x White = false ->
  exists b', rotateBoard b = Ok b' /\
    checkMoveThreeLoop (S fuel) mid mid a x wr b
    = checkMoveThreeLoop fuel mid mid (valueAt b (mid, mid - 1))
        (valueAt b (mid - 1, mid - 1)) true b'.
Proof.
  intros Hrect Hnone.
  destruct (rotated_square b Hrect) as (b' & Hrot & _).
  exists b'. split; [exact Hrot |].
  cbn [checkMoveThreeLoop]. rewrite Hnone.
  rewrite (readCell_valueAt n n) by (auto; unfold n, mid; lia).
  rewrite (readCell_valueAt n n) by (auto; unfold n, mid; lia).
  simpl. now rewrite Hrot.
Qed.

Lemma beside_not_white (b : list (list cell)) (dr dc : Z) :
  rectangular n n b ->
  ~ besideCentre mid b White ->
  -1 <= dr <= 1 -> -1 <= dc <= 1 -> (dr, dc) <> (0, 0) ->
  strictEq (valueAt b (mid + dr, mid + dc)) White = false.
Proof.
  intros Hrect Hnone Hdr Hdc Hne.
  destruct (strictEq _ White) eqn:E; [| reflexivity].
  exfalso. apply Hnone. exists dr, dc. repeat split; try lia; auto.
  apply strictEq_eq in E. rewrite <- E.
  apply (cellAt_valueAt n n b (mid + dr, mid + dc) Hrect).
  split; simpl; unfold n, mid; lia.
Qed.

Lemma loop_runs_on (fuel : nat) :
  forall (a x : cell) (wr : bool) (b : list (list cell)),
    rectangular n n b ->
    ~ besideCentre mid b White ->
    strictEq a White || strictEq x White = false ->
    checkMoveThreeLoop fuel mid mid a x wr b = OutOfFuel.
Proof.
  induction fuel as [| fuel IH]; intros a x wr b Hrect Hnone Hax.
  - simpl. now rewrite Hax.
  - destruct (loop_step fuel a x wr b Hrect Hax) as (b' & Hrot & ->).
    destruct (rotated_square b Hrect) as (b'' & Hrot' & Hrect' & _ & Hbeside).
    assert (b'' = b') by congruence. subst b''.
    apply IH; auto.
    replace (mid, mid - 1) with (mid + 0, mid + -1) by (f_equal; lia).
    replace (mid - 1, mid - 1) with (mid + -1, mid + -1) by (f_equal; lia).
    rewrite !(beside_not_white b) by (auto; try lia; discriminate).
    reflexivity.
Qed.

Lemma checkMoveThreePlaced_runs_on (fuel : nat) (b : list (list cell)) :
  rectangular n n b ->
  ~ besideCentre mid b White ->
  checkMoveThreePlaced fuel b = OutOfFuel.
Proof.
  intros Hrect Hnone. unfold checkMoveThreePlaced.
  destruct (square_middle b Hrect) as (-> & -> & Hhalf).
  cbn [bind]. rewrite Hhalf.
  rewrite (readCell_valueAt n n) by (auto; unfold n, mid; lia).
  rewrite (readCell_valueAt n n) by (auto; unfold n, mid; lia).
  cbn [bind]. rewrite loop_runs_on; auto.
  replace (mid - 1, mid) with (mid + -1, mid + 0) by (f_equal; lia).
  replace (mid - 1, mid - 1) with (mid + -1, mid + -1) by (f_equal; lia).
  rewrite !(beside_not_white b) by (auto; try lia; discriminate).
  reflexivity.
Qed.

Lemma valueAt_at (b : list (list cell)) (i j i' j' : Z) :
  i = i' -> j = j' -> valueAt b (i, j) = valueAt b (i', j').
Proof. now intros -> ->. Qed.

Lemma loop_exit (fuel : nat) (a x : cell) (wr : bool) (b : list (list cell)) :
  strictEq a White || strictEq x White = true ->
  checkMoveThreeLoop fuel mid mid a x wr b = Ok (a, x, wr, b).
Proof. intros H. destruct fuel; simpl; now rewrite H. Qed.

Lemma valueAt_beside (b : list (list cell)) (dr dc : Z) :
  rectangular n n b ->
  -1 <= dr <= 1 -> -1 <= dc <= 1 -> (dr, dc) <> (0, 0) ->
  strictEq (valueAt b (mid + dr, mid + dc)) White = true ->
  besideCentre mid b White.
Proof.
  intros Hrect Hdr Hdc Hne E. exists dr, dc. repeat split; try lia; auto.
  apply strictEq_eq in E. rewrite <- E.
  apply (cellAt_valueAt n n b (mid + dr, mid + dc) Hrect).
  split; simpl; unfold n, mid; lia.
Qed.

(** The loop ends within four turns of the board if a white stone lies
    beside the centre, and hands on a board of the same size. *)
Lemma loop_ends (b : list (list cell)) :
  rectangular n n b ->
  besideCentre mid b White ->
  exists (a x : cell) (wr : bool) (b' : list (list cell)),
    rectangular n n b' /\
    forall fuel, (4 <= fuel)%nat ->
      checkMoveThreeLoop fuel mid mid (valueAt b (mid - 1, mid))
        (valueAt b (mid - 1, mid - 1)) false b
      = Ok (a, x, wr, b').
Proof.
  intros Hrect Hbeside.
  destruct (rotated_square b Hrect) as (b1 & Hrot1 & Hrect1 & V1 & _).
  destruct (rotated_square b1 Hrect1) as (b2 & Hrot2 & Hrect2 & V2 & _).
  destruct (rotated_square b2 Hrect2) as (b3 & Hrot3 & Hrect3 & V3 & _).
  destruct (rotated_square b3 Hrect3) as (b4 & Hrot4 & Hrect4 & V4 & _).
  set (a0 := valueAt b (mid - 1, mid)). set (x0 := valueAt b (mid - 1, mid - 1)).
  set (a1 := valueAt b (mid, mid - 1)).
  set (a2 := valueAt b1 (mid, mid - 1)). set (x2 := valueAt b1 (mid - 1, mid - 1)).
  set (a3 := valueAt b2 (mid, mid - 1)). set (x3 := valueAt b2 (mid - 1, mid - 1)).
  set (a4 := valueAt b3 (mid, mid - 1)). set (x4 := valueAt b3 (mid - 1, mid - 1)).
  assert (Hstep : forall fuel a x wr bk bk',
             rectangular n n bk -> rotateBoard bk = Ok bk' ->
             strictEq a White || strictEq x White = false ->
             checkMoveThreeLoop (S fuel) mid mid a x wr bk
             = checkMoveThreeLoop fuel mid mid (valueAt bk (mid, mid - 1))
                 (valueAt bk (mid - 1, mid - 1)) true bk').
  { intros fuel a x wr bk bk' Hr Hrot Hax.
    destruct (loop_step fuel a x wr bk Hr Hax) as (bk'' & Hrot' & ->).
    congruence. }
  destruct (strictEq a0 White || strictEq x0 White) eqn:E0.
  { exists a0, x0, false, b. split; [exact Hrect |]. intros fuel _.
    now apply loop_exit. }
  destruct (strictEq a1 White || strictEq x0 White) eqn:E1.
  { exists a1, x0, true, b1. split; [exact Hrect1 |]. intros fuel Hfuel.
    destruct fuel as [| fuel]; [lia |].
    rewrite (Hstep _ _ _ _ _ _ Hrect Hrot1 E0). now apply loop_exit. }
  destruct (strictEq a2 White || strictEq x2 White) eqn:E2.
  { exists a2, x2, true, b2. split; [exact Hrect2 |]. intros fuel Hfuel.
    destruct fuel as [| [| fuel]]; try lia.
    rewrite (Hstep _ _ _ _ _ _ Hrect Hrot1 E0).
    rewrite (Hstep _ _ _ _ _ _ Hrect1 Hrot2 E1). now apply loop_exit. }
  destruct (strictEq a3 White || strictEq x3 White) eqn:E3.
  { exists a3, x3, true, b3. split; [exact Hrect3 |]. intros fuel Hfuel.
    destruct fuel as [| [| [| fuel]]]; try lia.
    rewrite (Hstep _ _ _ _ _ _ Hrect Hrot1 E0).
    rewrite (Hstep _ _ _ _ _ _ Hrect1 Hrot2 E1).
    rewrite (Hstep _ _ _ _ _ _ Hrect2 Hrot3 E2). now apply loop_exit. }
  destruct (strictEq a4 White || strictEq x4 White) eqn:E4.
  { exists a4, x4, true, b4. split; [exact Hrect4 |]. intros fuel Hfuel.
    destruct fuel as [| [| [| [| fuel]]]]; try lia.
    rewrite (Hstep _ _ _ _ _ _ Hrect Hrot1 E0).
    rewrite (Hstep _ _ _ _ _ _ Hrect1 Hrot2 E1).
    rewrite (Hstep _ _ _ _ _ _ Hrect2 Hrot3 E2).
    rewrite (Hstep _ _ _ _ _ _ Hrect3 Hrot4 E3). now apply loop_exit. }
  exfalso.
  apply orb_false_elim in E0 as [Ea0 Ex0]. apply orb_false_elim in E1 as [Ea1 _].
  apply orb_false_elim in E2 as [Ea2 Ex2]. apply orb_false_elim in E3 as [Ea3 Ex3].
  apply orb_false_elim in E4 as [Ea4 Ex4].
  assert (T2a : a2 = valueAt b (mid + 1, mid + 0)).
  { unfold a2. rewrite V1. apply valueAt_at; lia. }
  assert (T2x : x2 = valueAt b (mid + 1, mid + -1)).
  { unfold x2. rewrite V1. apply valueAt_at; lia. }
  assert (T3a : a3 = valueAt b (mid + 0, mid + 1)).
  { unfold a3. rewrite V2, V1. apply valueAt_at; lia. }
  assert (T3x : x3 = valueAt b (mid + 1, mid + 1)).
  { unfold x3. rewrite V2, V1. apply valueAt_at; lia. }
  assert (T4x : x4 = valueAt b (mid + -1, mid + 1)).
  { unfold x4. rewrite V3, V2, V1. apply valueAt_at; lia. }
  assert (T0a : a0 = valueAt b (mid + -1, mid + 0)).
  { unfold a0. apply valueAt_at; lia. }
  assert (T0x : x0 = valueAt b (mid + -1, mid + -1)).
  { unfold x0. apply valueAt_at; lia. }
  assert (T1a : a1 = valueAt b (mid + 0, mid + -1)).
  { unfold a1. apply valueAt_at; lia. }
  destruct Hbeside as (dr & dc & Hdr & Hdc & Hne & Hv).
  assert (Hval : strictEq (valueAt b (mid + dr, mid + dc)) White = true).
  { unfold valueAt. simpl. now rewrite Hv. }
  assert (Hcases : (dr = -1 \/ dr = 0 \/ dr = 1) /\ (dc = -1 \/ dc = 0 \/ dc = 1))
    by lia.
  destruct Hcases as [[-> | [-> | ->]] [-> | [-> | ->]]];
    try congruence.
Qed.

Lemma checkMoveThreePlaced_ends (b : list (list cell)) :
  (2 <= m)%nat ->
  rectangular n n b ->
  besideCentre mid b White ->
  exists v : bool, forall fuel, (4 <= fuel)%nat ->
    checkMoveThreePlaced fuel b = Ok v.
Proof.
  intros Hm Hrect Hbeside.
  destruct (loop_ends b Hrect Hbeside) as (a & x & wr & b' & Hrect' & Hloop).
  destruct (rotated_square b' Hrect') as (b'' & Hrot & Hrect'' & _).
  destruct (square_middle b Hrect) as (Hcol & Hrow & Hhalf).
  set (turned := if negb wr && strictEq x White then b'' else b').
  assert (Hturned : rectangular n n turned).
  { unfold turned. now destruct (negb wr && strictEq x White). }
  eexists. intros fuel Hfuel. unfold checkMoveThreePlaced.
  rewrite Hcol, Hrow. cbn [bind]. rewrite Hhalf.
  rewrite (readCell_valueAt n n) by (auto; unfold n, mid; lia).
  rewrite (readCell_valueAt n n) by (auto; unfold n, mid; lia).
  cbn [bind]. rewrite (Hloop fuel Hfuel). cbn [bind].
  replace (if negb wr && strictEq x White then rotateBoard b' else Ok b')
    with (Ok turned : result (list (list cell)))
    by (unfold turned; destruct (negb wr && strictEq x White); auto).
  cbn [bind].
  rewrite (readCell_valueAt n n turned) by (auto; unfold n, mid; lia).
  rewrite (readCell_valueAt n n turned) by (auto; unfold n, mid; lia).
  cbn [bind].
  instantiate (1 :=
    if strictEq a White then
      movesMadeFromBoard
        (concat (getBoardSection (mid - 2) (mid + 2) mid (mid + 2) turned)) =? 3
    else if strictEq x White then
      movesMadeFromBoard
        (concat (getBoardSection mid (mid + 2) mid (mid + 2) turned)
         ++ concat (getBoardSection (mid - 1) (mid - 1) (mid + 1) (mid + 2) turned)
         ++ concat (getBoardSection (mid + 1) (mid + 2) (mid - 1) (mid - 1) turned)
         ++ [valueAt turned (mid + 2, mid - 2); valueAt turned (mid - 2, mid + 2)])
      =? 3
    else false).
  destruct (strictEq a White); [reflexivity |].
  destruct (strictEq x White); reflexivity.
Qed.

End SquareBoard.

Lemma placed_beside (b placed : list (list cell)) (pc : cell) (r c mid : Z) :
  writeCell b r c pc = Ok placed ->
  (cellAt b r c = Some Null \/ cellAt b r c = Some Removed) ->
  pc <> White ->
  besideCentre mid placed White <-> besideCentre mid b White.
Proof.
  intros Hwrite Hold Hpc.
  assert (Hin : cellAt placed r c = Some pc /\
                forall r' c', (r', c') <> (r, c) ->
                              cellAt placed r' c' = cellAt b r' c').
  { destruct Hold as [Hold | Hold]; eapply writeCell_inside; eauto. }
  destruct Hin as [Hnew Hrest].
  split; intros (dr & dc & Hdr & Hdc & Hne & Hv); exists dr, dc;
    repeat split; auto; try lia.
  - destruct (decide ((mid + dr, mid + dc) = (r, c))) as [[= <- <-] | Hother].
    + congruence.
    + now rewrite <- (Hrest _ _ Hother).
  - destruct (decide ((mid + dr, mid + dc) = (r, c))) as [[= <- <-] | Hother].
    + destruct Hold; congruence.
    + now rewrite (Hrest _ _ Hother).
Qed.

(** X14.  [isMoveValid] does not return when it is asked about a third
    move on a square board on which no white stone lies beside the centre:
    the loop of [checkMoveThree] turns the board until it finds one, and
    every turn shows it two more of the eight cells around the centre.
    Such a position is not reached by play, where the second move puts a
    white stone there, but it can be handed to the engine. *)
Theorem third_move_without_white_neighbour (m : nat) (g : gameState)
    (pc : cell) (r c : Z) (fuel : nat) :
  (0 < m)%nat ->
  rectangular (2 * m + 1) (2 * m + 1) (board g) ->
  movesMade g = 2 ->
  ~ besideCentre (Z.of_nat m) (board g) White ->
  cellAt (board g) r c = Some Null \/ cellAt (board g) r c = Some Removed ->
  pc <> White ->
  isMoveValid fuel pc r c g = OutOfFuel.
Proof.
  intros Hm Hrect Hmade Hnone Hcell Hpc.
  assert (Hin : 0 <= r < Z.of_nat (2 * m + 1) /\ 0 <= c < Z.of_nat (2 * m + 1)).
  { destruct Hcell as [Hcell | Hcell];
      apply (cellAt_rectangular _ _ _ _ _ _ Hrect) in Hcell; exact Hcell. }
  assert (Hread : exists v, readCell (board g) r c = Ok v /\
                            strictNe v Null && strictNe v Removed = false).
  { destruct Hcell as [Hcell | Hcell];
      apply readCell_of_cellAt in Hcell; eauto. }
  destruct Hread as (v & Hread & Hempty).
  destruct (board_numbers _ _ _ Hrect ltac:(lia)) as [Hrows _].
  unfold isMoveValid, nextMoveNumber. rewrite Hread. cbn [bind].
  rewrite Hempty, Hrows, Hmade. cbn [bind Z.add Pos.add].
  unfold checkMoveThree.
  replace (strictEq pc White) with false
    by (destruct pc; try reflexivity; congruence).
  assert (Hwrite : exists placed, writeCell (board g) r c pc = Ok placed).
  { unfold writeCell. destruct (arrayGet_in_range (board g) r) as [line ->];
      [destruct Hrect as [-> _]; lia | eauto]. }
  destruct Hwrite as [placed Hwrite]. rewrite Hwrite. cbn [bind].
  apply (checkMoveThreePlaced_runs_on m Hm).
  - eapply writeCell_rectangular; [exact Hwrite | exact Hrect | lia].
  - intros Hbeside. apply Hnone.
    now apply (placed_beside _ _ _ _ _ _ Hwrite Hcell Hpc).
Qed.

Lemma third_move_without_white_neighbour_witness :
  isMoveValid 4 Black 0 0
    (GameState (board afterFirstMove)
               [Move 7 7 Black false false; Move (-1) (-1) White false true])
  = OutOfFuel.
Proof.
  apply (third_move_without_white_neighbour 7).
  - lia.
  - split; [reflexivity |]. apply Forall_forall. intros line Hin.
    apply list_elem_of_In in Hin. simpl in Hin.
    repeat (destruct Hin as [<- | Hin]; [reflexivity |]). contradiction.
  - reflexivity.
  - intros (dr & dc & Hdr & Hdc & _ & Hv). simpl in Hv.
    assert (Hcases : (dr = -1 \/ dr = 0 \/ dr = 1) /\ (dc = -1 \/ dc = 0 \/ dc = 1))
      by lia.
    destruct Hcases as [[-> | [-> | ->]] [-> | [-> | ->]]]; vm_compute in Hv;
      discriminate.
  - left. reflexivity.
  - discriminate.
Defined.

Lemma reachable_last (g0 g : gameState) (acts : list action) :
  reachable g0 acts g ->
  (acts = [] /\ g = g0) \/
  exists acts' a g1 fuel,
    acts = acts' ++ [a] /\ reachable g0 acts' g1 /\
    perform fuel a g1 = Ok (Valid g).
Proof.
  intros H. destruct H as [| acts' g1 g' a fuel Hreach Hstep]; [auto |].
  right. eauto 8.
Qed.

Lemma isMoveValid_reads (w h : nat) (g : gameState) (pc : cell) (r c : Z) :
  rectangular w h (board g) -> 0 <= r < Z.of_nat w ->
  movesMade g <> 2 ->
  exists v : bool, forall fuel, isMoveValid fuel pc r c g = Ok v.
Proof.
  intros Hrect Hr Hmade.
  destruct (board_numbers _ _ _ Hrect ltac:(lia)) as [Hrows _].
  unfold isMoveValid. rewrite (readCell_valueAt w h) by auto. cbn [bind].
  destruct (strictNe _ Null && strictNe _ Removed); [eauto |].
  rewrite Hrows. cbn [bind].
  assert (Hnext : nextMoveNumber g <> 3) by (unfold nextMoveNumber; lia).
  destruct (nextMoveNumber g) as [| p | p]; try (eexists; intros; reflexivity).
  destruct p as [p | p |]; try (eexists; intros; reflexivity).
  - destruct p as [p | p |]; try (eexists; intros; reflexivity).
    + destruct p; eexists; intros; reflexivity.
    + destruct p; eexists; intros; reflexivity.
    + congruence.
  - destruct p as [p | p |]; try (eexists; intros; reflexivity).
    + destruct p; eexists; intros; reflexivity.
    + destruct p; eexists; intros; reflexivity.
Qed.

Lemma isMoveValid_second_next (fuel : nat) (pc : cell) (r c : Z) (g : gameState) :
  movesMade g = 1 ->
  isMoveValid fuel pc r c g = Ok true ->
  exists rows, getBoardRowNumber (board g) = Ok rows /\
               isNextTo (half rows) (half (getBoardColumnNumber (board g))) r c
               = true.
Proof.
  intros Hmade. unfold isMoveValid, nextMoveNumber. rewrite Hmade.
  destruct (readCell (board g) r c) as [v | |]; cbn [bind]; try discriminate.
  destruct (strictNe v Null && strictNe v Removed); [discriminate |].
  destruct (getBoardRowNumber (board g)) as [rows | |]; cbn [bind];
    try discriminate.
  simpl. intros [= H]. apply andb_prop in H as [H _]. eauto.
Qed.

Lemma reachable_two (n mid : Z) (g0 g : gameState) (acts : list action) :
  n = 2 * mid + 1 -> 0 < mid ->
  initiateGame n n Null = Ok g0 ->
  reachable g0 acts g ->
  length acts = 2%nat ->
  besideCentre mid (board g) White.
Proof.
  intros Hn Hmid Hinit Hreach Hlen.
  assert (Hhalf : n / 2 = mid) by (Z.to_euclidean_division_equations; lia).
  assert (Hpos : 0 < n) by lia. clear Hn.
  apply reachable_last in Hreach
    as [[-> _] | (acts1 & a2 & g1 & fuel2 & -> & Hreach1 & Hstep2)];
    [discriminate |].
  rewrite length_app in Hlen. simpl in Hlen.
  destruct (reachable_board_and_log _ _ _ _ _ _ Hinit Hreach1)
    as (Hrect1 & Hlog1 & _).
  assert (Hmade1 : movesMade g1 = 1).
  { unfold movesMade. rewrite Hlog1, length_map. lia. }
  destruct (board_numbers _ _ _ Hrect1 ltac:(lia)) as [Hrows Hcols].
  rewrite Z2Nat.id in Hrows, Hcols by lia.
  assert (Hstone : cellAt (board g1) mid mid = Some Black).
  { apply reachable_last in Hreach1
      as [[-> _] | (acts0 & a1 & g00 & fuel1 & -> & Hreach0 & Hstep1)];
      [discriminate |].
    rewrite length_app in Hlen. simpl in Hlen.
    assert (acts0 = []) by (destruct acts0; [reflexivity | simpl in Hlen; lia]).
    subst acts0.
    apply reachable_last in Hreach0 as [[_ ->] | (x & ? & ? & ? & E & _)];
      [| destruct x; discriminate].
    destruct a1 as [pc1 r1 c1 | r1 c1 | pc1]; cbn [perform] in Hstep1.
    - apply attemptPly_accepted in Hstep1 as (Hvalid1 & Hwrite1 & _).
      pose proof (isMoveValid_target _ _ _ _ _ Hvalid1) as Hold1.
      apply initiateGame_Ok in Hinit as (_ & _ & ->).
      apply isMoveValid_first in Hvalid1 as (-> & -> & -> & _); try lia.
      rewrite Hhalf in *.
      destruct Hold1 as [Hold1 | Hold1];
        apply (writeCell_inside _ _ _ _ _ _ Hwrite1 Hold1).
    - apply attemptRemove_accepted in Hstep1 as (E6 & _).
      apply initiateGame_Ok in Hinit as (_ & _ & ->). discriminate.
    - apply attemptPass_accepted in Hstep1 as (E3 & _).
      apply initiateGame_Ok in Hinit as (_ & _ & ->).
      unfold movesMade in E3. simpl in E3. lia. }
  destruct a2 as [pc r c | r c | pc]; cbn [perform] in Hstep2.
  - apply attemptPly_accepted in Hstep2 as (Hvalid & Hwrite & _).
    destruct (isMoveValid_second_next _ _ _ _ _ Hmade1 Hvalid)
      as (rows & Hrows' & Hnext).
    destruct (isMoveValid_colour _ _ _ _ _ Hvalid) as [Hpc | [E _]]; [| lia].
    assert (Hwhite : pc = White).
    { rewrite Hpc. now apply (proj1 (proj2 (colourToMove_cases g1))). }
    clear Hpc. subst pc.
    pose proof (isMoveValid_target _ _ _ _ _ Hvalid) as Hold.
    assert (Hnew : cellAt (board g) r c = Some White).
    { destruct Hold as [Hold | Hold];
        apply (writeCell_inside _ _ _ _ _ _ Hwrite Hold). }
    rewrite Hrows in Hrows'. injection Hrows' as Hrows'. subst rows.
    rewrite Hcols in Hnext. unfold isNextTo, half in Hnext.
    rewrite Hhalf in Hnext. apply andb_prop in Hnext as [Hc Hr].
    exists (r - mid), (c - mid).
    split; [lia |]. split; [lia |]. split.
    + intros [= Er Ec].
      assert (r = mid) by lia. assert (c = mid) by lia. subst r c.
      destruct Hold; congruence.
    + rewrite <- Hnew. f_equal; lia.
  - apply attemptRemove_accepted in Hstep2 as (E6 & _). lia.
  - apply attemptPass_accepted in Hstep2 as (E3 & _). lia.
Qed.

(** X15.  On a square board of at least five rows, [isMoveValid] returns
    in every position reached from [initiateGame] and for every cell of a
    row of the board: it answers [true] or [false], does not throw, and the
    loop of [checkMoveThree] ends within four turns of the board, because
    the second move has put a white stone beside the centre. *)
Theorem isMoveValid_answers (m : nat) (g0 g : gameState) (acts : list action)
    (pc : cell) (r c : Z) :
  (2 <= m)%nat ->
  initiateGame (Z.of_nat (2 * m + 1)) (Z.of_nat (2 * m + 1)) Null = Ok g0 ->
  reachable g0 acts g ->
  0 <= r < Z.of_nat (2 * m + 1) ->
  exists v : bool, forall fuel, (4 <= fuel)%nat ->
    isMoveValid fuel pc r c g = Ok v.
Proof.
  intros Hm Hinit Hreach Hr.
  destruct (reachable_board_and_log _ _ _ _ _ _ Hinit Hreach)
    as (Hrect & Hlog & _).
  rewrite Nat2Z.id in Hrect.
  destruct (decide (movesMade g = 2)) as [Hmade | Hmade].
  2: { destruct (isMoveValid_reads _ _ g pc r c Hrect Hr Hmade) as [v Hv].
       exists v. intros fuel _. apply Hv. }
  assert (Hbeside : besideCentre (Z.of_nat m) (board g) White).
  { apply (reachable_two (Z.of_nat (2 * m + 1)) (Z.of_nat m) g0 g acts);
      auto; try lia.
    unfold movesMade in Hmade. rewrite Hlog, length_map in Hmade. lia. }
  destruct (board_numbers _ _ _ Hrect ltac:(lia)) as [Hrows _].
  unfold isMoveValid, nextMoveNumber.
  rewrite (readCell_valueAt _ _ _ _ _ Hrect Hr). cbn [bind].
  destruct (strictNe _ Null && strictNe _ Removed) eqn:Hempty; [eauto |].
  rewrite Hrows, Hmade. cbn [bind Z.add Pos.add].
  unfold checkMoveThree.
  destruct (strictEq pc White) eqn:Hpc; [eauto |].
  assert (Hwrite : exists placed, writeCell (board g) r c pc = Ok placed).
  { unfold writeCell. destruct (arrayGet_in_range (board g) r) as [line ->];
      [destruct Hrect as [-> _]; lia | eauto]. }
  destruct Hwrite as [placed Hwrite]. rewrite Hwrite. cbn [bind].
  assert (Hcell : cellAt (board g) r c = Some Null \/
                  cellAt (board g) r c = Some Removed).
  { unfold valueAt in Hempty. simpl in Hempty.
    destruct (cellAt (board g) r c) as [[] |]; simpl in Hempty;
      try discriminate; auto. }
  assert (Hc : 0 <= c < Z.of_nat (2 * m + 1)).
  { destruct Hcell as [Hcell | Hcell];
      apply (cellAt_rectangular _ _ _ _ _ _ Hrect) in Hcell; lia. }
  apply (checkMoveThreePlaced_ends m ltac:(lia) placed Hm).
  - eapply writeCell_rectangular; [exact Hwrite | exact Hrect | lia].
  - apply (placed_beside _ _ _ _ _ _ Hwrite Hcell); [| exact Hbeside].
    intros ->. discriminate.
Qed.

Lemma isMoveValid_answers_witness :
  exists v : bool, forall fuel, (4 <= fuel)%nat ->
    isMoveValid fuel Black 9 8 verticalOpening = Ok v.
Proof.
  apply (isMoveValid_answers 7 emptyGame verticalOpening
           [Ply Black 7 7; Ply White 6 7]).
  - lia.
  - reflexivity.
  - apply (playAll_reachable 4 [Ply Black 7 7; Ply White 6 7] [] emptyGame emptyGame).
    + constructor.
    + vm_compute. reflexivity.
  - lia.
Defined.

(** ** The third move, whatever White's reply *)

Lemma rectangular_by_lengths (w h : nat) (b : list (list cell)) :
  length b = w ->
  forallb (fun line => Nat.eqb (length line) h) b = true ->
  rectangular w h b.
Proof.
  intros Hlen Hall. split; [exact Hlen |].
  apply Forall_forall. intros line Hin.
  rewrite forallb_forall in Hall. apply Nat.eqb_eq, Hall.
  now apply list_elem_of_In.
Qed.

Lemma answersThird_after (k : nat) (r2 c2 : Z) (g2 : gameState) :
  -1 <= r2 - 7 <= 1 -> -1 <= c2 - 7 <= 1 -> (r2, c2) <> (7, 7) ->
  attemptPly 4 White r2 c2 afterFirstMove = Ok (Valid g2) ->
  forallb (answersThird (4 + k) g2 (legalThirdAfter r2 c2)) (cellsOf 15 15) = true.
Proof.
  intros Hr Hc Hne H2.
  assert (Hcases : (r2 = 6 \/ r2 = 7 \/ r2 = 8) /\ (c2 = 6 \/ c2 = 7 \/ c2 = 8))
    by lia.
  destruct Hcases as [[-> | [-> | ->]] [-> | [-> | ->]]];
    try congruence;
    vm_compute in H2; injection H2 as <-; destruct k; vm_compute; reflexivity.
Qed.

(** X16.  On the standard board, after Black's first move at (7,7) and
    whichever reply of White's was accepted, [isMoveValid] answers [true]
    for Black's third move exactly on the free cells of one zone, and
    [false] for White everywhere.  Seen with the board turned so that the
    white stone is above the centre, the zone is rows 5 to 9 of columns 7
    to 9; turned so that it is above and to the right of the centre, the
    zone is the square of rows and columns 7 to 9 with (6,8), (6,9), (8,6),
    (9,6), (9,5) and (5,9). *)
Theorem third_move_zones (fuel : nat) (g0 g1 g2 : gameState) (r2 c2 r c : Z) :
  (4 <= fuel)%nat ->
  initiateGame 15 15 Null = Ok g0 ->
  attemptPly fuel Black 7 7 g0 = Ok (Valid g1) ->
  attemptPly fuel White r2 c2 g1 = Ok (Valid g2) ->
  0 <= r < 15 -> 0 <= c < 15 ->
  isMoveValid fuel Black r c g2 = Ok (legalThirdAfter r2 c2 r c) /\
  isMoveValid fuel White r c g2 = Ok false.
Proof.
  intros Hfuel H0 H1 H2 Hr Hc.
  assert (g0 = emptyGame) by (vm_compute in H0; now injection H0 as <-).
  subst g0.
  assert (g1 = afterFirstMove) by (vm_compute in H1; now injection H1 as <-).
  subst g1. clear H0 H1.
  assert (Hnear : -1 <= r2 - 7 <= 1 /\ -1 <= c2 - 7 <= 1 /\ (r2, c2) <> (7, 7)).
  { pose proof H2 as H. apply attemptPly_accepted in H as (Hvalid & _).
    destruct (isMoveValid_second_next fuel White r2 c2 afterFirstMove
                eq_refl Hvalid) as (rows & Hrows & Hnext).
    injection Hrows as <-.
    unfold isNextTo in Hnext. apply andb_prop in Hnext as [Hnc Hnr].
    vm_compute (half _) in Hnr. vm_compute (half _) in Hnc.
    split; [lia |]. split; [lia |].
    intros [= -> ->]. apply isMoveValid_target in Hvalid.
    vm_compute in Hvalid. destruct Hvalid; discriminate. }
  destruct Hnear as (Hnr & Hnc & Hne).
  assert (H2' : attemptPly 4 White r2 c2 afterFirstMove = Ok (Valid g2)).
  { unfold attemptPly in *.
    destruct (isMoveValid_reads 15 15 afterFirstMove White r2 c2) as [v Hv].
    - apply rectangular_by_lengths; reflexivity.
    - lia.
    - discriminate.
    - rewrite Hv in *. exact H2. }
  replace fuel with (4 + (fuel - 4))%nat by lia.
  pose proof (answersThird_after (fuel - 4) r2 c2 g2 Hnr Hnc Hne H2') as Hall.
  rewrite forallb_forall in Hall.
  specialize (Hall (r, c)). unfold answersThird in Hall.
  destruct (isMoveValid (4 + (fuel - 4)) Black r c g2) as [black | |];
    destruct (isMoveValid (4 + (fuel - 4)) White r c g2) as [[|] | |];
    try (discriminate Hall; apply cellsOf_spec; lia).
  rewrite (eqb_prop black (legalThirdAfter r2 c2 r c)); [split; reflexivity |].
  apply Hall, cellsOf_spec. lia.
Qed.

Lemma third_move_zones_witness :
  isMoveValid 4 Black 5 5 (gameOf [Ply Black 7 7; Ply White 8 6])
  = Ok (legalThirdAfter 8 6 5 5) /\
  isMoveValid 4 White 5 5 (gameOf [Ply Black 7 7; Ply White 8 6]) = Ok false.
Proof.
  apply (third_move_zones 4 emptyGame afterFirstMove
           (gameOf [Ply Black 7 7; Ply White 8 6]) 8 6 5 5);
    try lia; reflexivity.
Defined.

(** ** The window around a cell *)

Lemma slice_lookup {A : Type} (from to : Z) (a : list A) (k : nat) :
  0 <= from <= to -> to <= Z.of_nat (length a) ->
  (k < Z.to_nat (to - from))%nat ->
  slice from to a !! k = a !! (Z.to_nat from + k)%nat.
Proof.
  intros Hfrom Hto Hk. unfold slice.
  replace (from <? 0) with false by lia. replace (to <? 0) with false by lia.
  rewrite !Z.min_l by lia.
  rewrite lookup_take_lt by exact Hk. apply lookup_drop.
Qed.

Lemma pad2DArray_cells (w h padding : nat) (padValue : cell)
    (b : list (list cell)) :
  rectangular w h b -> (0 < w)%nat ->
  exists padded,
    pad2DArray padding padValue b = Ok padded /\
    rectangular (w + 2 * padding) (h + 2 * padding) padded /\
    forall i j : Z,
      0 <= i < Z.of_nat (w + 2 * padding) ->
      0 <= j < Z.of_nat (h + 2 * padding) ->
      cellAt padded i j
      = Some (default padValue
                (cellAt b (i - Z.of_nat padding) (j - Z.of_nat padding))).
Proof.
  intros Hrect Hw. pose proof Hrect as [Hrows Hlines].
  destruct b as [| line0 rest] eqn:Eb; [simpl in Hrows; lia |].
  rewrite <- Eb in *.
  assert (Hlen0 : length line0 = h).
  { rewrite Eb in Hlines. now apply Forall_inv in Hlines. }
  set (blank := replicate (h + 2 * padding) padValue).
  set (side := replicate padding padValue).
  set (frame := fun r : list cell =>
                  side ++ map (fun j => default Undefined (r !! j)) (seq 0 h)
                  ++ side).
  assert (Hpad : pad2DArray padding padValue b
                 = Ok (replicate padding blank ++ map frame b
                       ++ replicate padding blank)).
  { rewrite Eb. unfold pad2DArray. now rewrite Hlen0. }
  eexists. split; [exact Hpad |].
  assert (Hframe : forall r, length (frame r) = (h + 2 * padding)%nat).
  { intros r. unfold frame, side.
    rewrite !length_app, length_map, length_seq, !length_replicate. lia. }
  split.
  - split.
    + rewrite !length_app, length_map, !length_replicate. lia.
    + apply Forall_app. split; [| apply Forall_app; split].
      * apply Forall_forall. intros line Hin.
        apply elem_of_replicate in Hin as [-> _]. apply length_replicate.
      * apply Forall_forall. intros line Hin.
        apply list_elem_of_fmap in Hin as (r & -> & _). apply Hframe.
      * apply Forall_forall. intros line Hin.
        apply elem_of_replicate in Hin as [-> _]. apply length_replicate.
  - intros i j Hi Hj.
    assert (Hblank : blank !! Z.to_nat j = Some padValue).
    { apply lookup_replicate. split; [reflexivity | lia]. }
    destruct (decide (Z.of_nat padding <= i < Z.of_nat (padding + w)))
      as [Hbody | Hedge].
    + destruct (lookup_lt_is_Some_2 b (Z.to_nat i - padding)) as [line Hline];
        [lia |].
      assert (Hlen : length line = h).
      { eapply Forall_lookup_1 in Hlines; eauto. }
      assert (Hrow : (replicate padding blank ++ map frame b
                      ++ replicate padding blank) !! Z.to_nat i
                     = Some (frame line)).
      { rewrite lookup_app_r by (rewrite length_replicate; lia).
        rewrite length_replicate.
        rewrite lookup_app_l by (rewrite length_map; lia).
        now rewrite list_lookup_fmap, Hline. }
      assert (Hbrow : arrayGet b (i - Z.of_nat padding) = Some line).
      { apply arrayGet_Some. split; [lia |].
        now replace (Z.to_nat (i - Z.of_nat padding))
          with (Z.to_nat i - padding)%nat by lia. }
      unfold cellAt at 2. rewrite Hbrow.
      apply cellAt_Some. exists (frame line).
      split; [lia |]. split; [exact Hrow |]. split; [lia |].
      unfold frame, side.
      destruct (decide (Z.of_nat padding <= j < Z.of_nat (padding + h)))
        as [Hcell | Hframed].
      * destruct (lookup_lt_is_Some_2 line (Z.to_nat j - padding)) as [x Hx];
          [lia |].
        rewrite (proj2 (arrayGet_Some line (j - Z.of_nat padding) x)).
        2: { split; [lia |].
             now replace (Z.to_nat (j - Z.of_nat padding))
               with (Z.to_nat j - padding)%nat by lia. }
        simpl. rewrite lookup_app_r by (rewrite length_replicate; lia).
        rewrite length_replicate.
        rewrite lookup_app_l by (rewrite length_map, length_seq; lia).
        rewrite list_lookup_fmap, lookup_seq_lt by lia. simpl.
        now rewrite Hx.
      * rewrite (proj2 (arrayGet_None line (j - Z.of_nat padding))) by lia.
        simpl. destruct (decide (j < Z.of_nat padding)) as [Hleft | Hright].
        -- rewrite lookup_app_l by (rewrite length_replicate; lia).
           apply lookup_replicate. split; [reflexivity | lia].
        -- rewrite lookup_app_r by (rewrite length_replicate; lia).
           rewrite length_replicate.
           rewrite lookup_app_r by (rewrite length_map, length_seq; lia).
           rewrite length_map, length_seq.
           apply lookup_replicate. split; [reflexivity | lia].
    + assert (Hbrow : arrayGet b (i - Z.of_nat padding) = None).
      { apply arrayGet_None. lia. }
      unfold cellAt at 2. rewrite Hbrow. simpl.
      apply cellAt_Some. exists blank.
      split; [lia |]. split; [| split; [lia | exact Hblank]].
      destruct (decide (i < Z.of_nat padding)) as [Htop | Hbottom].
      * rewrite lookup_app_l by (rewrite length_replicate; lia).
        apply lookup_replicate. split; [reflexivity | lia].
      * rewrite lookup_app_r by (rewrite length_replicate; lia).
        rewrite length_replicate.
        rewrite lookup_app_r by (rewrite length_map; lia).
        rewrite length_map.
        apply lookup_replicate. split; [reflexivity | lia].
Qed.

Lemma getBoardSection_cells (w h : nat) (b : list (list cell))
    (r0 r1 c0 c1 i j : Z) :
  rectangular w h b ->
  0 <= r0 <= r1 + 1 -> r1 < Z.of_nat w ->
  0 <= c0 <= c1 + 1 -> c1 < Z.of_nat h ->
  rectangular (Z.to_nat (r1 + 1 - r0)) (Z.to_nat (c1 + 1 - c0))
              (getBoardSection r0 r1 c0 c1 b) /\
  (0 <= i <= r1 - r0 -> 0 <= j <= c1 - c0 ->
   cellAt (getBoardSection r0 r1 c0 c1 b) i j = cellAt b (r0 + i) (c0 + j)).
Proof.
  intros [Hrows Hlines] Hr0 Hr1 Hc0 Hc1. unfold getBoardSection.
  assert (Hsub : Forall (fun line => length line = h)
                        (slice r0 (r1 + 1) b)).
  { apply Forall_forall. intros line Hin.
    apply list_elem_of_lookup in Hin as [k Hk].
    assert (Hk' : (k < Z.to_nat (r1 + 1 - r0))%nat).
    { apply lookup_lt_Some in Hk. rewrite slice_length in Hk by lia. exact Hk. }
    rewrite slice_lookup in Hk by lia.
    eapply Forall_lookup_1 in Hlines; eauto. }
  split.
  - split; [rewrite length_map; apply slice_length; lia |].
    apply Forall_forall. intros line Hin.
    apply list_elem_of_fmap in Hin as (line' & -> & Hin').
    rewrite Forall_forall in Hsub. specialize (Hsub line' Hin').
    apply slice_length; lia.
  - intros Hi Hj.
    destruct (lookup_lt_is_Some_2 b (Z.to_nat (r0 + i))) as [line Hline]; [lia |].
    assert (Hlen : length line = h).
    { eapply Forall_lookup_1 in Hlines; eauto. }
    unfold cellAt.
    rewrite (proj2 (arrayGet_Some b (r0 + i) line)) by (split; [lia | exact Hline]).
    rewrite (proj2 (arrayGet_Some _ i (slice c0 (c1 + 1) line))).
    2: { split; [lia |]. rewrite list_lookup_fmap.
         rewrite slice_lookup by lia.
         replace (Z.to_nat r0 + Z.to_nat i)%nat with (Z.to_nat (r0 + i)) by lia.
         now rewrite Hline. }
    unfold arrayGet.
    replace (0 <=? j) with true by lia. replace (0 <=? c0 + j) with true by lia.
    rewrite slice_lookup by lia. f_equal. lia.
Qed.

Lemma getCellsAround_cells (w h : nat) (b : list (list cell)) (r c : Z)
    (number : nat) :
  rectangular w h b ->
  0 <= r < Z.of_nat w -> 0 <= c < Z.of_nat h ->
  exists window,
    getCellsAround r c number b = Ok window /\
    rectangular (2 * number + 1) (2 * number + 1) window /\
    forall i j : Z,
      0 <= i <= 2 * Z.of_nat number -> 0 <= j <= 2 * Z.of_nat number ->
      cellAt window i j
      = Some (default Null (cellAt b (r - Z.of_nat number + i)
                                     (c - Z.of_nat number + j))).
Proof.
  intros Hrect Hr Hc.
  destruct (pad2DArray_cells w h number Null b Hrect ltac:(lia))
    as (padded & Hpad & Hprect & Hcells).
  unfold getCellsAround. rewrite Hpad. cbn [bind]. eexists. split; [reflexivity |].
  destruct (getBoardSection_cells _ _ padded r (r + 2 * Z.of_nat number)
              c (c + 2 * Z.of_nat number) 0 0 Hprect) as [Hsize _]; try lia.
  split.
  - replace (2 * number + 1)%nat
      with (Z.to_nat (r + 2 * Z.of_nat number + 1 - r)) by lia.
    replace (Z.to_nat (r + 2 * Z.of_nat number + 1 - r))
      with (Z.to_nat (c + 2 * Z.of_nat number + 1 - c)) at 2 by lia.
    exact Hsize.
  - intros i j Hi Hj.
    destruct (getBoardSection_cells _ _ padded r (r + 2 * Z.of_nat number)
                c (c + 2 * Z.of_nat number) i j Hprect) as [_ Hsec]; try lia.
    rewrite Hsec by lia. rewrite Hcells by lia.
    f_equal. f_equal. f_equal; lia.
Qed.

(** X17.  For a cell [(r, c)] of the board, [getCellsAround r c n] is the
    square of [2n + 1] rows and columns centred on that cell: its cell
    [(i, j)] is the cell [(r - n + i, c - n + j)] of the board, and [null]
    where that falls off the board. *)
Theorem getCellsAround_window (w h : nat) (b : list (list cell)) (r c : Z)
    (number : nat) :
  rectangular w h b ->
  0 <= r < Z.of_nat w -> 0 <= c < Z.of_nat h ->
  exists window,
    getCellsAround r c number b = Ok window /\
    rectangular (2 * number + 1) (2 * number + 1) window /\
    forall i j : Z,
      0 <= i <= 2 * Z.of_nat number -> 0 <= j <= 2 * Z.of_nat number ->
      cellAt window i j
      = Some (default Null (cellAt b (r - Z.of_nat number + i)
                                     (c - Z.of_nat number + j))).
Proof. apply getCellsAround_cells. Qed.

Lemma getCellsAround_window_witness :
  exists window,
    getCellsAround 7 7 2 (board verticalOpening) = Ok window /\
    rectangular (2 * 2 + 1) (2 * 2 + 1) window /\
    forall i j : Z,
      0 <= i <= 2 * Z.of_nat 2 -> 0 <= j <= 2 * Z.of_nat 2 ->
      cellAt window i j
      = Some (default Null (cellAt (board verticalOpening)
                              (7 - Z.of_nat 2 + i) (7 - Z.of_nat 2 + j))).
Proof.
  apply (getCellsAround_window 15 15); [| lia | lia].
  apply rectangular_by_lengths; reflexivity.
Defined.

(** ** The scanner, line by line *)

Lemma countHorizontalTouching_lines (pc : cell) (lines : list (list cell)) :
  pc <> Zero ->
  countHorizontalTouching pc lines
  = filter (fun n => 2 <= n)
           (map (fun line => Z.of_nat (longestRun pc line)) lines).
Proof.
  intros Hpc. unfold countHorizontalTouching. rewrite map_map.
  induction lines as [| line rest IH]; [reflexivity |].
  cbn [map]. rewrite !filter_cons, IH.
  rewrite (countTouchingInARow_length pc line Hpc).
  destruct (decide (2 <= Z.max 1 (Z.of_nat (longestRun pc line)))) as [H | H];
    destruct (decide (2 <= Z.of_nat (longestRun pc line))) as [H' | H'];
    try lia; [| reflexivity].
  f_equal. lia.
Qed.

Lemma omap_id_lines {A : Type} (xs : list (option (list A))) :
  forall (N : nat) (line : nat -> list A),
    (forall k, (k < N)%nat -> mjoin (xs !! k) = Some (line k)) ->
    (forall k, (N <= k)%nat -> mjoin (xs !! k) = None) ->
    omap id xs = map line (seq 0 N).
Proof.
  induction xs as [| x xs IH]; intros N line Hin Hout.
  - destruct N as [| N]; [reflexivity |].
    specialize (Hin 0%nat ltac:(lia)). discriminate.
  - destruct N as [| N].
    + pose proof (Hout 0%nat ltac:(lia)) as H0. simpl in H0. subst x.
      simpl. apply (IH 0%nat line).
      * intros k Hk. lia.
      * intros k _. apply (Hout (S k)). lia.
    + pose proof (Hin 0%nat ltac:(lia)) as H0. simpl in H0. subst x.
      cbn [omap list_omap id seq map]. f_equal.
      rewrite <- seq_shift, map_map.
      apply (IH N (fun k => line (S k))).
      * intros k Hk. apply (Hin (S k)). lia.
      * intros k Hk. apply (Hout (S k)). lia.
Qed.

Lemma up_lines_list (w h : nat) (b : list (list cell)) :
  rectangular w h b -> (0 < w)%nat -> (0 < h)%nat ->
  omap id (changeDiagonalToHorizontalUp b)
  = map (fun k => segmentLine b (upSegment w h k)) (seq 0 (w + h - 1)).
Proof.
  intros Hrect Hw Hh. unfold changeDiagonalToHorizontalUp.
  rewrite pushRows_pushAll.
  assert (Hall : forall k, pushedTo k (keyedRows 0 b)
                           = segmentLine b (upSegment w h k)).
  { intros k. rewrite <- (take_ge b w) at 1 by (destruct Hrect; lia).
    rewrite (pushedTo_keyedRows_take w h b k w Hrect Hh) by lia.
    replace (Nat.min w (S k) - diagonalFirst h k)%nat
      with (diagonalLength w h k) by reflexivity.
    apply upSegment_line. }
  apply omap_id_lines.
  - intros k Hk. rewrite pushAll_line, Hall.
    destruct (segmentLine b (upSegment w h k)) eqn:E; [| reflexivity].
    apply segmentLine_nil in E. simpl in E.
    unfold diagonalLength, diagonalFirst in E. lia.
  - intros k Hk. rewrite pushAll_line, Hall.
    rewrite (proj2 (segmentLine_nil b (upSegment w h k))); [reflexivity |].
    simpl. unfold diagonalLength, diagonalFirst. lia.
Qed.

Lemma down_lines_list (w h : nat) (b : list (list cell)) :
  rectangular w h b -> (0 < w)%nat -> (0 < h)%nat ->
  omap id (changeDiagonalToHorizontalDown b)
  = map (fun k => segmentLine b (downSegment w h k)) (seq 0 (w + h - 1)).
Proof.
  intros Hrect Hw Hh.
  change (changeDiagonalToHorizontalDown b)
    with (changeDiagonalToHorizontalUp (rev b)).
  rewrite (up_lines_list w h (rev b) (rectangular_rev w h b Hrect) Hw Hh).
  apply map_ext. intros k. now apply downSegment_line.
Qed.

Lemma rows_list (w h : nat) (b : list (list cell)) :
  rectangular w h b ->
  b = map (fun i => segmentLine b (rowSegment h i)) (seq 0 w).
Proof.
  intros Hrect. pose proof Hrect as [Hrows _].
  apply list_eq. intros i. rewrite list_lookup_fmap.
  destruct (decide (i < w)%nat) as [Hi | Hi].
  - rewrite lookup_seq_lt by exact Hi. simpl.
    destruct (lookup_lt_is_Some_2 b i) as [line Hline]; [lia |].
    rewrite Hline. f_equal. symmetry. now apply (rowSegment_line w h).
  - rewrite lookup_seq_ge by lia. simpl. apply lookup_ge_None. lia.
Qed.

Lemma columns_list (w h : nat) (b : list (list cell)) :
  rectangular w h b -> (0 < w)%nat ->
  rotateBoard b
  = Ok (map (fun j => segmentLine b (columnSegment w j)) (seq 0 h)).
Proof.
  intros Hrect Hw. pose proof Hrect as [Hrows Hlines].
  destruct b as [| line0 rest] eqn:Eb; [simpl in Hrows; lia |].
  rewrite <- Eb in *.
  assert (Hlen0 : length line0 = h).
  { rewrite Eb in Hlines. now apply Forall_inv in Hlines. }
  transitivity (Ok (map (fun index =>
                           rev (map (fun r => default Undefined (r !! index)) b))
                        (seq 0 h))).
  { rewrite Eb. unfold rotateBoard. now rewrite Hlen0. }
  f_equal. apply map_ext_in. intros j Hj. apply in_seq in Hj.
  apply (columnSegment_line w h b j Hrect). lia.
Qed.

Lemma totalNumberOfTouchingPieces_list (w h : nat) (b : list (list cell))
    (pc : cell) :
  rectangular w h b -> (0 < w)%nat -> (0 < h)%nat -> pc <> Zero ->
  totalNumberOfTouchingPieces pc b
  = Ok (filter (fun n => 2 <= n)
          (map (fun s => Z.of_nat (longestRun pc (segmentLine b s)))
               (scannedSegments w h))).
Proof.
  intros Hrect Hw Hh Hpc.
  unfold totalNumberOfTouchingPieces, countVerticalTouching.
  rewrite (columns_list w h b Hrect Hw). cbn [bind]. f_equal.
  unfold countDiagonalTouching, changeDiagonalToHorizontal.
  rewrite omap_app, (up_lines_list w h b Hrect Hw Hh),
    (down_lines_list w h b Hrect Hw Hh).
  replace (countHorizontalTouching pc b)
    with (countHorizontalTouching pc
            (map (fun i => segmentLine b (rowSegment h i)) (seq 0 w)))
    by (now rewrite <- (rows_list w h b Hrect)).
  rewrite !countHorizontalTouching_lines by exact Hpc.
  unfold scannedSegments.
  rewrite !map_app, !filter_app, !map_map. reflexivity.
Qed.

(** X18.  On a board of [w] rows and [h] columns,
    [totalNumberOfTouchingPieces] goes through the columns, the rows and
    the diagonals of both directions, in this order, takes of each line the
    length of its longest unbroken run of the colour, and returns these
    lengths, leaving out those below two: one number for every line that
    holds two or more stones of the colour side by side. *)
Theorem totalNumberOfTouchingPieces_lines (w h : nat) (b : list (list cell))
    (pc : cell) :
  rectangular w h b -> (0 < w)%nat -> (0 < h)%nat -> pc <> Zero ->
  totalNumberOfTouchingPieces pc b
  = Ok (filter (fun n => 2 <= n)
          (map (fun s => Z.of_nat (longestRun pc (segmentLine b s)))
               (scannedSegments w h))).
Proof. apply totalNumberOfTouchingPieces_list. Qed.

Lemma totalNumberOfTouchingPieces_lines_witness :
  totalNumberOfTouchingPieces Black (board (gameOf fiveBesideSix))
  = Ok (filter (fun n => 2 <= n)
          (map (fun s => Z.of_nat (longestRun Black
                                     (segmentLine (board (gameOf fiveBesideSix)) s)))
               (scannedSegments 15 15))).
Proof.
  apply totalNumberOfTouchingPieces_lines; try lia; try discriminate.
  apply rectangular_by_lengths; reflexivity.
Defined.

(** ** Double threes and double fours *)

Lemma some_spec {A : Type} (f : A -> result bool) (xs : list A) :
  (forall x, x ∈ xs -> exists v, f x = Ok v) ->
  exists v, some f xs = Ok v /\
            (v = true <-> exists x, x ∈ xs /\ f x = Ok true).
Proof.
  induction xs as [| x xs IH]; intros Hall.
  - exists false. split; [reflexivity |]. split; [discriminate |].
    intros (x & Hx & _). now apply elem_of_nil in Hx.
  - destruct (Hall x ltac:(left)) as [v Hv].
    destruct IH as (v' & Hsome & Hiff).
    { intros y Hy. apply Hall. now right. }
    simpl. rewrite Hv. destruct v.
    + exists true. split; [reflexivity |]. split; [| reflexivity].
      intros _. exists x. split; [left | exact Hv].
    + exists v'. split; [exact Hsome |]. rewrite Hiff. split.
      * intros (y & Hy & Hfy). exists y. split; [now right | exact Hfy].
      * intros (y & Hy & Hfy). apply elem_of_cons in Hy as [-> | Hy];
          [congruence |]. eauto.
Qed.

Lemma longestRun_ext (pc : cell) (l l' : list cell) :
  Forall2 (fun x y => strictEq x pc = strictEq y pc) l l' ->
  longestRun pc l = longestRun pc l'.
Proof.
  intros H.
  assert (Hlead : forall l l',
             Forall2 (fun x y => strictEq x pc = strictEq y pc) l l' ->
             leadingRun pc l = leadingRun pc l').
  { clear. intros l l' H. induction H as [| x y l l' Hxy _ IH]; [reflexivity |].
    simpl. rewrite Hxy, IH. reflexivity. }
  induction H as [| x y l l' Hxy Hrest IH]; [reflexivity |].
  cbn [longestRun]. rewrite IH.
  rewrite (Hlead (x :: l) (y :: l')) by (constructor; assumption).
  reflexivity.
Qed.

Lemma longestRun_none (pc : cell) (l : list cell) :
  Forall (fun x => strictEq x pc = false) l -> longestRun pc l = 0%nat.
Proof.
  induction 1 as [| x l Hx _ IH]; [reflexivity |].
  cbn [longestRun leadingRun]. now rewrite Hx, IH.
Qed.

Lemma scannedSegments_inside (w h : nat) (s : segment) (t : nat) :
  (0 < w)%nat -> (0 < h)%nat ->
  s ∈ scannedSegments w h -> (t < len s)%nat ->
  inside w h (segmentCell s (Z.of_nat t)).
Proof.
  intros Hw Hh Hs Ht. unfold scannedSegments in Hs.
  rewrite !elem_of_app in Hs.
  destruct Hs as [Hs | [Hs | [Hs | Hs]]];
    apply list_elem_of_fmap in Hs as (k & -> & Hk);
    apply list_elem_of_In, in_seq in Hk.
  - apply (family_inside _ _ _ _ (columnFamily_lines w h Hw)); [| lia].
    exists k. split; [lia | reflexivity].
  - apply (family_inside _ _ _ _ (rowFamily_lines w h Hh)); [| lia].
    exists k. split; [lia | reflexivity].
  - apply (family_inside _ _ _ _ (upFamily_lines w h Hw Hh)); [| lia].
    exists k. split; [lia | reflexivity].
  - apply (family_inside _ _ _ _ (downFamily_lines w h Hw Hh)); [| lia].
    exists k. split; [lia | reflexivity].
Qed.

Lemma getTouchingCells_cells (n : nat) (window : list (list cell)) :
  rectangular (2 * n + 1) (2 * n + 1) window ->
  exists masked,
    getTouchingCells window = Ok masked /\
    rectangular (2 * n + 1) (2 * n + 1) masked /\
    forall x, inside (2 * n + 1) (2 * n + 1) x ->
      valueAt masked x
      = if strictEq (valueAt window x)
                    (valueAt window (Z.of_nat n, Z.of_nat n))
        then valueAt window x else Zero.
Proof.
  intros Hrect. pose proof Hrect as [Hrows Hlines].
  destruct (board_numbers _ _ _ Hrect ltac:(lia)) as [Hnum _].
  assert (Hhalf : Z.of_nat (2 * n + 1) / 2 = Z.of_nat n)
    by (Z.to_euclidean_division_equations; lia).
  unfold getTouchingCells. rewrite Hnum. cbn [bind].
  rewrite Hrows, Hhalf.
  rewrite (readCell_valueAt _ _ _ _ _ Hrect) by lia. cbn [bind].
  rewrite Nat2Z.id.
  set (mid := valueAt window (Z.of_nat n, Z.of_nat n)).
  eexists. split; [reflexivity |].
  assert (Hmasked : rectangular (2 * n + 1) (2 * n + 1)
            (map (fun line =>
                    map (fun j =>
                           let v := default Undefined (line !! j) in
                           if strictEq v mid then v else Zero)
                        (seq 0 (2 * n + 1))) window)).
  { split; [now rewrite length_map |].
    apply Forall_forall. intros line Hin.
    apply list_elem_of_fmap in Hin as (line' & -> & _).
    now rewrite length_map, length_seq. }
  split; [exact Hmasked |].
  intros [i j] [Hi Hj]. simpl in Hi, Hj.
  destruct (lookup_lt_is_Some_2 window (Z.to_nat i)) as [line Hline]; [lia |].
  assert (Hlen : length line = (2 * n + 1)%nat).
  { eapply Forall_lookup_1 in Hlines; eauto. }
  destruct (lookup_lt_is_Some_2 line (Z.to_nat j)) as [v Hv]; [lia |].
  assert (Hwin : valueAt window (i, j) = v).
  { unfold valueAt. simpl.
    rewrite (proj2 (cellAt_Some window i j v)); [reflexivity |].
    exists line. repeat split; auto; lia. }
  rewrite Hwin. unfold valueAt at 1. simpl.
  rewrite (proj2 (cellAt_Some _ i j (if strictEq v mid then v else Zero)));
    [reflexivity |].
  eexists. split; [lia |]. split.
  - rewrite list_lookup_fmap, Hline. reflexivity.
  - split; [lia |].
    rewrite list_lookup_fmap, lookup_seq_lt by lia. simpl. now rewrite Hv.
Qed.

Lemma filter_size_length (size : Z) (F : segment -> Z) (segs : list segment) :
  2 <= size ->
  length (filter (fun x => x = size) (filter (fun n => 2 <= n) (map F segs)))
  = length (filter (fun s => F s = size) segs).
Proof.
  intros Hsize. induction segs as [| s segs IH]; [reflexivity |].
  cbn [map]. rewrite (filter_cons (fun n => 2 <= n)), (filter_cons (fun s => F s = size)).
  destruct (decide (F s = size)) as [E | E].
  - rewrite decide_True by lia. rewrite filter_cons, decide_True by exact E.
    simpl. now rewrite IH.
  - destruct (decide (2 <= F s)); [| exact IH].
    rewrite filter_cons, decide_False by exact E. exact IH.
Qed.

Lemma filter_ext_length {A : Type} (P Q : A -> Prop)
    `{forall x, Decision (P x)} `{forall x, Decision (Q x)} (l : list A) :
  (forall x, x ∈ l -> P x <-> Q x) ->
  length (filter P l) = length (filter Q l).
Proof.
  induction l as [| x l IH]; intros Hext; [reflexivity |].
  rewrite !filter_cons.
  pose proof (Hext x ltac:(left)) as Hx.
  assert (Hl : forall y, y ∈ l -> P y <-> Q y) by (intros; apply Hext; now right).
  destruct (decide (P x)), (decide (Q x)); simpl; try tauto; rewrite (IH Hl);
    reflexivity.
Qed.

(** The test that [blackMakesDoubleThree] and [blackMakesDoubleFour] make
    at one cell of the board. *)
Lemma double_at_cell (w h number size : nat) (b : list (list cell)) (r c : Z) :
  rectangular w h b ->
  0 <= r < Z.of_nat w -> 0 <= c < Z.of_nat h ->
  (2 <= size)%nat ->
  exists v : bool,
    (let* cellsAround := getCellsAround r c number b in
     let* touchingCells := getTouchingCells cellsAround in
     let* numberOfTouchingPieces :=
       totalNumberOfTouchingPieces Black touchingCells in
     let kept := filter (fun x => x = Z.of_nat size) numberOfTouchingPieces in
     Ok (2 <=? Z.of_nat (length kept))) = Ok v /\
    (v = true <-> doubleAt number size b r c).
Proof.
  intros Hrect Hr Hc Hsize.
  destruct (getCellsAround_cells w h b r c number Hrect Hr Hc)
    as (window & Hwindow & Hwrect & Hwcells).
  destruct (getTouchingCells_cells number window Hwrect)
    as (masked & Hmasked & Hmrect & Hmcells).
  rewrite Hwindow. cbn [bind]. rewrite Hmasked. cbn [bind].
  rewrite (totalNumberOfTouchingPieces_list _ _ masked Black Hmrect)
    by (try lia; discriminate).
  cbn [bind]. eexists. split; [reflexivity |].
  rewrite filter_size_length by lia.
  set (N := (2 * number + 1)%nat) in *.
  assert (Hmid : valueAt window (Z.of_nat number, Z.of_nat number)
                 = valueAt b (r, c)).
  { unfold valueAt at 1. simpl. rewrite Hwcells by lia.
    simpl. unfold valueAt. simpl.
    replace (r - Z.of_nat number + Z.of_nat number) with r by lia.
    replace (c - Z.of_nat number + Z.of_nat number) with c by lia.
    destruct (cellAt_inside w h b r c Hrect) as [_ Hin].
    destruct Hin as [x Hx]; [split; simpl; lia |]. now rewrite Hx. }
  assert (Hwvalue : forall x, inside N N x ->
             valueAt window x
             = default Null (cellAt b (r - Z.of_nat number + x.1)
                                      (c - Z.of_nat number + x.2))).
  { intros [i j] [Hi Hj]. simpl in Hi, Hj. unfold valueAt. simpl.
    rewrite Hwcells by (unfold N in *; lia). reflexivity. }
  destruct (strictEq (valueAt b (r, c)) Black) eqn:Eblack.
  - apply strictEq_eq in Eblack.
    assert (Hstone : cellAt b r c = Some Black).
    { destruct (cellAt_inside w h b r c Hrect) as [_ Hin].
      destruct Hin as [x Hx]; [split; simpl; lia |].
      unfold valueAt in Eblack. simpl in Eblack. rewrite Hx in Eblack.
      simpl in Eblack. congruence. }
    assert (Hlines : length (filter
                (fun s => Z.of_nat (longestRun Black (segmentLine masked s))
                          = Z.of_nat size) (scannedSegments N N))
              = length (linesWithRun number size b r c)).
    { unfold linesWithRun. fold N. apply filter_ext_length.
      intros s Hs.
      assert (Hrun : longestRun Black (segmentLine masked s)
                     = longestRun Black (windowLine b r c number s)).
      { apply longestRun_ext. unfold segmentLine, windowLine.
        apply Forall2_fmap, Forall_Forall2_diag, Forall_forall.
        intros t Ht. apply list_elem_of_In, in_seq in Ht.
        pose proof (scannedSegments_inside N N s t ltac:(unfold N; lia)
                      ltac:(unfold N; lia) Hs ltac:(lia)) as Hin.
        cbv zeta. rewrite <- (Hwvalue _ Hin), (Hmcells _ Hin), Hmid, Eblack.
        destruct (strictEq (valueAt window _) Black) eqn:E; [exact E | reflexivity]. }
      rewrite Hrun. lia. }
    rewrite Hlines. unfold doubleAt.
    split.
    + intros H. split; [exact Hstone |]. apply Z.leb_le in H. lia.
    + intros [_ H]. apply Z.leb_le. lia.
  - assert (Hnone : forall s, s ∈ scannedSegments N N ->
              longestRun Black (segmentLine masked s) = 0%nat).
    { intros s Hs. apply longestRun_none. unfold segmentLine.
      apply Forall_fmap, Forall_forall. intros t Ht.
      apply list_elem_of_In, in_seq in Ht.
      pose proof (scannedSegments_inside N N s t ltac:(unfold N; lia)
                    ltac:(unfold N; lia) Hs ltac:(lia)) as Hin.
      simpl. rewrite (Hmcells _ Hin), Hmid.
      destruct (strictEq (valueAt window _) (valueAt b (r, c))) eqn:E;
        [| reflexivity].
      apply strictEq_eq in E. now rewrite E. }
    assert (Hempty : length (filter
                (fun s => Z.of_nat (longestRun Black (segmentLine masked s))
                          = Z.of_nat size) (scannedSegments N N)) = 0%nat).
    { rewrite (filter_ext_length _ (fun _ => False)).
      - clear. induction (scannedSegments N N) as [| s segs IH]; [reflexivity |].
        rewrite filter_cons. destruct (decide False); [contradiction | exact IH].
      - intros s Hs. rewrite (Hnone s Hs). lia. }
    rewrite Hempty. split; [discriminate |].
    intros [Hstone _]. unfold valueAt in Eblack. simpl in Eblack.
    rewrite Hstone in Eblack. discriminate.
Qed.

Lemma blackMakesDouble_spec (w h number size : nat) (b : list (list cell)) :
  rectangular w h b -> (2 <= size)%nat ->
  exists v : bool,
    blackMakesDouble number (Z.of_nat size) b = Ok v /\
    (v = true <-> exists r c, doubleAt number size b r c).
Proof.
  intros Hrect Hsize. pose proof Hrect as [Hrows Hlines].
  set (inner := fun (rowIndex columnIndex : nat) =>
         let* cellsAround :=
           getCellsAround (Z.of_nat rowIndex) (Z.of_nat columnIndex) number b in
         let* touchingCells := getTouchingCells cellsAround in
         let* numberOfTouchingPieces :=
           totalNumberOfTouchingPieces Black touchingCells in
         let kept := filter (fun x => x = Z.of_nat size) numberOfTouchingPieces in
         Ok (2 <=? Z.of_nat (length kept))).
  assert (Hinner : forall i j, (i < w)%nat -> (j < h)%nat ->
             exists v : bool, inner i j = Ok v /\
               (v = true <-> doubleAt number size b (Z.of_nat i) (Z.of_nat j))).
  { intros i j Hi Hj.
    apply (double_at_cell w h number size b (Z.of_nat i) (Z.of_nat j) Hrect);
      lia. }
  assert (Hrow : forall i line, b !! i = Some line ->
             exists v : bool,
               some (inner i) (seq 0 (length line)) = Ok v /\
               (v = true <-> exists c, doubleAt number size b (Z.of_nat i) c)).
  { intros i line Hline.
    assert (Hi : (i < w)%nat) by (apply lookup_lt_Some in Hline; lia).
    assert (Hlen : length line = h).
    { eapply Forall_lookup_1 in Hlines; eauto. }
    rewrite Hlen.
    destruct (some_spec (inner i) (seq 0 h)) as (v & Hsome & Hv).
    { intros j Hj. apply list_elem_of_In, in_seq in Hj.
      destruct (Hinner i j Hi ltac:(lia)) as (v & Hv & _). eauto. }
    exists v. split; [exact Hsome |]. rewrite Hv. split.
    - intros (j & Hj & Hfj). apply list_elem_of_In, in_seq in Hj.
      destruct (Hinner i j Hi ltac:(lia)) as (v' & Hv' & Hiff).
      exists (Z.of_nat j). apply Hiff. congruence.
    - intros (c & Hc). pose proof Hc as [Hstone _].
      apply (cellAt_rectangular _ _ _ _ _ _ Hrect) in Hstone as [_ Hcol].
      exists (Z.to_nat c). split; [apply list_elem_of_In, in_seq; lia |].
      destruct (Hinner i (Z.to_nat c) Hi ltac:(lia)) as (v' & Hv' & Hiff).
      rewrite Z2Nat.id in Hiff by lia.
      rewrite Hv'. f_equal. now apply Hiff. }
  unfold blackMakesDouble.
  destruct (some_spec
              (fun '(rowIndex, line) => some (inner rowIndex) (seq 0 (length line)))
              (imap (fun rowIndex line => (rowIndex, line)) b))
    as (v & Hsome & Hv).
  { intros [i line] Hin. apply elem_of_lookup_imap in Hin as (i' & line' & [= -> ->] & Hline).
    destruct (Hrow i' line' Hline) as (v & Hv & _). eauto. }
  exists v. split; [exact Hsome |]. rewrite Hv. split.
  - intros ([i line] & Hin & Hf).
    apply elem_of_lookup_imap in Hin as (i' & line' & [= -> ->] & Hline).
    destruct (Hrow i' line' Hline) as (v' & Hv' & Hiff).
    assert (v' = true) by congruence. subst v'.
    destruct (proj1 Hiff eq_refl) as [c Hc]. eauto.
  - intros (r & c & Hd). pose proof Hd as [Hstone _].
    apply (cellAt_rectangular _ _ _ _ _ _ Hrect) in Hstone as [Hr _].
    destruct (lookup_lt_is_Some_2 b (Z.to_nat r)) as [line Hline]; [lia |].
    exists (Z.to_nat r, line). split.
    + apply elem_of_lookup_imap. eauto.
    + destruct (Hrow (Z.to_nat r) line Hline) as (v' & Hv' & Hiff).
      rewrite Z2Nat.id in Hiff by lia.
      rewrite Hv'. f_equal. apply Hiff. eauto.
Qed.

(** X19.  [blackMakesDoubleThree] answers [true] exactly when the board
    holds a black stone such that, in the square of five rows and columns
    around it, at least two of the rows, columns and diagonals of the
    square have a longest unbroken run of black stones of exactly three;
    [blackMakesDoubleFour] likewise with a square of seven and runs of
    exactly four.  Cells of the square that fall off the board count as
    empty.  The two lines need not pass through the stone, and runs are
    not asked to be open at their ends. *)
Theorem double_shapes (w h : nat) (b : list (list cell)) :
  rectangular w h b ->
  (exists v : bool, blackMakesDoubleThree b = Ok v /\
                    (v = true <-> exists r c, doubleAt 2 3 b r c)) /\
  (exists v : bool, blackMakesDoubleFour b = Ok v /\
                    (v = true <-> exists r c, doubleAt 3 4 b r c)).
Proof.
  intros Hrect. split.
  - apply (blackMakesDouble_spec w h 2 3 b Hrect). lia.
  - apply (blackMakesDouble_spec w h 3 4 b Hrect). lia.
Qed.

Lemma double_shapes_witness :
  (exists v : bool,
     blackMakesDoubleThree (board (gameOf doubleFourThenPass)) = Ok v /\
     (v = true <-> exists r c, doubleAt 2 3 (board (gameOf doubleFourThenPass)) r c)) /\
  (exists v : bool,
     blackMakesDoubleFour (board (gameOf doubleFourThenPass)) = Ok v /\
     (v = true <-> exists r c, doubleAt 3 4 (board (gameOf doubleFourThenPass)) r c)).
Proof.
  apply (double_shapes 15 15).
  apply rectangular_by_lengths; reflexivity.
Defined.

(** ** The queries leave the caller's position alone *)

Module StoreQueries.
Import Store StoreFacts.

Lemma items_insert {A : Type} (as_ : object -> option A) (σ : store)
    (items : list loc) (xs : list A) (l : loc) (o : object) :
  l ∉ items ->
  Forall2 (fun i x => σ !! i ≫= as_ = Some x) items xs ->
  Forall2 (fun i x => (<[l := o]> σ) !! i ≫= as_ = Some x) items xs.
Proof.
  intros Hl Hitems. induction Hitems as [| i x items xs Hi Hitems IH].
  - constructor.
  - apply not_elem_of_cons in Hl as [Hne Hl]. constructor; [| now apply IH].
    now rewrite lookup_insert_ne.
Qed.

Lemma clonePosition_spec (σ : store) (g boardRef movesRef : loc)
    (rows items : list loc) (b : list (list cell)) (log : list move) :
  positionAt σ g boardRef movesRef rows items b log ->
  exists g' board' moves' rows' items' σ',
    clonePosition g σ = (Ok g', σ') /\
    copied σ σ' board' moves' rows' items' b log /\
    σ' !! g' = Some (Position board' moves') /\
    g' ∉ (board' :: rows') ++ (moves' :: items').
Proof.
  intros (Hg & Hboard & Hmoves). unfold clonePosition.
  run (position_ok σ g boardRef movesRef Hg).
  destruct (clones_spec σ σ boardRef movesRef rows items b log
              (reflexivity σ) Hboard Hmoves)
    as (board' & rows' & moves' & items' & σ2 & σ3 & Hrun2 & Hrun3 & Hsub3 & Hcopied).
  run Hrun2. run Hrun3. rewrite alloc_run.
  set (g' := fresh (dom σ3)).
  pose proof Hcopied as (Hsub & Hboard' & Hmoves' & Hnodup & Hunused).
  assert (Hfresh : g' ∉ (board' :: rows') ++ (moves' :: items')).
  { intros Hin. apply elem_of_app in Hin as [Hin | Hin].
    - pose proof (arrayAt_used _ _ _ _ _ Hboard') as Hused.
      rewrite Forall_forall in Hused. destruct (Hused g' Hin) as [o Ho].
      unfold g' in Ho. now rewrite alloc_unused in Ho.
    - pose proof (arrayAt_used _ _ _ _ _ Hmoves') as Hused.
      rewrite Forall_forall in Hused. destruct (Hused g' Hin) as [o Ho].
      unfold g' in Ho. now rewrite alloc_unused in Ho. }
  exists g', board', moves', rows', items', (<[g' := Position board' moves']> σ3).
  split; [reflexivity |]. split; [| split; [apply lookup_insert_eq | exact Hfresh]].
  split; [etrans; [exact Hsub | apply alloc_grows] |].
  split; [| split; [| split; [exact Hnodup | exact Hunused]]].
  - apply arrayAt_insert; [| exact Hboard'].
    intros Hin. apply Hfresh. apply elem_of_app. now left.
  - apply arrayAt_insert; [| exact Hmoves'].
    intros Hin. apply Hfresh. apply elem_of_app. now right.
Qed.

(** [moves.pop()] on the copy of a log that is not empty. *)
Lemma copied_pop (σ0 σ : store) (boardRef movesRef : loc)
    (rows items : list loc) (b : list (list cell)) (log : list move)
    (l : loc) (m : move) :
  copied σ0 σ boardRef movesRef rows (items ++ [l]) b (log ++ [m]) ->
  pop movesRef σ = (Ok (Some l), <[movesRef := Refs items]> σ) /\
  copied σ0 (<[movesRef := Refs items]> σ) boardRef movesRef rows items b log /\
  (<[movesRef := Refs items]> σ) !! l ≫= asLogged = Some m.
Proof.
  intros (Hsub & Hboard & Hmoves & Hnodup & Hunused).
  pose proof Hmoves as [Hrefs Hitems].
  assert (Hlen : length items = length log).
  { apply Forall2_length in Hitems. rewrite !length_app in Hitems.
    simpl in Hitems. lia. }
  apply Forall2_app_inv in Hitems as [Hitems Hlast]; [| exact Hlen].
  apply Forall2_cons_1 in Hlast as [Hl _].
  apply NoDup_app in Hnodup as (Hnodup1 & Hdisjoint & Hnodup2).
  apply Forall_app in Hunused as [Hunused1 Hunused2].
  apply NoDup_cons in Hnodup2 as [Hnot Hnodup2].
  apply NoDup_app in Hnodup2 as (Hnodup2 & _ & _).
  rewrite not_elem_of_app in Hnot. destruct Hnot as [Hnot Hnotl].
  split; [| split].
  - unfold pop. run (arrayAt_refs asLogged σ movesRef _ _ Hmoves).
    rewrite last_snoc, removelast_last. reflexivity.
  - split; [| split; [| split; [| split]]].
    + apply unused_insert; [exact Hsub |].
      apply (unused_elem σ0 (movesRef :: items ++ [l])); [exact Hunused2 | left].
    + apply arrayAt_insert; [| exact Hboard].
      intros Hin. apply (Hdisjoint movesRef Hin). left.
    + split; [apply lookup_insert_eq |]. now apply items_insert.
    + apply NoDup_app. split; [exact Hnodup1 |]. split.
      * intros x Hx Hx'. apply (Hdisjoint x Hx).
        apply elem_of_cons in Hx' as [-> | Hx']; [left | right].
        apply elem_of_app. now left.
      * now constructor.
    + apply Forall_app. split; [exact Hunused1 |].
      apply Forall_cons in Hunused2 as [Hm Hrest].
      apply Forall_app in Hrest as [Hrest _]. now constructor.
  - rewrite lookup_insert_ne; [exact Hl |].
    intros <-. apply Hnotl. left.
Qed.

(** [removeLastMove] pops and writes in place, but in its own copy: it
    answers as on values, with a position of new objects, and everything
    the store held before is as it was. *)
Lemma removeLastMove_refines (σ : store) (g boardRef movesRef : loc)
    (rows items : list loc) (b : list (list cell)) (log : list move) :
  positionAt σ g boardRef movesRef rows items b log ->
  exists returned σ',
    removeLastMove g σ = (returned, σ') /\ σ ⊆ σ' /\
    match Renju.removeLastMove (GameState b log) with
    | Ok st' => exists g', returned = Ok g' /\ decodeState σ' g' = Some st'
    | Throw e => returned = Throw e
    | OutOfFuel => False
    end.
Proof.
  intros Hposition.
  destruct (clonePosition_spec σ g boardRef movesRef rows items b log Hposition)
    as (g' & board' & moves' & rows' & items' & σ1 & Hrun & Hcopied & Hg' & Hfresh).
  unfold removeLastMove, Renju.removeLastMove. run Hrun.
  run (position_ok σ1 g' board' moves' Hg'). cbn [moves board].
  pose proof Hcopied as (Hsub & Hboard' & Hmoves' & Hnodup & Hunused).
  pose proof (Forall2_length _ _ _ (proj2 Hmoves')) as Hlen.
  destruct (last log) as [m |] eqn:Elast.
  - apply last_Some in Elast as [log' ->].
    destruct (last items') as [l |] eqn:Eitems.
    2: { apply last_None in Eitems. subst items'.
         rewrite length_app in Hlen. simpl in Hlen. lia. }
    apply last_Some in Eitems as [its ->].
    destruct (copied_pop σ σ1 board' moves' rows' its b log' l m Hcopied)
      as (Hpop & Hcopied' & Hl).
    run Hpop. run (get_ok asLogged l _ m Hl). rewrite removelast_last.
    set (σ2 := <[moves' := Refs its]> σ1) in *.
    pose proof Hcopied' as (Hsub2 & Hboard2 & Hmoves2 & Hnodup2 & Hunused2).
    apply NoDup_app in Hnodup2 as Hparts. destruct Hparts as (Hnodup1 & Hdisjoint & _).
    pose proof (writeCell_spec σ2 board' rows' b (row m) (column m) Null
                  Hboard2 Hnodup1) as Hwrite.
    destruct (Renju.writeCell b (row m) (column m) Null) as [b' | e |]; simpl.
    + destruct Hwrite as (line & o & Hline & Hrun' & Hboard3).
      run Hrun'. unfold ret.
      assert (Hother : forall x, x ∉ (board' :: rows') -> line <> x).
      { intros x Hx ->. apply Hx. now right. }
      assert (Hsub3 : σ ⊆ <[line := o]> σ2).
      { apply unused_insert; [exact Hsub2 |].
        apply (unused_elem σ _ line Hunused2). apply elem_of_app. left. now right. }
      eexists _, _. split; [reflexivity |]. split; [exact Hsub3 |].
      exists g'. split; [reflexivity |].
      apply decodeState_positionAt. exists board', moves', rows', its.
      cbn [board moves]. split; [| split; [exact Hboard3 |]].
      * rewrite lookup_insert_ne.
        -- unfold σ2. rewrite lookup_insert_ne; [exact Hg' |].
           intros <-. apply Hfresh. apply elem_of_app. right. left.
        -- intros <-. apply Hfresh. apply elem_of_app. left. now right.
      * apply arrayAt_insert; [| exact Hmoves2].
        apply Hdisjoint. now right.
    + rewrite (bindM_throw _ _ _ _ _ Hwrite).
      eexists _, _. split; [reflexivity |]. split; [exact Hsub2 | reflexivity].
    + contradiction.
  - apply last_None in Elast. subst log. destruct items' as [| i items'];
      [| simpl in Hlen; lia].
    assert (Hpop : pop moves' σ1 = (Ok None, σ1)).
    { unfold pop. now run (arrayAt_refs asLogged σ1 moves' _ _ Hmoves'). }
    run Hpop. unfold throw.
    eexists _, _. split; [reflexivity |]. split; [exact Hsub | reflexivity].
Qed.

Lemma boardOf_ok (σ : store) (g boardRef movesRef : loc)
    (rows items : list loc) (b : list (list cell)) (log : list move) :
  positionAt σ g boardRef movesRef rows items b log ->
  boardOf g σ = (Ok b, σ).
Proof.
  intros (Hg & Hboard & _). unfold boardOf.
  run (position_ok σ g boardRef movesRef Hg).
  apply (load_ok asCells σ boardRef rows b Hboard).
Qed.

Lemma justMade_refines (shape : list (list cell) -> result bool) (σ : store)
    (g boardRef movesRef : loc) (rows items : list loc)
    (b : list (list cell)) (log : list move) :
  positionAt σ g boardRef movesRef rows items b log ->
  exists σ',
    justMade shape g σ = (Renju.justMade shape (GameState b log), σ') /\ σ ⊆ σ'.
Proof.
  intros Hposition. unfold justMade, Renju.justMade.
  run (boardOf_ok σ g boardRef movesRef rows items b log Hposition).
  cbn [board]. unfold bindM at 1, lift at 1.
  destruct (shape b) as [[|] | e |] eqn:Eshape; simpl;
    try (exists σ; split; reflexivity).
  destruct (removeLastMove_refines σ g boardRef movesRef rows items b log Hposition)
    as (returned & σ1 & Hrun & Hsub & Hreturned).
  destruct (Renju.removeLastMove (GameState b log)) as [st' | e |]; simpl.
  - destruct Hreturned as (g' & -> & Hdecode). run Hrun.
    apply decodeState_positionAt in Hdecode
      as (board' & moves' & rows' & items' & Hposition').
    run (boardOf_ok σ1 g' board' moves' rows' items' _ _ Hposition').
    unfold bindM, lift, ret.
    destruct (shape (board st')) as [before | e |]; simpl;
      exists σ1; (split; [reflexivity | exact Hsub]).
  - subst returned. rewrite (bindM_throw _ _ _ _ _ Hrun).
    exists σ1. split; [reflexivity | exact Hsub].
  - contradiction.
Qed.

Lemma checkWinWhite_refines (σ : store) (g boardRef movesRef : loc)
    (rows items : list loc) (b : list (list cell)) (log : list move) :
  positionAt σ g boardRef movesRef rows items b log ->
  exists σ',
    checkWinWhite g σ = (Renju.checkWinWhite (GameState b log), σ') /\ σ ⊆ σ'.
Proof.
  intros Hposition. unfold checkWinWhite, Renju.checkWinWhite.
  run (boardOf_ok σ g boardRef movesRef rows items b log Hposition).
  cbn [board]. unfold bindM at 1, lift at 1.
  destruct (checkIfFiveInARow White b) as [five | e |]; simpl;
    try (exists σ; split; reflexivity).
  unfold bindM at 1, lift at 1.
  destruct (if five then Ok true else checkOverline White b) as [[|] | e |];
    simpl; try (exists σ; split; reflexivity).
  unfold bindM at 1, lift at 1.
  destruct (checkOverline Black b) as [[|] | e |]; simpl;
    try (exists σ; split; reflexivity).
  destruct (justMade_refines blackMakesDoubleFour σ g boardRef movesRef rows items
              b log Hposition) as (σ1 & Hrun1 & Hsub1).
  unfold bindM at 1. rewrite Hrun1.
  destruct (Renju.justMade blackMakesDoubleFour (GameState b log))
    as [[|] | e |]; simpl; try (exists σ1; split; [reflexivity | exact Hsub1]).
  pose proof (positionAt_grows _ _ _ _ _ _ _ _ _ Hsub1 Hposition) as Hposition1.
  destruct (justMade_refines blackMakesDoubleThree σ1 g boardRef movesRef rows
              items b log Hposition1) as (σ2 & Hrun2 & Hsub2).
  unfold bindM at 1. rewrite Hrun2.
  destruct (Renju.justMade blackMakesDoubleThree (GameState b log))
    as [[|] | e |]; simpl;
    exists σ2; (split; [reflexivity | etrans; eassumption]).
Qed.

Lemma checkWin_refines (pc : cell) (σ : store) (g boardRef movesRef : loc)
    (rows items : list loc) (b : list (list cell)) (log : list move) :
  positionAt σ g boardRef movesRef rows items b log ->
  exists σ',
    checkWin pc g σ = (Renju.checkWin pc (GameState b log), σ') /\ σ ⊆ σ'.
Proof.
  intros Hposition. unfold checkWin, Renju.checkWin.
  run (boardOf_ok σ g boardRef movesRef rows items b log Hposition).
  cbn [board].
  destruct pc; try (exists σ; split; reflexivity).
  - unfold bindM, lift, ret.
    destruct (checkIfFiveInARow Black b) as [[|] | e |]; simpl;
      exists σ; split; reflexivity.
  - now apply (checkWinWhite_refines σ g boardRef movesRef rows items b log).
Qed.

End StoreQueries.

(** X20.  Whatever position a store holds at [g], [removeLastMove] on [g]
    ends as it does on values: with the same exception, or with a reference
    to another position, which holds the board and the log that
    [removeLastMove] on values answers with.  The [pop] and the assignment
    work on a copy: every object that existed before the call is as it was,
    so that [g] still stands for the same board and the same log. *)
Theorem removeLastMove_works_on_copy (σ : gmap positive Store.object)
    (g : positive) (st : gameState) :
  Store.decodeState σ g = Some st ->
  exists returned σ',
    Store.removeLastMove g σ = (returned, σ') /\
    σ ⊆ σ' /\
    Store.decodeState σ' g = Some st /\
    match removeLastMove st with
    | Ok st' =>
        exists g', returned = Ok g' /\ g' <> g /\
                   Store.decodeState σ' g' = Some st'
    | Throw e => returned = Throw e
    | OutOfFuel => False
    end.
Proof.
  intros Hheld.
  apply StoreFacts.decodeState_positionAt in Hheld as Hparts.
  destruct Hparts as (boardRef & movesRef & rows & items & Hposition).
  destruct st as [b log]. cbn [board moves] in Hposition.
  destruct (StoreQueries.removeLastMove_refines σ g boardRef movesRef rows items
              b log Hposition) as (returned & σ' & Hrun & Hsub & Hreturned).
  assert (Hkept : Store.decodeState σ' g = Some (GameState b log)).
  { apply StoreFacts.decodeState_positionAt.
    exists boardRef, movesRef, rows, items.
    eapply StoreFacts.positionAt_grows; eassumption. }
  exists returned, σ'. split; [exact Hrun |]. split; [exact Hsub |].
  split; [exact Hkept |].
  destruct (removeLastMove (GameState b log)) as [st' | e |] eqn:Epure;
    [| exact Hreturned ..].
  destruct Hreturned as (g' & -> & Hdecode). exists g'.
  split; [reflexivity |]. split; [| exact Hdecode].
  intros ->. rewrite Hkept in Hdecode. injection Hdecode as <-.
  unfold removeLastMove in Epure. cbn [moves board] in Epure.
  destruct (last log) as [m |] eqn:Elast; [| discriminate].
  destruct (writeCell b (row m) (column m) Null) as [b' | |]; try discriminate.
  simpl in Epure. injection Epure as _ Hlog.
  apply last_Some in Elast as [log' ->]. rewrite removelast_last in Hlog.
  apply (f_equal length) in Hlog. rewrite length_app in Hlog. simpl in Hlog. lia.
Qed.

Lemma removeLastMove_works_on_copy_witness :
  Store.decodeState heldOpening 19%positive = Some afterFirstMove /\
  exists returned σ',
    Store.removeLastMove 19%positive heldOpening = (returned, σ') /\
    heldOpening ⊆ σ' /\
    Store.decodeState σ' 19%positive = Some afterFirstMove /\
    match removeLastMove afterFirstMove with
    | Ok st' =>
        exists g', returned = Ok g' /\ g' <> 19%positive /\
                   Store.decodeState σ' g' = Some st'
    | Throw e => returned = Throw e
    | OutOfFuel => False
    end.
Proof.
  split; [vm_compute; reflexivity |].
  apply removeLastMove_works_on_copy. vm_compute. reflexivity.
Defined.

(** X21.  Whatever position a store holds at [g], [checkWin] on [g] gives
    the answer it gives on values, for either colour, and leaves every
    object that existed before the call as it was: the moves that
    [removeLastMove] retracts for the double-four and double-three tests
    are retracted in copies, and [g] still stands for the same board and
    the same log. *)
Theorem checkWin_leaves_position (pc : cell) (σ : gmap positive Store.object)
    (g : positive) (st : gameState) :
  Store.decodeState σ g = Some st ->
  exists σ',
    Store.checkWin pc g σ = (checkWin pc st, σ') /\
    σ ⊆ σ' /\
    Store.decodeState σ' g = Some st.
Proof.
  intros Hheld.
  apply StoreFacts.decodeState_positionAt in Hheld
    as (boardRef & movesRef & rows & items & Hposition).
  destruct st as [b log]. cbn [board moves] in Hposition.
  destruct (StoreQueries.checkWin_refines pc σ g boardRef movesRef rows items
              b log Hposition) as (σ' & Hrun & Hsub).
  exists σ'. split; [exact Hrun |]. split; [exact Hsub |].
  apply StoreFacts.decodeState_positionAt.
  exists boardRef, movesRef, rows, items.
  eapply StoreFacts.positionAt_grows; eassumption.
Qed.

Lemma checkWin_leaves_position_witness :
  Store.decodeState heldOpening 19%positive = Some afterFirstMove /\
  exists σ',
    Store.checkWin White 19%positive heldOpening
    = (checkWin White afterFirstMove, σ') /\
    heldOpening ⊆ σ' /\
    Store.decodeState σ' 19%positive = Some afterFirstMove.
Proof.
  split; [vm_compute; reflexivity |].
  apply checkWin_leaves_position. vm_compute. reflexivity.
Defined.

(** X22.  Whatever position a store holds at [g], [isMoveValid] on [g]
    ends as it does on values (with the same answer, the same exception, or
    with the loop of [checkMoveThree] still turning the board when the fuel
    is spent) and leaves every object that existed before the call as it
    was: the tentative stone of the third move is written into a copy of
    the board, and [g] still stands for the same board and the same log. *)
Theorem isMoveValid_leaves_position (fuel : nat) (pc : cell) (r c : Z)
    (σ : gmap positive Store.object) (g : positive) (st : gameState) :
  Store.decodeState σ g = Some st ->
  exists σ',
    Store.isMoveValid fuel pc r c g σ = (isMoveValid fuel pc r c st, σ') /\
    σ ⊆ σ' /\
    Store.decodeState σ' g = Some st.
Proof.
  intros Hheld.
  apply StoreFacts.decodeState_positionAt in Hheld
    as (boardRef & movesRef & rows & items & Hposition).
  destruct st as [b log]. cbn [board moves] in Hposition.
  destruct (StoreFacts.isMoveValid_refines fuel pc r c σ g boardRef movesRef
              rows items b log Hposition) as (σ' & Hrun & Hsub).
  exists σ'. split; [exact Hrun |]. split; [exact Hsub |].
  apply StoreFacts.decodeState_positionAt.
  exists boardRef, movesRef, rows, items.
  eapply StoreFacts.positionAt_grows; eassumption.
Qed.

Lemma isMoveValid_leaves_position_witness :
  Store.decodeState heldOpening 19%positive = Some afterFirstMove /\
  exists σ',
    Store.isMoveValid 9 White 6 7 19%positive heldOpening
    = (isMoveValid 9 White 6 7 afterFirstMove, σ') /\
    heldOpening ⊆ σ' /\
    Store.decodeState σ' 19%positive = Some afterFirstMove.
Proof.
  split; [vm_compute; reflexivity |].
  apply isMoveValid_leaves_position. vm_compute. reflexivity.
Defined.

(** ** Removal of a stone of the board (C5) *)

Lemma removable_dec (r c : Z) (g : gameState) :
  removable r c g \/ ~ removable r c g.
Proof.
  unfold removable.
  destruct (Z.eq_dec (movesMade g) 6) as [E6 | N6]; [| right; tauto].
  destruct (arrayGet_in_range (moves g) 4) as [m5 H5]; [unfold movesMade in E6; lia |].
  destruct (arrayGet_in_range (moves g) 5) as [m6 H6]; [unfold movesMade in E6; lia |].
  destruct (decide (row m5 = r /\ column m5 = c)) as [A5 | N5];
    [left; split; [exact E6 |]; exists m5; tauto |].
  destruct (decide (row m6 = r /\ column m6 = c)) as [A6 | N6];
    [left; split; [exact E6 |]; exists m6; tauto |].
  right. intros (_ & m & [Hm | Hm] & Hrow & Hcol).
  - rewrite H5 in Hm. injection Hm as <-. tauto.
  - rewrite H6 in Hm. injection Hm as <-. tauto.
Qed.

(** C5.  For a cell [(r, c)] of the board, [attemptRemove r c] returns, and
    it returns [valid: true] exactly when six moves are logged and
    [(r, c)] is the location of the fifth or of the sixth; otherwise it
    returns [{valid: false}], which carries no position.  The position it
    returns on success has the removal appended to the log, recorded with
    colour black and [removed: true], has ["removed"] in the cell, and has
    every other cell as it was. *)
Theorem attemptRemove_on_cell (w h : nat) (r c : Z) (g : gameState) :
  rectangular w h (board g) ->
  0 <= r < Z.of_nat w -> 0 <= c < Z.of_nat h ->
  (exists outcome, attemptRemove r c g = Ok outcome) /\
  ((exists g', attemptRemove r c g = Ok (Valid g')) <-> removable r c g) /\
  (attemptRemove r c g = Ok Invalid <-> ~ removable r c g) /\
  (forall g', attemptRemove r c g = Ok (Valid g') ->
     moves g' = moves g ++ [Move r c Black true true] /\
     rectangular w h (board g') /\
     cellAt (board g') r c = Some Removed /\
     forall r' c', (r', c') <> (r, c) ->
       cellAt (board g') r' c' = cellAt (board g) r' c').
Proof.
  intros Hrect Hr Hc.
  assert (Hrow : 0 <= r < Z.of_nat (length (board g))) by (now rewrite (proj1 Hrect)).
  destruct (attemptRemove_inside_board r c g Hrow) as [Hvalid Hinvalid].
  destruct (proj2 (cellAt_inside w h (board g) r c Hrect)) as [x Hx];
    [split; assumption |].
  assert (Hwrite : exists b', writeCell (board g) r c Removed = Ok b').
  { unfold writeCell. destruct (arrayGet_in_range (board g) r Hrow) as [line ->].
    eauto. }
  destruct Hwrite as [b' Hwrite].
  assert (Hyes : removable r c g -> exists g', attemptRemove r c g = Ok (Valid g')).
  { intros [E6 Hm].
    exists (GameState b' (moves g ++ [Move r c Black true true])).
    apply Hvalid. auto. }
  split; [| split; [| split]].
  - destruct (removable_dec r c g) as [Hyes' | Hno].
    + destruct (Hyes Hyes') as [g' Hg']. eauto.
    + exists Invalid. now apply Hinvalid.
  - split; [| exact Hyes].
    intros [g' Hg']. apply Hvalid in Hg' as (E6 & Hm & _). split; assumption.
  - exact Hinvalid.
  - intros g' Hg'. apply Hvalid in Hg' as (_ & _ & Hboard & Hlog).
    split; [exact Hlog |].
    split; [exact (writeCell_rectangular w h _ _ r c Removed Hboard Hrect Hc) |].
    exact (writeCell_inside _ _ r c Removed x Hboard Hx).
Qed.

Lemma attemptRemove_on_cell_witness :
  attemptRemove 5 9 (gameOf sixPlacements)
  = Ok (Valid (gameOf sharedOpening)) /\
  moves (gameOf sharedOpening)
  = moves (gameOf sixPlacements) ++ [Move 5 9 Black true true] /\
  cellAt (board (gameOf sharedOpening)) 5 9 = Some Removed.
Proof.
  assert (Hrect : rectangular 15 15 (board (gameOf sixPlacements)))
    by (apply rectangular_by_lengths; reflexivity).
  destruct (attemptRemove_on_cell 15 15 5 9 (gameOf sixPlacements) Hrect
              ltac:(lia) ltac:(lia)) as (_ & _ & _ & Hsuccess).
  assert (Hcall : attemptRemove 5 9 (gameOf sixPlacements)
                  = Ok (Valid (gameOf sharedOpening))) by (vm_compute; reflexivity).
  destruct (Hsuccess _ Hcall) as (Hlog & _ & Hcell & _).
  split; [exact Hcall |]. split; [exact Hlog | exact Hcell].
Defined.
